(** * video_prep: segment synthesis, montage layout, chapters and metadata

    A shallow embedding of the [video_prep] package
    ([ffwd_video_maker.py], [joiner.py], [montager.py], [chapterer.py],
    [models.py]) together with the properties of its algorithms.

    Modelling conventions.
    - Python [int] is [Z].  A Python [float] is carried as the rational
      [Q] it denotes, and the float arithmetic of [montager.py] and
      [chapterer.py] is IEEE 754 binary64: every operation returns the
      exact result rounded to the nearest double, ties to even
      ([round64], [fsqrt]), with gradual underflow.  A magnitude above
      the largest double, where Python raises [OverflowError] or yields
      an infinity, is outside the model.  The one float operation of the
      builder and the joiner, [duration + padding_buffer] under
      [math.ceil], is taken exact.
    - A text is a [string] whose characters are the code points 0..255.
    - Every ffmpeg/ffprobe wrapper of [ffmpeg_utils.py] is one logged
      operation of an external capability; whether the tool exits with
      status zero, what ffprobe reports, whether a frame file is written
      and whether Pillow can build the canvas and read a frame are
      answers of an oracle ([Capability]).
    - Effectful functions live in a small state-and-exception monad [M]
      over the [world] (call log and existing frame files).
    - The [while] loop of the fast-forward builder runs on fuel; running
      out of fuel is the separate outcome [OutOfFuel], never a result. *)

From Stdlib Require Import ZArith QArith Qround Qabs Qpower List String Ascii Bool Lia Lqa.
From Stdlib Require Import DecimalString.
Import ListNotations.

Set Implicit Arguments.
Set Warnings "-register-all".
Local Open Scope Z_scope.

(* ================================================================== *)
(** ** Paths, operations, the world and the monad                      *)
(* ================================================================== *)

(** File names the package builds.  [InWorkRate stem r] is
    [work_dir / f"{stem}_{r}.mp4"], [InWorkIdx stem i] is
    [work_dir / f"{stem}_{i}.mp4"], [Frame s] is
    [work_dir / "frames" / f"{s}.png"]. *)
Inductive path : Type :=
| External (name : string)
| InWork (name : string)
| InWorkRate (stem : string) (rate : Z)
| InWorkIdx (stem : string) (idx : nat)
| FrameDir
| Frame (sec : Z).

Definition path_eqb (p q : path) : bool :=
  match p, q with
  | External a, External b => String.eqb a b
  | InWork a, InWork b => String.eqb a b
  | InWorkRate a r, InWorkRate b r' => String.eqb a b && (r =? r')
  | InWorkIdx a i, InWorkIdx b i' => String.eqb a b && Nat.eqb i i'
  | FrameDir, FrameDir => true
  | Frame a, Frame b => a =? b
  | _, _ => false
  end.

(** models.py: VideoProbeInfo *)
Record VideoProbeInfo : Type := {
  duration : Q;
  width : Z;
  height : Z;
  time_base : Z;
  audio_sample_rate : string;
  audio_channel_layout : string;
  video_codec : string;
  audio_codec : string;
  pixel_format : string;
  container_format : string
}.

(** models.py: VideoSegmentData *)
Record VideoSegmentData : Type := {
  rates : list Z;
  durations : list Q;
  padded_durations : list Z
}.

(** One entry per wrapper of ffmpeg_utils.py, plus the file-system calls
    of joiner.py and montager.py and the final [canvas.save] of the
    montage (canvas size and the paste positions, in paste order). *)
Inductive op : Type :=
| Op_probe_video (src : path)
| Op_create_blank_audio (dest : path) (dur : Q) (layout rate : string)
| Op_extract_audio (src dest : path)
| Op_create_padded_audio (src dest pad : path)
| Op_create_fast_forward_audio (src dest : path) (doubling_count : Z)
| Op_create_time_padded_video (src dest : path) (dur : Z) (include_audio : bool)
| Op_create_fast_forward_video (src dest : path) (rate : Z) (tb : Z)
| Op_concatenate_media (files : list path) (target : path) (trim : option (list Z))
| Op_mux_video_audio (video audio dest : path)
| Op_extract_frame (video dest : path) (seconds : Z)
| Op_mkdir (p : path)
| Op_mkdir_parent (child : path)
| Op_move (src dst : path)
| Op_save_jpeg (dest : path) (grid_width grid_height : Z) (pastes : list (Z * Z)).

Inductive exn : Type :=
| ValueError
| ZeroDivisionError
| IndexError
| FileNotFoundError
| OSError
| MemoryError
| CalledProcessError.

Inductive outcome (A : Type) : Type :=
| Ok (a : A)
| Raise (e : exn)
| OutOfFuel.
Arguments Raise {A} e.
Arguments OutOfFuel {A}.

(** The observable state: the capability calls made so far (oldest
    first) and the frame files that currently exist. *)
Record world : Type := {
  calls : list op;
  files : list path
}.

Definition empty_world : world := {| calls := []; files := [] |}.

(** The answers of the outside world. *)
Record Capability : Type := {
  run_ok : op -> bool;                  (* does the tool exit with status 0;
                                           for [Op_save_jpeg], does Pillow write the file *)
  probe_of : path -> VideoProbeInfo;    (* what ffprobe reports for a file *)
  frame_written : Z -> bool;            (* does a seek to that second leave a file,
                                           whatever the exit status *)
  image_ok : path -> bool;              (* does Pillow open, resize and blur that file *)
  canvas_ok : Z -> Z -> bool            (* is there memory for a canvas of that size *)
}.

Definition M (A : Type) : Type := world -> outcome A * world.

Definition ret {A} (a : A) : M A := fun w => (Ok a, w).
Definition raise {A} (e : exn) : M A := fun w => (Raise e, w).
Definition out_of_fuel {A} : M A := fun w => (OutOfFuel, w).
Definition bind {A B} (m : M A) (k : A -> M B) : M B :=
  fun w => match m w with
           | (Ok a, w') => k a w'
           | (Raise e, w') => (Raise e, w')
           | (OutOfFuel, w') => (OutOfFuel, w')
           end.

Declare Scope monad_scope.
Delimit Scope monad_scope with monad.
Notation "x <- m ;; k" := (bind m (fun x => k))
  (at level 61, m at next level, right associativity) : monad_scope.
Notation "m ;;; k" := (bind m (fun _ => k))
  (at level 61, right associativity) : monad_scope.
Local Open Scope monad_scope.

Definition log_call (o : op) : M unit :=
  fun w => (Ok tt, {| calls := calls w ++ [o]; files := files w |}).

(** ffmpeg_utils.py: run_ffmpeg -- log the command, raise on a non-zero
    exit status. *)
Definition run_ffmpeg (cap : Capability) (o : op) : M unit :=
  log_call o ;;;
  if run_ok cap o then ret tt else raise CalledProcessError.

Section Wrappers.
Variable cap : Capability.

Definition probe_video (src : path) : M VideoProbeInfo :=
  run_ffmpeg cap (Op_probe_video src) ;;; ret (probe_of cap src).

Definition create_blank_audio (dest : path) (dur : Q) (layout rate : string) : M unit :=
  run_ffmpeg cap (Op_create_blank_audio dest dur layout rate).

Definition extract_audio (src dest : path) : M unit :=
  run_ffmpeg cap (Op_extract_audio src dest).

Definition create_padded_audio (src dest pad : path) : M unit :=
  run_ffmpeg cap (Op_create_padded_audio src dest pad).

Definition create_fast_forward_audio (src dest : path) (doubling_count : Z) : M unit :=
  run_ffmpeg cap (Op_create_fast_forward_audio src dest doubling_count).

Definition create_time_padded_video (src dest : path) (dur : Z) (include_audio : bool) : M unit :=
  run_ffmpeg cap (Op_create_time_padded_video src dest dur include_audio).

Definition create_fast_forward_video (src dest : path) (rate tb : Z) : M unit :=
  run_ffmpeg cap (Op_create_fast_forward_video src dest rate tb).

Definition concatenate_media (fs : list path) (target : path) (trim : option (list Z)) : M unit :=
  run_ffmpeg cap (Op_concatenate_media fs target trim).

Definition mux_video_audio (video audio dest : path) : M unit :=
  run_ffmpeg cap (Op_mux_video_audio video audio dest).

(** The file [dest] exists afterwards when the tool wrote a frame for
    that second (or when it existed before); a tool that fails may have
    written it all the same. *)
Definition extract_frame (video dest : path) (seconds : Z) : M unit :=
  let o := Op_extract_frame video dest seconds in
  log_call o ;;;
  (fun w => (Ok tt,
             {| calls := calls w;
                files := if frame_written cap seconds then dest :: files w
                         else files w |})) ;;;
  if run_ok cap o then ret tt else raise CalledProcessError.
End Wrappers.

(** The largest width or height the JPEG encoder behind Pillow writes. *)
Definition JPEG_ENCODER_LIMIT : Z := 65500.

(** Pillow's [Image.new("RGB", (grid_width, grid_height))]: the canvas
    is allocated at once, and [MemoryError] is raised when it cannot
    be. *)
Definition new_canvas (cap : Capability) (grid_width grid_height : Z) : M unit :=
  if canvas_ok cap grid_width grid_height then ret tt else raise MemoryError.

(** Pillow's [canvas.save(montage_path, "JPEG", ...)].  The encoder
    refuses a canvas above 65500 pixels on either axis, and the write
    can fail for reasons of its own; both surface as [OSError]. *)
Definition save_jpeg (cap : Capability) (dest : path) (grid_width grid_height : Z)
           (pastes : list (Z * Z)) : M unit :=
  let o := Op_save_jpeg dest grid_width grid_height pastes in
  log_call o ;;;
  if (grid_width <=? JPEG_ENCODER_LIMIT) && (grid_height <=? JPEG_ENCODER_LIMIT)
     && run_ok cap o
  then ret tt else raise OSError.

(** Pillow's [Image.open], [resize] and [filter] on a frame file. *)
Definition open_thumbnail (cap : Capability) (frame_path : path) : M unit :=
  if image_ok cap frame_path then ret tt else raise OSError.

Definition path_exists (p : path) : M bool :=
  fun w => (Ok (existsb (path_eqb p) (files w)), w).

Definition unlink (p : path) : M unit :=
  fun w => (Ok tt, {| calls := calls w;
                      files := filter (fun q => negb (path_eqb p q)) (files w) |}).

(* ================================================================== *)
(** ** Arithmetic helpers                                              *)
(* ================================================================== *)

(** [a > b] on rationals, as a boolean. *)
Definition Qgtb (a b : Q) : bool := negb (Qle_bool a b).

(** [int(math.ceil(d + padding_buffer))] *)
Definition fit (d : Q) (padding_buffer : Z) : Z :=
  Qceiling (d + inject_Z padding_buffer).

Definition sum_Z (l : list Z) : Z := fold_right Z.add 0 l.

(** Python's [round] on a float: to the nearest integer, ties to even. *)
Definition py_round (q : Q) : Z :=
  let f := Qfloor q in
  match ((q - inject_Z f) ?= (1 # 2))%Q with
  | Lt => f
  | Gt => f + 1
  | Eq => if Z.even f then f else f + 1
  end.

(* ================================================================== *)
(** ** IEEE 754 binary64                                               *)
(* ================================================================== *)

Definition pow2 (e : Z) : Q := (2 ^ e)%Q.

(** For [q > 0], the [e] with [2^e <= q < 2^(e+1)]. *)
Definition floor_log2 (q : Q) : Z :=
  let e0 := Z.log2 (Qnum q) - Z.log2 (Zpos (Qden q)) in
  if Qle_bool (pow2 e0) q then e0 else e0 - 1.

(** The exponent of the last of the 53 bits of the double nearest to
    [q]; [-1074] for the subnormal numbers. *)
Definition ulp_exponent (q : Q) : Z := Z.max (floor_log2 q - 52) (-1074).

(** Rounding of a positive real to 53 bits, ties to even. *)
Definition round_pos (q : Q) : Q :=
  let ex := ulp_exponent q in
  Qred (inject_Z (py_round (q / pow2 ex)) * pow2 ex).

(** The double nearest to [q], ties to even. *)
Definition round64 (q : Q) : Q :=
  match Qnum q with
  | Z0 => 0%Q
  | Zpos _ => round_pos q
  | Zneg _ => (- round_pos (- q))%Q
  end.

(** [float(z)], and [x + y], [x * y] on floats. *)
Definition float_of_int (z : Z) : Q := round64 (inject_Z z).
Definition fadd (x y : Q) : Q := round64 (x + y).
Definition fmul (x y : Q) : Q := round64 (x * y).

(** [math.sqrt(x)] for a float [x >= 0]: the double nearest to the
    square root, ties to even. *)
Definition fsqrt (x : Q) : Q :=
  if Qle_bool x 0 then 0%Q
  else let ex := Z.max (floor_log2 x / 2 - 52) (-1074) in
       let y := (x / pow2 (2 * ex))%Q in
       let m := Z.sqrt (Qfloor y) in
       let half := (inject_Z m + (1 # 2))%Q in
       let r := match (y ?= half * half)%Q with
                | Lt => m
                | Gt => m + 1
                | Eq => if Z.even m then m else m + 1
                end in
       Qred (inject_Z r * pow2 ex).

(** The values a double can take (the exponent is not bounded above). *)
Definition is_float64 (q : Q) : Prop :=
  exists m e : Z, Z.abs m < 2 ^ 53 /\ -1074 <= e /\ (q == inject_Z m * pow2 e)%Q.

(* ================================================================== *)
(** ** ffwd_video_maker.py                                             *)
(* ================================================================== *)

(** The variables the [while] loop reads and writes. *)
Record ffwd_state : Type := {
  st_rates : list Z;
  st_durations : list Q;
  st_padded : list Z;
  st_video_files : list path;
  st_audio_files : list path;
  st_doubling_count : Z;
  st_rate : Z;
  st_ffwd_duration : Q
}.

Section Ffwd.
Variable cap : Capability.
Variable video_src : path.
Variable probe_info : VideoProbeInfo.
Variable padding_buffer : Z.

(** One execution of the loop body (lines 113-141). *)
Definition ffwd_body (st : ffwd_state) : M ffwd_state :=
  let rate := st_rate st in
  let ffwd_video := InWorkRate "ffwd_video" rate in
  create_fast_forward_video cap video_src ffwd_video rate (time_base probe_info) ;;;
  ffwd_info <- probe_video cap ffwd_video ;;
  let ffwd_duration := duration ffwd_info in
  let ffwd_fit_duration := fit ffwd_duration padding_buffer in
  let ffwd_fit_video := InWorkRate "ffwd_video_fit" rate in
  create_time_padded_video cap ffwd_video ffwd_fit_video ffwd_fit_duration false ;;;
  let ffwd_audio := InWorkRate "ffwd_audio" rate in
  create_fast_forward_audio cap (InWork "src_audio.mp4") ffwd_audio (st_doubling_count st) ;;;
  let ffwd_audio_padded := InWorkRate "ffwd_audio_pad" rate in
  concatenate_media cap [ffwd_audio; InWork "blank_audio.mp4"] ffwd_audio_padded None ;;;
  let doubling_count := st_doubling_count st + 1 in
  ret {| st_rates := st_rates st ++ [rate];
         st_durations := st_durations st ++ [ffwd_duration];
         st_padded := st_padded st ++ [ffwd_fit_duration];
         st_video_files := st_video_files st ++ [ffwd_fit_video];
         st_audio_files := st_audio_files st ++ [ffwd_audio_padded];
         st_doubling_count := doubling_count;
         st_rate := 2 ^ doubling_count;
         st_ffwd_duration := ffwd_duration |}.

(** The loop variables after one execution of the body that raised
    nothing. *)
Definition ffwd_next (st : ffwd_state) : ffwd_state :=
  let rate := st_rate st in
  let ffwd_duration := duration (probe_of cap (InWorkRate "ffwd_video" rate)) in
  {| st_rates := st_rates st ++ [rate];
     st_durations := st_durations st ++ [ffwd_duration];
     st_padded := st_padded st ++ [fit ffwd_duration padding_buffer];
     st_video_files := st_video_files st ++ [InWorkRate "ffwd_video_fit" rate];
     st_audio_files := st_audio_files st ++ [InWorkRate "ffwd_audio_pad" rate];
     st_doubling_count := st_doubling_count st + 1;
     st_rate := 2 ^ (st_doubling_count st + 1);
     st_ffwd_duration := ffwd_duration |}.

(** The loop variables on entry to the loop (lines 101-110). *)
Definition ffwd_init : ffwd_state :=
  let video_duration := duration probe_info in
  {| st_rates := [1];
     st_durations := [video_duration];
     st_padded := [fit video_duration padding_buffer];
     st_video_files := [InWork "src_fit.mp4"];
     st_audio_files := [InWork "src_padded.mp4"];
     st_doubling_count := 1;
     st_rate := 2;
     st_ffwd_duration := video_duration |}.

(** What holds of the loop variables whenever the loop test is
    evaluated. *)
Record ffwd_inv (st : ffwd_state) : Prop := {
  inv_count : exists n : nat,
      st_doubling_count st = Z.of_nat (S n) /\
      st_rates st = map (fun k => 2 ^ Z.of_nat k) (seq 0 (S n));
  inv_rate : st_rate st = 2 ^ st_doubling_count st;
  inv_len_d : List.length (st_durations st) = List.length (st_rates st);
  inv_len_p : List.length (st_padded st) = List.length (st_rates st);
  inv_pad : 0 <= padding_buffer ->
            Forall2 (fun d p => Qceiling d <= p) (st_durations st) (st_padded st);
  inv_first : nth 0 (st_durations st) 0%Q = duration probe_info;
  inv_last : last (st_durations st) 0%Q = st_ffwd_duration st;
  inv_before : forall i, (S i < List.length (st_durations st))%nat ->
                         (1 < nth i (st_durations st) 0)%Q
}.

(** [while ffwd_duration > 1: body] *)
Fixpoint ffwd_loop (fuel : nat) (st : ffwd_state) : M ffwd_state :=
  if Qgtb (st_ffwd_duration st) 1 then
    match fuel with
    | O => out_of_fuel
    | S fuel' => st' <- ffwd_body st ;; ffwd_loop fuel' st'
    end
  else ret st.

Definition make_ffwd_concat_video (fuel : nat) (output_filename : string)
           (blank_audio_duration : Q) : M (VideoSegmentData * path) :=
  let video_duration := duration probe_info in
  let blank_audio := InWork "blank_audio.mp4" in
  create_blank_audio cap blank_audio blank_audio_duration
    (audio_channel_layout probe_info) (audio_sample_rate probe_info) ;;;
  let fit_duration := fit video_duration padding_buffer in
  let fit_video := InWork "src_fit.mp4" in
  create_time_padded_video cap video_src fit_video fit_duration false ;;;
  let padded_audio := InWork "src_padded.mp4" in
  create_padded_audio cap video_src padded_audio blank_audio ;;;
  let raw_audio := InWork "src_audio.mp4" in
  extract_audio cap video_src raw_audio ;;;
  st <- ffwd_loop fuel
          {| st_rates := [1];
             st_durations := [video_duration];
             st_padded := [fit_duration];
             st_video_files := [fit_video];
             st_audio_files := [padded_audio];
             st_doubling_count := 1;
             st_rate := 2;
             st_ffwd_duration := video_duration |} ;;
  let concat_video := InWork "final_video.mp4" in
  concatenate_media cap (st_video_files st) concat_video None ;;;
  let concat_audio := InWork "final_audio.mp4" in
  concatenate_media cap (st_audio_files st) concat_audio (Some (st_padded st)) ;;;
  let joined := InWork "final_join.mp4" in
  mux_video_audio cap concat_video concat_audio joined ;;;
  let total_duration := sum_Z (st_padded st) in
  let dest := InWork output_filename in
  create_time_padded_video cap joined dest total_duration true ;;;
  ret ({| rates := st_rates st;
          durations := st_durations st;
          padded_durations := st_padded st |}, dest).
End Ffwd.

(** A capability on which every tool succeeds and the re-probe of the
    [rate]-times sped-up copy reports [source_duration / rate]. *)
Definition blank_probe (d : Q) : VideoProbeInfo :=
  {| duration := d; width := 1920; height := 1080; time_base := 90000;
     audio_sample_rate := "48000"; audio_channel_layout := "stereo";
     video_codec := "h264"; audio_codec := "aac";
     pixel_format := "yuv420p"; container_format := "mov,mp4,m4a,3gp,3g2,mj2" |}.

Definition ideal_cap (source_duration : Q) : Capability :=
  {| run_ok := fun _ => true;
     probe_of := fun p =>
       match p with
       | InWorkRate _ rate => blank_probe (source_duration / inject_Z rate)
       | _ => blank_probe source_duration
       end;
     frame_written := fun _ => true;
     image_ok := fun _ => true;
     canvas_ok := fun _ _ => true |}.


Definition ffwd_result (fuel : nat) (d : Q) (padding_buffer : Z)
  : outcome (VideoSegmentData * path) :=
  fst (make_ffwd_concat_video (ideal_cap d) (External "in.mp4") (blank_probe d)
         padding_buffer fuel "out.mp4" 5 empty_world).


(* ================================================================== *)
(** ** joiner.py                                                       *)
(* ================================================================== *)

Section Joiner.
Variable cap : Capability.
Variable padding_buffer : Z.

(** [for idx, src in enumerate(video_files)] with the three
    accumulators (lines 83-98). *)
Fixpoint join_loop (idx : nat) (video_files : list path)
         (acc : list Z * list path * list path)
  : M (list Z * list path * list path) :=
  match video_files with
  | [] => ret acc
  | src :: rest =>
      let '(padded, padded_videos, padded_audios) := acc in
      info <- probe_video cap src ;;
      let fit_duration := fit (duration info) padding_buffer in
      let fit_video := InWorkIdx "join_video" idx in
      create_time_padded_video cap src fit_video fit_duration false ;;;
      let fit_audio := InWorkIdx "join_audio" idx in
      create_padded_audio cap src fit_audio (InWork "blank_audio.mp4") ;;;
      join_loop (S idx) rest
        (padded ++ [fit_duration], padded_videos ++ [fit_video],
         padded_audios ++ [fit_audio])
  end.

Definition join_videos (video_files : list path) (export_file : path)
           (blank_audio_duration : Q) : M (list Z) :=
  match video_files with
  | [] => raise ValueError
  | first :: _ =>
      first_info <- probe_video cap first ;;
      let blank_audio := InWork "blank_audio.mp4" in
      create_blank_audio cap blank_audio blank_audio_duration
        (audio_channel_layout first_info) (audio_sample_rate first_info) ;;;
      acc <- join_loop 0 video_files ([], [], []) ;;
      let '(padded, padded_videos, padded_audios) := acc in
      let concat_video := InWork "join_concat_video.mp4" in
      concatenate_media cap padded_videos concat_video None ;;;
      let concat_audio := InWork "join_concat_audio.mp4" in
      concatenate_media cap padded_audios concat_audio (Some padded) ;;;
      let joined := InWork "join_muxed.mp4" in
      mux_video_audio cap concat_video concat_audio joined ;;;
      let total_duration := sum_Z padded in
      let final := InWork "join_final.mp4" in
      create_time_padded_video cap joined final total_duration true ;;;
      log_call (Op_mkdir_parent export_file) ;;;
      log_call (Op_move final export_file) ;;;
      ret padded
  end.
End Joiner.

(* ================================================================== *)
(** ** montager.py                                                     *)
(* ================================================================== *)

(** models.py: MontageData *)
Record MontageData : Type := {
  thumb_width : Z;
  thumb_height : Z;
  columns : Z;
  thumb_count : Z
}.

Definition MAX_JPEG_DIMENSION : Z := 65500.

(** [int(math.ceil(math.sqrt(q)))] for a float [q >= 0]. *)
Definition ceil_sqrt (q : Q) : Z := Qceiling (fsqrt q).

(** [a / b] on Python ints: true division, the quotient rounded once to
    the nearest double, raising on a zero divisor. *)
Definition true_div (a b : Z) : outcome Q :=
  if b =? 0 then Raise ZeroDivisionError
  else Ok (round64 (inject_Z a / inject_Z b)).

(** [a // b] on Python ints. *)
Definition floor_div (a b : Z) : outcome Z :=
  if b =? 0 then Raise ZeroDivisionError else Ok (a / b).

Definition obind {A B} (o : outcome A) (k : A -> outcome B) : outcome B :=
  match o with
  | Ok a => k a
  | Raise e => Raise e
  | OutOfFuel => OutOfFuel
  end.

Definition lift {A} (o : outcome A) : M A := fun w => (o, w).

Notation "'letE' x ':=' o 'in' k" := (obind o (fun x => k))
  (at level 10, x name, o at level 100, k at level 200).

(** Everything [make_montage] computes before it touches a file
    (lines 53-71). *)
Record layout : Type := {
  ly_total_seconds : Z;
  ly_thumb_height : Z;
  ly_thumb_count : Z;
  ly_cols : Z;
  ly_rows : Z
}.

Definition montage_layout (probe_info : VideoProbeInfo)
           (thumb_width max_jpeg_dimension : Z) : outcome layout :=
  let video_duration := duration probe_info in
  let total_seconds := Qfloor video_duration in
  letE aspect := true_div (height probe_info) (width probe_info) in
  let thumb_height := Z.max 1 (py_round (fmul (float_of_int thumb_width) aspect)) in
  letE max_fit_w := floor_div max_jpeg_dimension thumb_width in
  letE max_fit_h := floor_div max_jpeg_dimension thumb_height in
  let thumb_count := Z.min total_seconds (max_fit_w * max_fit_h) in
  letE ratio := true_div thumb_width thumb_height in
  let stacks_per_row := Z.max 1 (Qfloor ratio) in
  letE per_row := true_div thumb_count stacks_per_row in
  if Qgtb 0 per_row then Raise ValueError else
  let sqr := ceil_sqrt per_row in
  let cols := sqr in
  letE q := true_div thumb_count cols in
  let rows := Qceiling q + 1 in
  Ok {| ly_total_seconds := total_seconds;
        ly_thumb_height := thumb_height;
        ly_thumb_count := thumb_count;
        ly_cols := cols;
        ly_rows := rows |}.

(** [int(round((i / thumb_count) * total_seconds)) if thumb_count else 0]:
    the quotient of the two ints is rounded to a double, [total_seconds]
    is converted to a double, and their product is rounded again. *)
Definition sample_second (thumb_count total_seconds i : Z) : Z :=
  if thumb_count =? 0 then 0
  else py_round (fmul (round64 (inject_Z i / inject_Z thumb_count))
                      (float_of_int total_seconds)).

(** [range(n)] *)
Definition range (n : Z) : list Z := map Z.of_nat (seq 0 (Z.to_nat n)).

Section Montage.
Variable cap : Capability.
Variable video_file : path.

(** One iteration of the sampling loop (lines 85-108); the list of
    thumbnails is the list of the seconds whose frame was kept. *)
Definition sample_frame (thumb_count total_seconds : Z)
           (thumbnails : list Z) (i : Z) : M (list Z) :=
  let sec := sample_second thumb_count total_seconds i in
  let frame_path := Frame sec in
  extract_frame cap video_file frame_path sec ;;;
  present <- path_exists frame_path ;;
  (if negb present && (0 <? sec)
   then extract_frame cap video_file frame_path (sec - 1)
   else ret tt) ;;;
  present' <- path_exists frame_path ;;
  if negb present' then ret thumbnails
  else open_thumbnail cap frame_path ;;;
       unlink frame_path ;;; ret (thumbnails ++ [sec]).

Fixpoint sample_loop (thumb_count total_seconds : Z)
         (indices : list Z) (thumbnails : list Z) : M (list Z) :=
  match indices with
  | [] => ret thumbnails
  | i :: rest =>
      thumbnails' <- sample_frame thumb_count total_seconds thumbnails i ;;
      sample_loop thumb_count total_seconds rest thumbnails'
  end.

(** Where [canvas.paste] puts the thumbnail with running index [idx]. *)
Definition paste_position (cols thumb_width thumb_height : Z) (idx : nat) : Z * Z :=
  ((Z.of_nat idx mod cols) * thumb_width, (Z.of_nat idx / cols) * thumb_height).

Definition make_montage (probe_info : VideoProbeInfo)
           (thumb_width max_jpeg_dimension : Z) : M (MontageData * path) :=
  ly <- lift (montage_layout probe_info thumb_width max_jpeg_dimension) ;;
  log_call (Op_mkdir FrameDir) ;;;
  thumbnails <- sample_loop (ly_thumb_count ly) (ly_total_seconds ly)
                  (range (ly_thumb_count ly + 1)) [] ;;
  let grid_width := ly_cols ly * thumb_width in
  let grid_height := ly_rows ly * ly_thumb_height ly in
  new_canvas cap grid_width grid_height ;;;
  let montage_path := InWork "montage.jpg" in
  save_jpeg cap montage_path grid_width grid_height
    (map (paste_position (ly_cols ly) thumb_width (ly_thumb_height ly))
         (seq 0 (List.length thumbnails))) ;;;
  ret ({| thumb_width := thumb_width;
          thumb_height := ly_thumb_height ly;
          columns := ly_cols ly;
          thumb_count := ly_thumb_count ly |}, montage_path).
End Montage.

(* ================================================================== *)
(** ** chapterer.py                                                    *)
(* ================================================================== *)

(** models.py: ChapterEntry *)
Record ChapterEntry : Type := {
  title : string;
  start_seconds : Q
}.

Definition newline : ascii := "010"%char.

(** The lines successive [f.readline()] calls return, on the text as
    Python's text mode delivers it (line ends already ["\n"]): each keeps its
    terminating newline, the last one has none when the file does not
    end with one, and past the end of the file every call returns the
    empty string (the list is over). *)
Fixpoint readlines (content : string) : list string :=
  match content with
  | EmptyString => []
  | String c rest =>
      if Ascii.eqb c newline then String c EmptyString :: readlines rest
      else match readlines rest with
           | [] => [String c EmptyString]
           | l :: ls => String c l :: ls
           end
  end.

(** Whitespace of [str.strip()] among the code points 0..255: the
    ASCII control and space characters, U+0085 and U+00A0. *)
Definition is_space (c : ascii) : bool :=
  let n := nat_of_ascii c in
  ((9 <=? n) && (n <=? 13) || (28 <=? n) && (n <=? 32)
   || (n =? 133) || (n =? 160))%nat.

Fixpoint lstrip (s : string) : string :=
  match s with
  | EmptyString => EmptyString
  | String c rest => if is_space c then lstrip rest else s
  end.

Fixpoint rstrip (s : string) : string :=
  match s with
  | EmptyString => EmptyString
  | String c rest =>
      match rstrip rest with
      | EmptyString => if is_space c then EmptyString else String c EmptyString
      | r => String c r
      end
  end.

Definition strip (s : string) : string := lstrip (rstrip s).

(** [s.split("=", 1)[1]]: what follows the first ["="]. *)
Fixpoint after_equals (s : string) : outcome string :=
  match s with
  | EmptyString => Raise IndexError
  | String c rest => if Ascii.eqb c "="%char then Ok rest else after_equals rest
  end.

Definition digit_of (c : ascii) : option Z :=
  let n := nat_of_ascii c in
  if ((48 <=? n) && (n <=? 57))%nat then Some (Z.of_nat n - 48) else None.

(** Read a non-empty run of at most [n] decimal digits: the digits read
    (most significant first) and the rest of the input. *)
Fixpoint take_digits (n : nat) (s : string) : list Z * string :=
  match n, s with
  | S n', String c rest =>
      match digit_of c with
      | Some d => let '(ds, r) := take_digits n' rest in (d :: ds, r)
      | None => ([], s)
      end
  | _, _ => ([], s)
  end.

Definition number_of (ds : list Z) : Z := fold_left (fun acc d => 10 * acc + d) ds 0.

(** A one- or two-digit field not above [bound]. *)
Definition field (bound : Z) (s : string) : outcome (Z * string) :=
  match take_digits 2 s with
  | ([], _) => Raise ValueError
  | (ds, r) => if number_of ds <=? bound then Ok (number_of ds, r) else Raise ValueError
  end.

Definition expect (c : ascii) (s : string) : outcome string :=
  match s with
  | String c' rest => if Ascii.eqb c c' then Ok rest else Raise ValueError
  | EmptyString => Raise ValueError
  end.

(** The value of [%f]: one to six digits, padded with zeros on the right. *)
Definition fraction (s : string) : outcome (Z * string) :=
  match take_digits 6 s with
  | ([], _) => Raise ValueError
  | (ds, r) => Ok (number_of ds * 10 ^ (6 - Z.of_nat (List.length ds)), r)
  end.

(** The time of day [datetime.datetime.strptime(s, "%H:%M:%S.%f")]
    yields. *)
Record time_of_day : Type := {
  hour : Z;
  minute : Z;
  second : Z;
  microsecond : Z
}.

Definition strptime (s : string) : outcome time_of_day :=
  letE hr := field 23 s in
  letE r1 := expect ":"%char (snd hr) in
  letE mr := field 59 r1 in
  letE r2 := expect ":"%char (snd mr) in
  letE sr := field 59 r2 in
  letE r3 := expect "."%char (snd sr) in
  letE fr := fraction r3 in
  match snd fr with
  | EmptyString =>
      Ok {| hour := fst hr; minute := fst mr; second := fst sr; microsecond := fst fr |}
  | _ => Raise ValueError
  end.

(** Lines 48-58: one START/TITLE pair. *)
Definition parse_entry (time_line title_line : string) : outcome ChapterEntry :=
  letE time_str := after_equals (strip time_line) in
  letE title := after_equals (strip title_line) in
  letE t := strptime time_str in
  let seconds :=
    fadd (float_of_int (hour t * 3600 + minute t * 60 + second t))
         (round64 (inject_Z (microsecond t) / 1000000)) in
  Ok {| title := title; start_seconds := seconds |}.

(** The [while True] loop over the lines still unread. *)
Fixpoint parse_lines (lines : list string) (chapters : list ChapterEntry)
  : outcome (list ChapterEntry) :=
  match lines with
  | [] => Ok chapters                       (* [if not time_line: break] *)
  | time_line :: rest =>
      match rest with
      | [] => Ok chapters                   (* [if not title_line: break] *)
      | title_line :: rest' =>
          letE entry := parse_entry time_line title_line in
          parse_lines rest' (chapters ++ [entry])
      end
  end.

(** [chapter_file] is the text of the file, or [None] when there is no
    such file. *)
Definition parse_chapters (chapter_file : option string) : outcome (list ChapterEntry) :=
  match chapter_file with
  | None => Raise FileNotFoundError
  | Some content => parse_lines (readlines content) []
  end.

(* ================================================================== *)
(** ** models.py: serialisation                                        *)
(* ================================================================== *)

(** What [json.dumps] is handed: dicts keep their insertion order. *)
Inductive json : Type :=
| JNone
| JStr (s : string)
| JInt (z : Z)
| JFloat (q : Q)
| JList (l : list json)
| JDict (kv : list (string * json)).

(** [d[k] = v] *)
Fixpoint dict_set (d : list (string * json)) (k : string) (v : json)
  : list (string * json) :=
  match d with
  | [] => [(k, v)]
  | (k', v') :: rest =>
      if String.eqb k k' then (k, v) :: rest else (k', v') :: dict_set rest k v
  end.

Fixpoint dict_get (d : list (string * json)) (k : string) : option json :=
  match d with
  | [] => None
  | (k', v) :: rest => if String.eqb k k' then Some v else dict_get rest k
  end.

Definition VideoSegmentData_to_dict (v : VideoSegmentData) : json :=
  JDict [("R", JList (map JInt (rates v)));
         ("D", JList (map JFloat (durations v)));
         ("X", JList (map JInt (padded_durations v)))]%string.

Definition MontageData_to_dict (m : MontageData) : json :=
  JDict [("W", JInt (thumb_width m));
         ("H", JInt (thumb_height m));
         ("B", JInt (columns m));
         ("N", JInt (thumb_count m))]%string.

Definition ChapterEntry_to_list (c : ChapterEntry) : json :=
  JList [JStr (title c); JFloat (start_seconds c)].

(** models.py: VideoMetadata *)
Record VideoMetadata : Type := {
  video_id : string;
  video_data : option VideoSegmentData;
  montage_data : option MontageData;
  chapters : option (list ChapterEntry)
}.

Definition to_dict (md : VideoMetadata) : list (string * json) :=
  let result := [("I"%string, JStr (video_id md))] in
  let result :=
    match video_data md with
    | Some v => dict_set result "V" (VideoSegmentData_to_dict v)
    | None => result
    end in
  let result :=
    match montage_data md with
    | Some m => dict_set result "M" (MontageData_to_dict m)
    | None => result
    end in
  let result :=
    match chapters md with
    | Some (c :: cs) => dict_set result "C" (JList (map ChapterEntry_to_list (c :: cs)))
    | _ => result                            (* [None] and [[]] are both falsy *)
    end in
  result.

(* ================================================================== *)
(** ** Vocabulary of the statements                                    *)
(* ================================================================== *)

(** Enough fuel for a source of duration [d]. *)
Definition enough_fuel (d : Q) : nat := Z.to_nat (Qceiling d).

(** The metadata of the 9.3-second scenario. *)
Definition scenario_data : VideoSegmentData :=
  {| rates := [1; 2; 4; 8; 16];
     durations := [93 # 10; 93 # 20; 93 # 40; 93 # 80; 93 # 160]%Q;
     padded_durations := [11; 6; 4; 3; 2] |}.

(** The calls of one iteration of the sampling loop: the extraction at
    its second [sec] into [frames/{sec}.png] and, when the iteration
    retried, the second extraction, one second earlier, into the same
    file. *)
Definition iteration_calls (video_file : path) (sec : Z) (retry : bool) : list op :=
  Op_extract_frame video_file (Frame sec) sec
  :: (if retry then [Op_extract_frame video_file (Frame sec) (sec - 1)] else []).

(** The calls of the iterations of [indices], in order, given which of
    them retried. *)
Definition sampling_calls (video_file : path) (thumb_count total_seconds : Z)
           (indices : list Z) (retries : list bool) : list op :=
  flat_map (fun ir => iteration_calls video_file
                        (sample_second thumb_count total_seconds (fst ir)) (snd ir))
           (combine indices retries).


(** [f"{n:0{k}d}"] for a natural number below [10^k]. *)
Definition digit_char (d : Z) : ascii := ascii_of_nat (Z.to_nat (48 + d)).

Fixpoint digits_of (k : nat) (n : Z) : list Z :=
  match k with
  | O => []
  | S k' => digits_of k' (n / 10) ++ [n mod 10]
  end.

Fixpoint show_digits (ds : list Z) : string :=
  match ds with
  | [] => EmptyString
  | d :: rest => String (digit_char d) (show_digits rest)
  end.

Definition zero_padded (k : nat) (n : Z) : string := show_digits (digits_of k n).

(** The text [HH:MM:SS.ffffff] of a time of day. *)
Definition format_time (h m s us : Z) : string :=
  (zero_padded 2 h ++ ":" ++ zero_padded 2 m ++ ":" ++ zero_padded 2 s
   ++ "." ++ zero_padded 6 us)%string.

Definition nl : string := String newline EmptyString.

Fixpoint no_newline (s : string) : bool :=
  match s with
  | EmptyString => true
  | String c rest => negb (Ascii.eqb c newline) && no_newline rest
  end.

(** The text is empty or ends with a newline. *)
Fixpoint complete_lines (s : string) : bool :=
  match s with
  | EmptyString => true
  | String c EmptyString => Ascii.eqb c newline
  | String _ rest => complete_lines rest
  end.

Fixpoint ends_nonspace (s : string) : bool :=
  match s with
  | EmptyString => false
  | String c EmptyString => negb (is_space c)
  | String _ rest => ends_nonspace rest
  end.

Definition is_digit_value (d : Z) : Prop := 0 <= d <= 9.

(** The chapter file of the regression check. *)
Definition regression_file : string :=
  ("START=00:13:00.150000" ++ nl ++ "TITLE=X" ++ nl)%string.

(** A chapter file cut off after a START line. *)
Definition truncated_file : string :=
  ("START=00:09:00.368000" ++ nl ++ "TITLE=Sycamore Grove" ++ nl
   ++ "START=00:13:00.150000" ++ nl)%string.

(* ================================================================== *)
(** ** Further vocabulary: call logs of the joiner and the builder     *)
(* ================================================================== *)

(** What the joiner's loop does for the input of index [idx]. *)
Definition join_item_calls (cap : Capability) (padding_buffer : Z)
           (item : nat * path) : list op :=
  let '(idx, src) := item in
  [Op_probe_video src;
   Op_create_time_padded_video src (InWorkIdx "join_video" idx)
     (fit (duration (probe_of cap src)) padding_buffer) false;
   Op_create_padded_audio src (InWorkIdx "join_audio" idx) (InWork "blank_audio.mp4")].

(** [enumerate(l)] counting from [start]. *)
Definition enumerate_from {A : Type} (start : nat) (l : list A) : list (nat * A) :=
  combine (seq start (List.length l)) l.

(** What one execution of the builder's loop body does for doubling
    count [k] (rate [2^k]). *)
Definition ffwd_segment_calls (cap : Capability) (video_src : path)
           (probe_info : VideoProbeInfo) (padding_buffer : Z) (k : nat) : list op :=
  let rate := 2 ^ Z.of_nat k in
  [Op_create_fast_forward_video video_src (InWorkRate "ffwd_video" rate) rate
     (time_base probe_info);
   Op_probe_video (InWorkRate "ffwd_video" rate);
   Op_create_time_padded_video (InWorkRate "ffwd_video" rate)
     (InWorkRate "ffwd_video_fit" rate)
     (fit (duration (probe_of cap (InWorkRate "ffwd_video" rate))) padding_buffer) false;
   Op_create_fast_forward_audio (InWork "src_audio.mp4") (InWorkRate "ffwd_audio" rate)
     (Z.of_nat k);
   Op_concatenate_media [InWorkRate "ffwd_audio" rate; InWork "blank_audio.mp4"]
     (InWorkRate "ffwd_audio_pad" rate) None].

(** The four calls before the loop. *)
Definition ffwd_setup_calls (video_src : path) (probe_info : VideoProbeInfo)
           (padding_buffer : Z) (blank_audio_duration : Q) : list op :=
  [Op_create_blank_audio (InWork "blank_audio.mp4") blank_audio_duration
     (audio_channel_layout probe_info) (audio_sample_rate probe_info);
   Op_create_time_padded_video video_src (InWork "src_fit.mp4")
     (fit (duration probe_info) padding_buffer) false;
   Op_create_padded_audio video_src (InWork "src_padded.mp4") (InWork "blank_audio.mp4");
   Op_extract_audio video_src (InWork "src_audio.mp4")].

(** The four calls after the loop, for [n] sped-up segments. *)
Definition ffwd_finish_calls (n : nat) (padded : list Z) (output_filename : string)
  : list op :=
  [Op_concatenate_media
     (InWork "src_fit.mp4"
      :: map (fun k => InWorkRate "ffwd_video_fit" (2 ^ Z.of_nat k)) (seq 1 n))
     (InWork "final_video.mp4") None;
   Op_concatenate_media
     (InWork "src_padded.mp4"
      :: map (fun k => InWorkRate "ffwd_audio_pad" (2 ^ Z.of_nat k)) (seq 1 n))
     (InWork "final_audio.mp4") (Some padded);
   Op_mux_video_audio (InWork "final_video.mp4") (InWork "final_audio.mp4")
     (InWork "final_join.mp4");
   Op_create_time_padded_video (InWork "final_join.mp4") (InWork output_filename)
     (sum_Z padded) true].

(** No file of the frames directory is among [l]. *)
Definition no_frame_files (l : list path) : Prop :=
  forall s, existsb (path_eqb (Frame s)) l = false.

(** A paste at [(x, y)] of a [w] by [h] thumbnail lies inside a canvas
    of [grid_width] by [grid_height] pixels. *)
Definition inside_canvas (w h grid_width grid_height : Z) (xy : Z * Z) : Prop :=
  0 <= fst xy /\ fst xy + w <= grid_width /\ 0 <= snd xy /\ snd xy + h <= grid_height.

(** The last call of a log, if any. *)
Definition last_call (tr : list op) : option op :=
  match rev tr with
  | [] => None
  | o :: _ => Some o
  end.

(* ================================================================== *)
(** ** Further vocabulary: chapter files as text                       *)
(* ================================================================== *)

(** A chapter as it is written in a file: the four time fields and the
    text after [TITLE=]. *)
Record written_chapter : Type := {
  wc_hour : Z;
  wc_minute : Z;
  wc_second : Z;
  wc_microsecond : Z;
  wc_text : string
}.

Definition well_written (c : written_chapter) : Prop :=
  0 <= wc_hour c <= 23 /\ 0 <= wc_minute c <= 59 /\ 0 <= wc_second c <= 59 /\
  0 <= wc_microsecond c <= 999999 /\ no_newline (wc_text c) = true.

Definition time_line_of (c : written_chapter) : string :=
  ("START=" ++ format_time (wc_hour c) (wc_minute c) (wc_second c) (wc_microsecond c))%string.

Definition title_line_of (c : written_chapter) : string :=
  ("TITLE=" ++ wc_text c)%string.

(** The two lines of a chapter, each ended by a newline. *)
Definition write_pair (c : written_chapter) : string :=
  (time_line_of c ++ String newline (title_line_of c ++ String newline EmptyString))%string.

Fixpoint write_file (cs : list written_chapter) : string :=
  match cs with
  | [] => EmptyString
  | c :: rest => (write_pair c ++ write_file rest)%string
  end.

(** The entry a written chapter stands for. *)
Definition entry_of (c : written_chapter) : ChapterEntry :=
  {| title := rstrip (wc_text c);
     start_seconds :=
       fadd (float_of_int (wc_hour c * 3600 + wc_minute c * 60 + wc_second c))
            (round64 (inject_Z (wc_microsecond c) / 1000000)) |}.

Fixpoint has_equals (s : string) : bool :=
  match s with
  | EmptyString => false
  | String c rest => Ascii.eqb c "="%char || has_equals rest
  end.

(* ================================================================== *)
(** ** ffmpeg_utils.py: the time code of a frame                       *)
(* ================================================================== *)

(** [str(n)] for a Python int. *)
Definition py_str_int (n : Z) : string := NilZero.string_of_int (Z.to_int n).

(** [f"{n:02d}"]: at least two characters, zero-filled after the sign. *)
Definition format_02d (n : Z) : string :=
  let s := py_str_int n in
  if (String.length s <? 2)%nat then String "0" s else s.

(** ffmpeg_utils.py: _secs_to_timecode *)
Definition secs_to_timecode (s : Z) : string :=
  let hours := s / 3600 in
  let minutes := (s mod 3600) / 60 in
  let secs := s mod 60 in
  (format_02d hours ++ ":" ++ format_02d minutes ++ ":" ++ format_02d secs)%string.

(** What [make_montage] may ask of the outside world for a video of
    [total_seconds] whole seconds: the frames directory, a frame of
    [video_file] at a second of the video written to the frame file of
    that second or of the next one, and the final save. *)
Definition montage_call_ok (video_file : path) (total_seconds : Z) (o : op) : Prop :=
  match o with
  | Op_mkdir FrameDir => True
  | Op_extract_frame v dest s =>
      v = video_file /\ 0 <= s <= total_seconds /\
      (dest = Frame s \/ dest = Frame (s + 1))
  | Op_save_jpeg dest _ _ _ => dest = InWork "montage.jpg"
  | _ => False
  end.

(* ================================================================== *)
(** ** models.py: is_web_compatible; ffmpeg_utils.py: normalize_for_web *)
(* ================================================================== *)

(** [p] is a prefix of [s]. *)
Fixpoint starts_with (p s : string) : bool :=
  match p, s with
  | EmptyString, _ => true
  | String a p', String b s' => Ascii.eqb a b && starts_with p' s'
  | String _ _, EmptyString => false
  end.

(** [needle in hay] on Python strings. *)
Fixpoint contains (needle hay : string) : bool :=
  match hay with
  | EmptyString => starts_with needle EmptyString
  | String _ rest => starts_with needle hay || contains needle rest
  end.

(** models.py: VideoProbeInfo.is_web_compatible *)
Definition is_web_compatible (info : VideoProbeInfo) : bool :=
  let h264_ok := String.eqb (video_codec info) "h264" in
  let aac_ok := String.eqb (audio_codec info) "aac" || String.eqb (audio_codec info) "none" in
  let pix_ok := String.eqb (pixel_format info) "yuv420p" in
  let container_ok :=
    existsb (fun tag => contains tag (container_format info)) ["mp4"; "mov"; "m4a"]%string in
  h264_ok && aac_ok && pix_ok && container_ok.

(** The two command lines of [normalize_for_web]. *)
Inductive normalize_mode : Type :=
| Remux                       (* -c:v copy -c:a copy *)
| Transcode (crf : Z).        (* -c:v libx264 -crf <crf> -pix_fmt yuv420p -c:a aac *)

Definition normalize_mode_of (info : VideoProbeInfo) (crf : Z) : normalize_mode :=
  if is_web_compatible info then Remux else Transcode crf.

(* ================================================================== *)
(** ** video_prep/handler.py: the orchestrator                         *)
(* ================================================================== *)

(** models.py: VideoProcessingConfig, with the types of its
    annotations and the defaults of its fields. *)
Record VideoProcessingConfig : Type := {
  video_file : path;
  cfg_video_id : string;
  export_dir : path;
  chapter_file : option path;
  thumbnail_width : Z;
  jpeg_quality : Z;
  blur_sigma : Q;
  blank_audio_duration : Q;
  padding_buffer_seconds : Z;
  web_crf : Z
}.

(** A path below a caller's directory: [dir / rel]. *)
Inductive hpath : Type :=
| Plain (p : path)
| Under (dir : path) (rel : string).

(** What the orchestrator does, in order.  The calls of the pipeline
    functions it runs appear as [Ev_tool]. *)
Inductive hevent : Type :=
| Ev_check_dependencies
| Ev_mkdir (p : hpath)
| Ev_tool (o : op)
| Ev_normalize (src dest : path) (mode : normalize_mode)
| Ev_move (src : path) (dst : hpath)
| Ev_write_text (p : hpath) (content : list (string * json))
| Ev_tmp_removed.

Inductive hexn : Type :=
| Pipeline (e : exn)
| RuntimeError.

Inductive houtcome (A : Type) : Type :=
| Done (a : A)
| Failed (e : hexn)
| Unfinished.
Arguments Failed {A} e.
Arguments Unfinished {A}.

(** The answers of the machine the orchestrator runs on. *)
Record Host : Type := {
  host_cap : Capability;
  deps_present : bool;              (* ffmpeg and ffprobe answer -version *)
  on_disk : path -> bool;           (* Path.exists() *)
  text_of : path -> string;         (* the text of a file that exists *)
  normalize_ok : bool               (* the normalising ffmpeg exits with status 0 *)
}.

Record hworld : Type := {
  hw_log : list hevent;
  hw_frames : list path
}.

Definition H (A : Type) : Type := hworld -> houtcome A * hworld.

Definition hret {A} (a : A) : H A := fun hw => (Done a, hw).
Definition hraise {A} (e : hexn) : H A := fun hw => (Failed e, hw).
Definition hbind {A B} (m : H A) (k : A -> H B) : H B :=
  fun hw => match m hw with
            | (Done a, hw') => k a hw'
            | (Failed e, hw') => (Failed e, hw')
            | (Unfinished, hw') => (Unfinished, hw')
            end.

Notation "x <~ m ;; k" := (hbind m (fun x => k))
  (at level 61, m at next level, right associativity) : monad_scope.
Notation "m ;;~ k" := (hbind m (fun _ => k))
  (at level 61, right associativity) : monad_scope.

Definition hlog (e : hevent) : H unit :=
  fun hw => (Done tt, {| hw_log := hw_log hw ++ [e]; hw_frames := hw_frames hw |}).

(** Run a pipeline function: its calls are appended to the log in
    order, its frame files are those of the working directory. *)
Definition run_pipeline {A} (m : M A) : H A :=
  fun hw =>
    let '(r, w') := m {| calls := []; files := hw_frames hw |} in
    let hw' := {| hw_log := hw_log hw ++ map Ev_tool (calls w');
                  hw_frames := files w' |} in
    match r with
    | Ok a => (Done a, hw')
    | Raise e => (Failed (Pipeline e), hw')
    | OutOfFuel => (Unfinished, hw')
    end.

(** [with tempfile.TemporaryDirectory() as tmp: body] -- the directory
    is removed when the block is left, by return or by exception. *)
Definition with_temporary_directory {A} (body : H A) : H A :=
  fun hw =>
    let '(r, hw') := body hw in
    (r, {| hw_log := hw_log hw' ++ [Ev_tmp_removed]; hw_frames := [] |}).

Section Orchestrator.
Variable host : Host.

(** ffmpeg_utils.py: check_dependencies *)
Definition check_dependencies : H unit :=
  hlog Ev_check_dependencies ;;~
  if deps_present host then hret tt else hraise RuntimeError.

(** ffmpeg_utils.py: normalize_for_web *)
Definition normalize_for_web (src dest : path) (probe_info : VideoProbeInfo) (crf : Z)
  : H path :=
  hlog (Ev_normalize src dest (normalize_mode_of probe_info crf)) ;;~
  if normalize_ok host then hret dest else hraise (Pipeline CalledProcessError).

(** handler.py: _normalize_source *)
Definition normalize_source (video : path) (probe_info : VideoProbeInfo) (crf : Z) : H path :=
  let normalized := InWork "normalized.mp4" in
  normalize_for_web video normalized probe_info crf ;;~
  hret normalized.

Definition avd_path (dir : path) (video_id : string) : hpath :=
  Under dir (video_id ++ ".avd").

(** handler.py: process_video *)
Definition process_video (fuel : nat) (config : VideoProcessingConfig) : H VideoMetadata :=
  check_dependencies ;;~
  (if on_disk host (video_file config) then hret tt
   else hraise (Pipeline FileNotFoundError)) ;;~
  hlog (Ev_mkdir (Plain (export_dir config))) ;;~
  probe_info <~ run_pipeline (probe_video (host_cap host) (video_file config)) ;;
  media <~ with_temporary_directory (
    normalized_video <~ normalize_source (video_file config) probe_info (web_crf config) ;;
    probe_info <~ run_pipeline (probe_video (host_cap host) normalized_video) ;;
    ffwd <~ run_pipeline
              (make_ffwd_concat_video (host_cap host) normalized_video probe_info
                 (padding_buffer_seconds config) fuel "video.mp4"
                 (blank_audio_duration config)) ;;
    let '(video_data, video_path) := ffwd in
    hlog (Ev_mkdir (Under (export_dir config) "video")) ;;~
    hlog (Ev_move video_path (Under (export_dir config) "video/video.mp4")) ;;~
    montage <~ run_pipeline
                 (make_montage (host_cap host) normalized_video probe_info
                    (thumbnail_width config) MAX_JPEG_DIMENSION) ;;
    let '(montage_data, montage_path) := montage in
    hlog (Ev_move montage_path (Under (export_dir config) "montage.jpg")) ;;~
    hret (video_data, montage_data)) ;;
  let '(video_data, montage_data) := media in
  chapters <~ match chapter_file config with
              | Some cf =>
                  if on_disk host cf
                  then cs <~ run_pipeline (lift (parse_chapters (Some (text_of host cf)))) ;;
                       hret (Some cs)
                  else hret None
              | None => hret None
              end ;;
  let metadata := {| video_id := cfg_video_id config;
                     video_data := Some video_data;
                     montage_data := Some montage_data;
                     chapters := chapters |} in
  hlog (Ev_write_text (avd_path (export_dir config) (cfg_video_id config))
          (to_dict metadata)) ;;~
  hret metadata.

(** handler.py: process_chapters_only *)
Definition process_chapters_only (chapter_path : path) (dir : path) (vid : string)
  : H VideoMetadata :=
  hlog (Ev_mkdir (Plain dir)) ;;~
  chapters <~ (if on_disk host chapter_path
               then cs <~ run_pipeline (lift (parse_chapters (Some (text_of host chapter_path)))) ;;
                    hret (Some cs)
               else hret None) ;;
  let metadata := {| video_id := vid;
                     video_data := None;
                     montage_data := None;
                     chapters := chapters |} in
  hlog (Ev_write_text (avd_path dir vid) (to_dict metadata)) ;;~
  hret metadata.
End Orchestrator.

Definition fresh_host_world : hworld := {| hw_log := []; hw_frames := [] |}.

(** A host on which everything is present and every tool succeeds,
    seen through the capability [cap]. *)
Definition willing_host (cap : Capability) (chapter_text : string) : Host :=
  {| host_cap := cap;
     deps_present := true;
     on_disk := fun _ => true;
     text_of := fun _ => chapter_text;
     normalize_ok := true |}.

Definition default_config (video : path) (vid : string) (dir : path)
  : VideoProcessingConfig :=
  {| video_file := video; cfg_video_id := vid; export_dir := dir;
     chapter_file := None;
     thumbnail_width := 30; jpeg_quality := 85; blur_sigma := 1 # 2;
     blank_audio_duration := 5; padding_buffer_seconds := 1; web_crf := 18 |}.

(** What [process_video] does before the temporary directory exists:
    the dependency check, the export directory, the probe of the
    source. *)
Definition before_work_dir (e : hevent) : Prop :=
  match e with
  | Ev_check_dependencies | Ev_mkdir (Plain _) | Ev_tool (Op_probe_video _) => True
  | _ => False
  end.

(** What it does inside the [with] block: tool calls, the
    normalisation, the [video] directory below the export directory
    and the moves out of the working directory. *)
Definition inside_work_dir (e : hevent) : Prop :=
  match e with
  | Ev_tool _ | Ev_normalize _ _ _ | Ev_move _ _ | Ev_mkdir (Under _ _) => True
  | _ => False
  end.

(** The [.avd] write of a run that returned [md]; a run that did not
    return writes none. *)
Definition avd_write (config : VideoProcessingConfig) (r : houtcome VideoMetadata)
  : list hevent :=
  match r with
  | Done md => [Ev_write_text (avd_path (export_dir config) (cfg_video_id config))
                  (to_dict md)]
  | _ => []
  end.

(** The [.avd] content of a chapters-only run over the written
    chapters [cs]. *)
Definition chapters_avd (vid : string) (cs : list written_chapter)
  : list (string * json) :=
  ("I"%string, JStr vid)
  :: match cs with
     | [] => []
     | _ :: _ =>
         [("C"%string,
           JList (map (fun c => JList [JStr (title (entry_of c));
                                       JFloat (start_seconds (entry_of c))]) cs))]
     end.

(** What the chapter step of [process_video] leaves in the metadata:
    the parsed chapters when a chapter file is configured and exists,
    nothing when none is configured or the configured one is absent. *)
Definition chapters_of (host : Host) (config : VideoProcessingConfig)
  : outcome (option (list ChapterEntry)) :=
  match chapter_file config with
  | Some cf =>
      if on_disk host cf
      then match parse_chapters (Some (text_of host cf)) with
           | Ok cs => Ok (Some cs)
           | Raise e => Raise e
           | OutOfFuel => OutOfFuel
           end
      else Ok None
  | None => Ok None
  end.

(** Every event [m] adds to the log satisfies [P], whatever the
    outcome. *)
Definition logs_only {A : Type} (P : hevent -> Prop) (m : H A) : Prop :=
  forall hw, exists tr, hw_log (snd (m hw)) = hw_log hw ++ tr /\ Forall P tr.

(* ================================================================== *)
(** * Properties                                                       *)
(* ================================================================== *)

(** Unfold the monad and split on every tool's exit status. *)
Ltac unfold_monad_in H :=
  cbv beta iota zeta delta
    [bind ret raise out_of_fuel lift log_call run_ffmpeg probe_video
     create_blank_audio extract_audio create_padded_audio
     create_fast_forward_audio create_time_padded_video
     create_fast_forward_video concatenate_media mux_video_audio] in H.

Ltac run_monad H :=
  unfold_monad_in H;
  repeat (match type of H with
          | context [run_ok ?c ?o] => destruct (run_ok c o)
          end; cbv beta iota in H);
  try discriminate H.

Lemma Qgtb_true (a b : Q) : Qgtb a b = true <-> (b < a)%Q.
Proof.
  unfold Qgtb. rewrite negb_true_iff.
  split; intro H.
  - apply Qnot_le_lt. intro L. apply Qle_bool_iff in L. congruence.
  - destruct (Qle_bool a b) eqn:E; [|reflexivity].
    apply Qle_bool_iff in E. exfalso. exact (Qlt_not_le _ _ H E).
Qed.

Lemma Qgtb_false (a b : Q) : Qgtb a b = false <-> (a <= b)%Q.
Proof.
  unfold Qgtb. rewrite negb_false_iff. apply Qle_bool_iff.
Qed.

(** ** Rounding *)

Lemma py_round_range (q : Q) : Qfloor q <= py_round q <= Qfloor q + 1.
Proof.
  unfold py_round.
  destruct (q - inject_Z (Qfloor q) ?= 1 # 2)%Q; try destruct (Z.even (Qfloor q)); lia.
Qed.

Lemma py_round_comp (q q' : Q) : (q == q')%Q -> py_round q = py_round q'.
Proof.
  intro E. unfold py_round. rewrite (Qfloor_comp _ _ E).
  assert (C : ((q - inject_Z (Qfloor q') ?= 1 # 2) = (q' - inject_Z (Qfloor q') ?= 1 # 2))%Q).
  { apply Qcompare_comp; [rewrite E; reflexivity | reflexivity]. }
  rewrite C. reflexivity.
Qed.

Lemma py_round_Z (z : Z) : py_round (inject_Z z) = z.
Proof.
  unfold py_round. rewrite Qfloor_Z.
  assert (C : ((inject_Z z - inject_Z z ?= 1 # 2) = Lt)%Q).
  { apply Qlt_alt. setoid_replace (inject_Z z - inject_Z z)%Q with 0%Q by ring. reflexivity. }
  rewrite C. reflexivity.
Qed.

Lemma py_round_mono (q1 q2 : Q) : (q1 <= q2)%Q -> py_round q1 <= py_round q2.
Proof.
  intro H.
  pose proof (Qfloor_resp_le _ _ H) as Hf.
  pose proof (py_round_range q1) as R1. pose proof (py_round_range q2) as R2.
  destruct (Z.eq_dec (Qfloor q1) (Qfloor q2)) as [E|NE]; [|lia].
  unfold py_round in *. rewrite E in *.
  set (f := Qfloor q2) in *.
  assert (Hr : (q1 - inject_Z f <= q2 - inject_Z f)%Q).
  { unfold Qminus. apply Qplus_le_l. exact H. }
  destruct (q1 - inject_Z f ?= 1 # 2)%Q eqn:C1;
    destruct (q2 - inject_Z f ?= 1 # 2)%Q eqn:C2;
    try (destruct (Z.even f); lia); exfalso.
  - apply Qeq_alt in C1. apply Qlt_alt in C2. rewrite C1 in Hr.
    exact (Qlt_not_le _ _ C2 Hr).
  - apply Qgt_alt in C1. apply Qeq_alt in C2. rewrite C2 in Hr.
    exact (Qlt_not_le _ _ C1 Hr).
  - apply Qgt_alt in C1. apply Qlt_alt in C2.
    exact (Qlt_not_le _ _ (Qlt_trans _ _ _ C2 C1) Hr).
Qed.


Lemma py_round_nearest (q : Q) :
  (inject_Z (py_round q) - q <= 1 # 2)%Q /\ (q - inject_Z (py_round q) <= 1 # 2)%Q.
Proof.
  unfold py_round.
  pose proof (Qfloor_le q) as Hlo. pose proof (Qlt_floor q) as Hhi.
  set (f := Qfloor q) in *.
  assert (Hup : (inject_Z (f + 1) == inject_Z f + 1)%Q) by (rewrite inject_Z_plus; reflexivity).
  rewrite Hup in Hhi.
  destruct (q - inject_Z f ?= 1 # 2)%Q eqn:C.
  - apply Qeq_alt in C.
    destruct (Z.even f); [|rewrite Hup]; split; lra.
  - apply Qlt_alt in C. split; lra.
  - apply Qgt_alt in C. rewrite Hup. split; lra.
Qed.

(** An integer below [q] is below [round(q)], and one above is above. *)
Lemma py_round_ge (k : Z) (q : Q) : (inject_Z k <= q)%Q -> k <= py_round q.
Proof.
  intro H. pose proof (py_round_range q) as [Hlo _].
  assert (k <= Qfloor q); [|lia].
  rewrite <- (Qfloor_Z k). apply Qfloor_resp_le. exact H.
Qed.

Lemma py_round_le (k : Z) (q : Q) : (q <= inject_Z k)%Q -> py_round q <= k.
Proof.
  intro H. unfold py_round.
  pose proof (Qfloor_le q) as Hlo.
  assert (Hf : Qfloor q <= k).
  { rewrite <- (Qfloor_Z k). apply Qfloor_resp_le. exact H. }
  destruct (Z.eq_dec (Qfloor q) k) as [E|NE].
  - assert (Q0 : (q - inject_Z (Qfloor q) ?= 1 # 2)%Q = Lt).
    { apply (proj1 (Qlt_alt _ _)). rewrite E. revert H. generalize (inject_Z k). intros x H. lra. }
    rewrite Q0. lia.
  - destruct (q - inject_Z (Qfloor q) ?= 1 # 2)%Q; try destruct (Z.even (Qfloor q)); lia.
Qed.

(** ** Powers of two *)

Lemma two_neq_0 : ~ (2 == 0)%Q.
Proof. intro E. discriminate E. Qed.

Lemma pow2_gt_0 (e : Z) : (0 < pow2 e)%Q.
Proof. unfold pow2. apply Qpower_0_lt. reflexivity. Qed.

Lemma pow2_neq_0 (e : Z) : ~ (pow2 e == 0)%Q.
Proof. intro E. pose proof (pow2_gt_0 e) as H. rewrite E in H. exact (Qlt_irrefl _ H). Qed.

Lemma pow2_plus (a b : Z) : (pow2 (a + b) == pow2 a * pow2 b)%Q.
Proof. unfold pow2. apply Qpower_plus. exact two_neq_0. Qed.

Lemma pow2_minus (a b : Z) : (pow2 (a - b) == pow2 a / pow2 b)%Q.
Proof. unfold pow2. apply Qpower_minus. exact two_neq_0. Qed.

Lemma pow2_le (a b : Z) : a <= b -> (pow2 a <= pow2 b)%Q.
Proof. intro H. unfold pow2. apply Qpower_le_compat_l; [exact H | discriminate]. Qed.

Lemma pow2_lt (a b : Z) : a < b -> (pow2 a < pow2 b)%Q.
Proof. intro H. unfold pow2. apply Qpower_lt_compat_l; [exact H | reflexivity]. Qed.

Lemma pow2_lt_inv (a b : Z) : (pow2 a < pow2 b)%Q -> a < b.
Proof. intro H. unfold pow2 in H. apply Qpower_lt_compat_l_inv in H; [exact H | reflexivity]. Qed.

Lemma pow2_Z (a : Z) : 0 <= a -> (pow2 a == inject_Z (2 ^ a))%Q.
Proof. intro H. unfold pow2. rewrite Zpower_Qpower by exact H. reflexivity. Qed.

(** ** The exponent of a positive real *)

Lemma Qdiv_Z_le (A B n : Z) (d : positive) :
  0 < B -> (inject_Z A / inject_Z B <= n # d)%Q <-> A * Zpos d <= n * B.
Proof.
  intro HB. destruct B as [|b|b]; try lia.
  unfold Qle, Qdiv, Qmult, Qinv, inject_Z. simpl. rewrite !Z.mul_1_r. reflexivity.
Qed.

Lemma Qdiv_Z_gt (A B n : Z) (d : positive) :
  0 < B -> (n # d < inject_Z A / inject_Z B)%Q <-> n * B < A * Zpos d.
Proof.
  intro HB. destruct B as [|b|b]; try lia.
  unfold Qlt, Qdiv, Qmult, Qinv, inject_Z. simpl. rewrite !Z.mul_1_r. reflexivity.
Qed.

Lemma floor_log2_spec (q : Q) :
  (0 < q)%Q -> (pow2 (floor_log2 q) <= q)%Q /\ (q < pow2 (floor_log2 q + 1))%Q.
Proof.
  intro Hq. destruct q as [n d].
  assert (Hn : 0 < n).
  { unfold Qlt in Hq. simpl in Hq. lia. }
  unfold floor_log2. cbn [Qnum Qden].
  set (a := Z.log2 n). set (b := Z.log2 (Zpos d)).
  pose proof (Z.log2_spec n Hn) as [Ha1 Ha2]. fold a in Ha1, Ha2.
  pose proof (Z.log2_spec (Zpos d) ltac:(lia)) as [Hb1 Hb2]. fold b in Hb1, Hb2.
  assert (Ha0 : 0 <= a) by apply Z.log2_nonneg.
  assert (Hb0 : 0 <= b) by apply Z.log2_nonneg.
  assert (Pa : 0 < 2 ^ a) by (apply Z.pow_pos_nonneg; lia).
  assert (Pb : 0 < 2 ^ b) by (apply Z.pow_pos_nonneg; lia).
  assert (Sa : 2 ^ Z.succ a = 2 * 2 ^ a) by (apply Z.pow_succ_r; lia).
  assert (Sb : 2 ^ Z.succ b = 2 * 2 ^ b) by (apply Z.pow_succ_r; lia).
  destruct (Qle_bool (pow2 (a - b)) (n # d)) eqn:T.
  - apply Qle_bool_iff in T. split; [exact T|].
    replace (a - b + 1) with (Z.succ a - b) by lia.
    rewrite pow2_minus, (pow2_Z (a := Z.succ a)), (pow2_Z (a := b)) by lia.
    apply Qdiv_Z_gt; [exact Pb|]. nia.
  - assert (T' : ~ (pow2 (a - b) <= n # d)%Q).
    { intro C. apply Qle_bool_iff in C. rewrite C in T. discriminate T. }
    apply Qnot_le_lt in T'. split.
    + replace (a - b - 1) with (a - Z.succ b) by lia.
      rewrite pow2_minus, (pow2_Z (a := a)), (pow2_Z (a := Z.succ b)) by lia.
      apply Qdiv_Z_le; [lia|]. nia.
    + replace (a - b - 1 + 1) with (a - b) by lia. exact T'.
Qed.

Lemma floor_log2_unique (q : Q) (e : Z) :
  (pow2 e <= q)%Q -> (q < pow2 (e + 1))%Q -> floor_log2 q = e.
Proof.
  intros Hlo Hhi.
  assert (Hq : (0 < q)%Q) by (eapply Qlt_le_trans; [apply pow2_gt_0 | exact Hlo]).
  destruct (floor_log2_spec Hq) as [Slo Shi].
  assert (A : e < floor_log2 q + 1).
  { apply pow2_lt_inv. eapply Qle_lt_trans; eassumption. }
  assert (B : floor_log2 q < e + 1).
  { apply pow2_lt_inv. eapply Qle_lt_trans; eassumption. }
  lia.
Qed.

Lemma floor_log2_ge (q : Q) (e : Z) : (pow2 e <= q)%Q -> e <= floor_log2 q.
Proof.
  intro Hlo.
  assert (Hq : (0 < q)%Q) by (eapply Qlt_le_trans; [apply pow2_gt_0 | exact Hlo]).
  destruct (floor_log2_spec Hq) as [_ Shi].
  assert (A : e < floor_log2 q + 1).
  { apply pow2_lt_inv. eapply Qle_lt_trans; eassumption. }
  lia.
Qed.

(** ** Rounding to a double *)

Lemma round_pos_eq (q : Q) :
  (round_pos q == inject_Z (py_round (q / pow2 (ulp_exponent q))) * pow2 (ulp_exponent q))%Q.
Proof. unfold round_pos. apply Qred_correct. Qed.

Lemma Qdiv_mult_pow2 (q : Q) (e : Z) : (q / pow2 e * pow2 e == q)%Q.
Proof. field. apply pow2_neq_0. Qed.

Lemma round_pos_nonneg (q : Q) : (0 <= q)%Q -> (0 <= round_pos q)%Q.
Proof.
  intro Hq. rewrite round_pos_eq.
  apply Qmult_le_0_compat; [|apply Qlt_le_weak, pow2_gt_0].
  change 0%Q with (inject_Z 0). rewrite <- Zle_Qle. apply py_round_ge.
  apply Qle_shift_div_l; [apply pow2_gt_0|]. rewrite Qmult_0_l. exact Hq.
Qed.

(** A positive representable number as an integer multiple of a
    smaller power of two. *)
Lemma scaled_integer (m e ex : Z) :
  ex <= e -> (inject_Z m * pow2 e / pow2 ex == inject_Z (m * 2 ^ (e - ex)))%Q.
Proof.
  intro H. rewrite inject_Z_mult, <- pow2_Z by lia.
  rewrite pow2_minus. field. apply pow2_neq_0.
Qed.

Lemma round_pos_below (q r : Q) (m e : Z) :
  (0 < q)%Q -> Z.abs m < 2 ^ 53 -> -1074 <= e -> (r == inject_Z m * pow2 e)%Q ->
  (q <= r)%Q -> (round_pos q <= r)%Q.
Proof.
  intros Hq Hm He Er Hle.
  destruct (floor_log2_spec Hq) as [Slo Shi].
  set (ex := ulp_exponent q).
  destruct (Z_le_gt_dec ex e) as [C|C].
  - rewrite round_pos_eq. fold ex.
    assert (K : py_round (q / pow2 ex) <= m * 2 ^ (e - ex)).
    { apply py_round_le. rewrite <- (scaled_integer m C), <- Er.
      apply Qmult_le_compat_r; [exact Hle|].
      apply Qlt_le_weak, Qinv_lt_0_compat, pow2_gt_0. }
    rewrite Zle_Qle in K.
    apply (Qmult_le_compat_r _ _ (pow2 ex)) in K; [|apply Qlt_le_weak, pow2_gt_0].
    eapply Qle_trans; [exact K|].
    rewrite <- (scaled_integer m C), Qdiv_mult_pow2, Er. apply Qle_refl.
  - exfalso. unfold ex, ulp_exponent in C.
    assert (L : e + 53 <= floor_log2 q) by lia.
    assert (B : (r < pow2 (e + 53))%Q).
    { rewrite Er, pow2_plus, (Qmult_comm (pow2 e)).
      apply Qmult_lt_compat_r; [apply pow2_gt_0|].
      rewrite (pow2_Z (a := 53)) by lia. rewrite <- Zlt_Qlt. lia. }
    apply pow2_le in L.
    assert (X : (r < q)%Q).
    { eapply Qlt_le_trans; [exact B|]. eapply Qle_trans; eassumption. }
    exact (Qlt_not_le _ _ X Hle).
Qed.

Lemma round_pos_above (q r : Q) (m e : Z) :
  (0 < q)%Q -> Z.abs m < 2 ^ 53 -> -1074 <= e -> (r == inject_Z m * pow2 e)%Q ->
  (r <= q)%Q -> (r <= round_pos q)%Q.
Proof.
  intros Hq Hm He Er Hle.
  destruct (floor_log2_spec Hq) as [Slo Shi].
  set (ex := ulp_exponent q).
  destruct (Z_le_gt_dec ex e) as [C|C].
  - rewrite round_pos_eq. fold ex.
    assert (K : m * 2 ^ (e - ex) <= py_round (q / pow2 ex)).
    { apply py_round_ge. rewrite <- (scaled_integer m C), <- Er.
      apply Qmult_le_compat_r; [exact Hle|].
      apply Qlt_le_weak, Qinv_lt_0_compat, pow2_gt_0. }
    rewrite Zle_Qle in K.
    apply (Qmult_le_compat_r _ _ (pow2 ex)) in K; [|apply Qlt_le_weak, pow2_gt_0].
    eapply Qle_trans; [|exact K].
    rewrite <- (scaled_integer m C), Qdiv_mult_pow2, Er. apply Qle_refl.
  - unfold ex, ulp_exponent in C.
    assert (Ex : ulp_exponent q = floor_log2 q - 52) by (unfold ulp_exponent; lia).
    assert (L : e + 53 <= floor_log2 q) by lia.
    assert (B : (r < pow2 (e + 53))%Q).
    { rewrite Er, pow2_plus, (Qmult_comm (pow2 e)).
      apply Qmult_lt_compat_r; [apply pow2_gt_0|].
      rewrite (pow2_Z (a := 53)) by lia. rewrite <- Zlt_Qlt. lia. }
    apply pow2_le in L.
    apply Qlt_le_weak. eapply Qlt_le_trans; [exact B|].
    eapply Qle_trans; [exact L|].
    rewrite round_pos_eq, Ex.
    assert (K : 2 ^ 52 <= py_round (q / pow2 (floor_log2 q - 52))).
    { apply py_round_ge. rewrite <- pow2_Z by lia.
      apply Qle_shift_div_l; [apply pow2_gt_0|].
      rewrite <- pow2_plus. replace (52 + (floor_log2 q - 52)) with (floor_log2 q) by lia.
      exact Slo. }
    rewrite Zle_Qle in K.
    apply (Qmult_le_compat_r _ _ (pow2 (floor_log2 q - 52))) in K;
      [|apply Qlt_le_weak, pow2_gt_0].
    eapply Qle_trans; [|exact K].
    rewrite <- pow2_Z, <- pow2_plus by lia.
    replace (52 + (floor_log2 q - 52)) with (floor_log2 q) by lia. apply Qle_refl.
Qed.

Lemma Qnum_zero (q : Q) : Qnum q = 0 -> (q == 0)%Q.
Proof. intro H. unfold Qeq. rewrite H. reflexivity. Qed.

Lemma Qnum_pos (q : Q) (p : positive) : Qnum q = Zpos p -> (0 < q)%Q.
Proof. intro H. unfold Qlt. rewrite H. simpl. lia. Qed.

Lemma Qnum_neg (q : Q) (p : positive) : Qnum q = Zneg p -> (q < 0)%Q.
Proof. intro H. unfold Qlt. rewrite H. simpl. lia. Qed.

Lemma round64_zero (q : Q) : (q == 0)%Q -> round64 q = 0%Q.
Proof.
  intro H. unfold round64. unfold Qeq in H. simpl in H. rewrite Z.mul_1_r in H.
  rewrite H. reflexivity.
Qed.

Lemma round64_pos (q : Q) : (0 < q)%Q -> round64 q = round_pos q.
Proof.
  intro H. unfold round64. unfold Qlt in H. simpl in H. rewrite Z.mul_1_r in H.
  destruct (Qnum q); try lia. reflexivity.
Qed.

Lemma round64_neg (q : Q) : (q < 0)%Q -> round64 q = (- round_pos (- q))%Q.
Proof.
  intro H. unfold round64. unfold Qlt in H. simpl in H. rewrite Z.mul_1_r in H.
  destruct (Qnum q); try lia. reflexivity.
Qed.

Lemma Q_sign_cases (q : Q) : (q < 0)%Q \/ (q == 0)%Q \/ (0 < q)%Q.
Proof.
  destruct (Qlt_le_dec q 0) as [L|L]; [left; exact L|right].
  destruct (Qlt_le_dec 0 q) as [P|P]; [right; exact P|left].
  apply Qle_antisym; assumption.
Qed.

Lemma is_float64_opp (r : Q) : is_float64 r -> is_float64 (- r).
Proof.
  intros [m [e [Hm [He Er]]]]. exists (- m), e.
  split; [lia|]. split; [exact He|].
  rewrite Er, inject_Z_opp. ring.
Qed.

Lemma is_float64_0 : is_float64 0.
Proof. exists 0, 0. split; [reflexivity|]. split; [lia|]. reflexivity. Qed.

Lemma is_float64_Z (z : Z) : Z.abs z <= 2 ^ 53 -> is_float64 (inject_Z z).
Proof.
  intro H. destruct (Z_lt_le_dec (Z.abs z) (2 ^ 53)) as [L|L].
  - exists z, 0. split; [exact L|]. split; [lia|]. unfold pow2. simpl. ring.
  - assert (E : z = 2 ^ 53 \/ z = - 2 ^ 53) by lia.
    destruct E as [E|E]; subst z.
    + exists (2 ^ 52), 1. split; [reflexivity|]. split; [lia|]. reflexivity.
    + exists (- 2 ^ 52), 1. split; [reflexivity|]. split; [lia|]. reflexivity.
Qed.

(** Rounding does not cross a double. *)
Lemma round64_le (q r : Q) : is_float64 r -> (q <= r)%Q -> (round64 q <= r)%Q.
Proof.
  intros Hr Hle. destruct (Q_sign_cases q) as [N|[Z0|P]].
  - rewrite (round64_neg N).
    assert (Hq' : (0 < - q)%Q) by lra.
    destruct (Qlt_le_dec r 0) as [Rn|Rp].
    + destruct (is_float64_opp Hr) as [m [e [Hm [He Er]]]].
      assert (A : (- r <= round_pos (- q))%Q).
      { apply (round_pos_above Hq' Hm He Er). lra. }
      lra.
    + pose proof (round_pos_nonneg (q := (- q)%Q) ltac:(lra)) as A. lra.
  - rewrite (round64_zero Z0). rewrite Z0 in Hle. exact Hle.
  - rewrite (round64_pos P). destruct Hr as [m [e [Hm [He Er]]]].
    exact (round_pos_below P Hm He Er Hle).
Qed.

Lemma round64_ge (q r : Q) : is_float64 r -> (r <= q)%Q -> (r <= round64 q)%Q.
Proof.
  intros Hr Hle. destruct (Q_sign_cases q) as [N|[Z0|P]].
  - rewrite (round64_neg N).
    assert (Hq' : (0 < - q)%Q) by lra.
    destruct (is_float64_opp Hr) as [m [e [Hm [He Er]]]].
    assert (A : (round_pos (- q) <= - r)%Q).
    { apply (round_pos_below Hq' Hm He Er). lra. }
    lra.
  - rewrite (round64_zero Z0). rewrite Z0 in Hle. exact Hle.
  - rewrite (round64_pos P). destruct Hr as [m [e [Hm [He Er]]]].
    exact (round_pos_above P Hm He Er Hle).
Qed.

Lemma round64_exact (r : Q) : is_float64 r -> (round64 r == r)%Q.
Proof.
  intro Hr. apply Qle_antisym.
  - apply round64_le; [exact Hr | apply Qle_refl].
  - apply round64_ge; [exact Hr | apply Qle_refl].
Qed.

Lemma round64_nonneg (q : Q) : (0 <= q)%Q -> (0 <= round64 q)%Q.
Proof. apply round64_ge. exact is_float64_0. Qed.

Lemma round64_nonpos (q : Q) : (q <= 0)%Q -> (round64 q <= 0)%Q.
Proof. apply round64_le. exact is_float64_0. Qed.

Lemma round64_pos_inv (q : Q) : (0 < round64 q)%Q -> (0 < q)%Q.
Proof.
  intro H. destruct (Qlt_le_dec 0 q) as [P|N]; [exact P|exfalso].
  pose proof (round64_nonpos N). lra.
Qed.

Lemma float_of_int_exact (z : Z) :
  Z.abs z <= 2 ^ 53 -> (float_of_int z == inject_Z z)%Q.
Proof. intro H. apply round64_exact, is_float64_Z, H. Qed.

(** The whole part of a double is a double. *)
Lemma is_float64_floor (d : Q) :
  is_float64 d -> (0 <= d)%Q -> is_float64 (inject_Z (Qfloor d)).
Proof.
  intros [m [e [Hm [He Er]]]] Hd.
  destruct (Z_le_gt_dec 0 e) as [C|C].
  - exists m, e. split; [exact Hm|]. split; [exact He|].
    assert (E : (d == inject_Z (m * 2 ^ e))%Q).
    { rewrite Er, inject_Z_mult, <- pow2_Z by exact C. reflexivity. }
    rewrite (Qfloor_comp _ _ E), Qfloor_Z, inject_Z_mult, <- pow2_Z by exact C.
    reflexivity.
  - apply is_float64_Z.
    assert (F0 : 0 <= Qfloor d).
    { rewrite <- (Qfloor_Z 0). apply Qfloor_resp_le. exact Hd. }
    assert (F1 : Qfloor d <= m).
    { rewrite <- (Qfloor_Z m). apply Qfloor_resp_le. rewrite Er.
      rewrite <- (Qmult_1_r (inject_Z m)) at 2.
      assert (M0 : (0 <= inject_Z m)%Q).
      { destruct (Z_le_gt_dec 0 m) as [P|N].
        - change 0%Q with (inject_Z 0). rewrite <- Zle_Qle. exact P.
        - exfalso. assert (X : (inject_Z m * pow2 e < 0)%Q).
          { assert (Y : (inject_Z m < 0)%Q).
            { change 0%Q with (inject_Z 0). rewrite <- Zlt_Qlt. lia. }
            pose proof (pow2_gt_0 e) as Pe.
            setoid_replace 0%Q with (0 * pow2 e)%Q by ring.
            apply Qmult_lt_compat_r; assumption. }
          rewrite <- Er in X. lra. }
      rewrite !(Qmult_comm (inject_Z m)).
      apply Qmult_le_compat_r; [|exact M0].
      change 1%Q with (pow2 0). apply pow2_le. lia. }
    lia.
Qed.

(** The relative error of one rounding in the normal range. *)
Lemma round64_error (q : Q) :
  (pow2 (-1022) <= q)%Q ->
  (round64 q - q <= q * pow2 (-53))%Q /\ (q - round64 q <= q * pow2 (-53))%Q.
Proof.
  intro Hn.
  assert (Hq : (0 < q)%Q) by (eapply Qlt_le_trans; [apply pow2_gt_0 | exact Hn]).
  destruct (floor_log2_spec Hq) as [Slo _].
  pose proof (@floor_log2_ge q (-1022) Hn) as L.
  rewrite (round64_pos Hq), round_pos_eq.
  assert (Ex : ulp_exponent q = floor_log2 q - 52) by (unfold ulp_exponent; lia).
  rewrite Ex. set (ex := floor_log2 q - 52).
  pose proof (py_round_nearest (q / pow2 ex)) as [A B].
  pose proof (pow2_gt_0 ex) as Pe.
  assert (U : (pow2 ex * (1 # 2) <= q * pow2 (-53))%Q).
  { assert (E1 : (pow2 ex * (1 # 2) == pow2 (floor_log2 q) * pow2 (-53))%Q).
    { unfold ex. replace (floor_log2 q - 52) with (floor_log2 q + -52) by lia.
      assert (C : (pow2 (-52) * (1 # 2) == pow2 (-53))%Q) by reflexivity.
      rewrite pow2_plus, <- Qmult_assoc, C. reflexivity. }
    rewrite E1. apply Qmult_le_compat_r; [exact Slo | apply Qlt_le_weak, pow2_gt_0]. }
  set (y := inject_Z (py_round (q / pow2 ex))) in *.
  assert (Eq : (q == q / pow2 ex * pow2 ex)%Q) by (symmetry; apply Qdiv_mult_pow2).
  set (x := (q / pow2 ex)%Q) in *.
  assert (A' : ((y - x) * pow2 ex <= (1 # 2) * pow2 ex)%Q)
    by (apply Qmult_le_compat_r; [exact A | apply Qlt_le_weak; exact Pe]).
  assert (B' : ((x - y) * pow2 ex <= (1 # 2) * pow2 ex)%Q)
    by (apply Qmult_le_compat_r; [exact B | apply Qlt_le_weak; exact Pe]).
  split.
  - eapply Qle_trans; [|exact U].
    setoid_replace (y * pow2 ex - q)%Q with ((y - x) * pow2 ex)%Q
      by (rewrite Eq at 1; ring).
    rewrite (Qmult_comm (pow2 ex)). exact A'.
  - eapply Qle_trans; [|exact U].
    setoid_replace (q - y * pow2 ex)%Q with ((x - y) * pow2 ex)%Q
      by (rewrite Eq at 1; ring).
    rewrite (Qmult_comm (pow2 ex)). exact B'.
Qed.

(** Rounding is monotone. *)
Lemma round_pos_mono (p q : Q) :
  (0 < p)%Q -> (p <= q)%Q -> (round_pos p <= round_pos q)%Q.
Proof.
  intros Hp Hle.
  assert (Hq : (0 < q)%Q) by (eapply Qlt_le_trans; eassumption).
  destruct (floor_log2_spec Hp) as [Plo Phi].
  destruct (floor_log2_spec Hq) as [Qlo Qhi].
  assert (L : floor_log2 p <= floor_log2 q).
  { apply floor_log2_ge. eapply Qle_trans; eassumption. }
  destruct (Z.eq_dec (ulp_exponent p) (ulp_exponent q)) as [E|NE].
  - rewrite !round_pos_eq, E.
    apply Qmult_le_compat_r; [|apply Qlt_le_weak, pow2_gt_0].
    rewrite <- Zle_Qle. apply py_round_mono.
    apply Qmult_le_compat_r; [exact Hle|].
    apply Qlt_le_weak, Qinv_lt_0_compat, pow2_gt_0.
  - unfold ulp_exponent in NE.
    assert (L' : floor_log2 p + 1 <= floor_log2 q) by lia.
    assert (Lq : -1074 <= floor_log2 q) by lia.
    assert (Er : (pow2 (floor_log2 q) == inject_Z 1 * pow2 (floor_log2 q))%Q)
      by (rewrite Qmult_1_l; reflexivity).
    apply Qle_trans with (pow2 (floor_log2 q)).
    + apply (@round_pos_below p _ 1 (floor_log2 q) Hp ltac:(reflexivity) Lq Er).
      apply Qlt_le_weak. eapply Qlt_le_trans; [exact Phi|]. apply pow2_le. exact L'.
    + exact (@round_pos_above q _ 1 (floor_log2 q) Hq ltac:(reflexivity) Lq Er Qlo).
Qed.

Lemma round64_mono (p q : Q) : (p <= q)%Q -> (round64 p <= round64 q)%Q.
Proof.
  intro Hle. destruct (Qlt_le_dec 0 p) as [Pp|Np].
  - assert (Pq : (0 < q)%Q) by (eapply Qlt_le_trans; eassumption).
    rewrite (round64_pos Pp), (round64_pos Pq). apply round_pos_mono; assumption.
  - destruct (Qlt_le_dec q 0) as [Nq|Pq].
    + assert (Np' : (p < 0)%Q) by exact (Qle_lt_trans _ _ _ Hle Nq).
      rewrite (round64_neg Np'), (round64_neg Nq).
      assert (A : (round_pos (- q) <= round_pos (- p))%Q)
        by (apply round_pos_mono; lra).
      lra.
    + apply Qle_trans with 0%Q; [apply round64_nonpos | apply round64_nonneg]; assumption.
Qed.

(** A real within less than a half of an integer rounds to it. *)
Lemma py_round_near (y : Q) (i : Z) :
  (y - inject_Z i < 1 # 2)%Q -> (inject_Z i - y < 1 # 2)%Q -> py_round y = i.
Proof.
  intros A B. pose proof (py_round_nearest y) as [C D].
  assert (E : (inject_Z (py_round y) < inject_Z (i + 1))%Q).
  { rewrite inject_Z_plus. change (inject_Z 1) with 1%Q.
    revert A B C D. generalize (inject_Z (py_round y)), (inject_Z i). intros a b A B C D. lra. }
  assert (F : (inject_Z (i - 1) < inject_Z (py_round y))%Q).
  { unfold Zminus. rewrite inject_Z_plus, inject_Z_opp. change (inject_Z 1) with 1%Q.
    clear E. revert A B C D. generalize (inject_Z (py_round y)), (inject_Z i). intros a b A B C D. lra. }
  rewrite <- Zlt_Qlt in E, F. lia.
Qed.

(** ** The square root *)

Lemma fsqrt_nonneg (x : Q) : (0 <= fsqrt x)%Q.
Proof.
  unfold fsqrt. destruct (Qle_bool x 0); [apply Qle_refl|].
  cbv zeta. rewrite Qred_correct.
  apply Qmult_le_0_compat; [|apply Qlt_le_weak, pow2_gt_0].
  change 0%Q with (inject_Z 0). rewrite <- Zle_Qle.
  match goal with
  | |- 0 <= match ?c with Eq => if ?b then ?m else _ | Lt => _ | Gt => _ end =>
      pose proof (Z.sqrt_nonneg (Qfloor (x / pow2 (2 * Z.max (floor_log2 x / 2 - 52) (-1074)))));
      destruct c; try destruct b; lia
  end.
Qed.

Lemma fsqrt_nonpos (x : Q) : (x <= 0)%Q -> fsqrt x = 0%Q.
Proof.
  intro H. unfold fsqrt. apply Qle_bool_iff in H. rewrite H. reflexivity.
Qed.

Lemma fsqrt_pos_inv (x : Q) : ~ (fsqrt x == 0)%Q -> (0 < x)%Q.
Proof.
  intro H. destruct (Qlt_le_dec 0 x) as [P|N]; [exact P|exfalso].
  apply H. rewrite (fsqrt_nonpos N). reflexivity.
Qed.

Lemma Qceiling_unique (x : Q) (k : Z) :
  (inject_Z k < x)%Q -> (x <= inject_Z (k + 1))%Q -> Qceiling x = k + 1.
Proof.
  intros Hlo Hhi.
  assert (A : Qceiling x <= k + 1).
  { rewrite <- (Qceiling_Z (k + 1)). apply Qceiling_resp_le. exact Hhi. }
  assert (B : k < Qceiling x).
  { rewrite Zlt_Qlt. eapply Qlt_le_trans; [exact Hlo | apply Qle_ceiling]. }
  lia.
Qed.

(** Rounding the quotient of two ints of moderate size does not move
    its ceiling. *)
Lemma Qceiling_round64_div (n c : Z) :
  0 <= n < 2 ^ 53 -> 1 <= c <= 2 ^ 53 ->
  Qceiling (round64 (inject_Z n / inject_Z c)) = Qceiling (inject_Z n / inject_Z c).
Proof.
  intros Hn Hc.
  set (q := (inject_Z n / inject_Z c)%Q).
  assert (Pc : (0 < inject_Z c)%Q).
  { change 0%Q with (inject_Z 0). rewrite <- Zlt_Qlt. lia. }
  assert (Nc : ~ (inject_Z c == 0)%Q) by (intro E; rewrite E in Pc; exact (Qlt_irrefl _ Pc)).
  assert (Eqc : (q * inject_Z c == inject_Z n)%Q) by (unfold q; field; exact Nc).
  destruct (Z.eq_dec n 0) as [Z0|NZ].
  - assert (E : (q == 0)%Q).
    { unfold q. rewrite Z0. unfold Qdiv. apply Qmult_0_l. }
    rewrite (round64_zero E). symmetry. apply Qceiling_comp. exact E.
  - set (k := Qfloor q).
    pose proof (Qfloor_le q) as Flo. pose proof (Qlt_floor q) as Fhi. fold k in Flo, Fhi.
    set (ic := (/ inject_Z c)%Q).
    assert (Pic : (0 < ic)%Q) by (apply Qinv_lt_0_compat; exact Pc).
    assert (Hq0 : (0 < q)%Q).
    { unfold q, Qdiv. fold ic.
      setoid_replace 0%Q with (0 * ic)%Q by ring.
      apply Qmult_lt_compat_r; [exact Pic|].
      change 0%Q with (inject_Z 0). rewrite <- Zlt_Qlt. lia. }
    assert (Hqn : (q <= inject_Z n)%Q).
    { unfold q, Qdiv. fold ic.
      rewrite <- (Qmult_1_r (inject_Z n)) at 2.
      rewrite !(Qmult_comm (inject_Z n)).
      apply Qmult_le_compat_r.
      - unfold ic. apply Qle_shift_inv_r; [exact Pc|]. rewrite Qmult_1_l.
        change 1%Q with (inject_Z 1). rewrite <- Zle_Qle. lia.
      - change 0%Q with (inject_Z 0). rewrite <- Zle_Qle. lia. }
    assert (K0 : 0 <= k).
    { unfold k. rewrite <- (Qfloor_Z 0). apply Qfloor_resp_le, Qlt_le_weak. exact Hq0. }
    assert (K1 : k <= n).
    { unfold k. rewrite <- (Qfloor_Z n). apply Qfloor_resp_le. exact Hqn. }
    assert (Lo : (inject_Z k <= round64 q)%Q).
    { apply round64_ge; [apply is_float64_Z; lia | exact Flo]. }
    assert (Hi : (round64 q <= inject_Z (k + 1))%Q).
    { apply round64_le; [apply is_float64_Z; lia | apply Qlt_le_weak; exact Fhi]. }
    destruct (Qlt_le_dec (inject_Z k) q) as [S|S].
    + rewrite (Qceiling_unique (k := k) S (Qlt_le_weak _ _ Fhi)).
      apply Qceiling_unique; [|exact Hi].
      assert (Zk : k * c < n).
      { rewrite Zlt_Qlt, inject_Z_mult, <- Eqc.
        apply Qmult_lt_compat_r; assumption. }
      assert (A : (ic <= q - inject_Z k)%Q).
      { setoid_replace (q - inject_Z k)%Q with (inject_Z (n - k * c) * ic)%Q.
        - rewrite <- (Qmult_1_l ic) at 1.
          apply Qmult_le_compat_r; [|apply Qlt_le_weak; exact Pic].
          change 1%Q with (inject_Z 1). rewrite <- Zle_Qle. lia.
        - unfold Zminus. rewrite inject_Z_plus, inject_Z_opp, inject_Z_mult.
          unfold q, ic. field. exact Nc. }
      assert (B : (q * pow2 (-53) < ic)%Q).
      { setoid_replace (q * pow2 (-53))%Q with (inject_Z n * pow2 (-53) * ic)%Q
          by (unfold q, ic; field; exact Nc).
        rewrite <- (Qmult_1_l ic) at 2.
        apply Qmult_lt_compat_r; [exact Pic|].
        assert (C : (pow2 53 * pow2 (-53) == 1)%Q) by reflexivity.
        rewrite <- C. apply Qmult_lt_compat_r; [apply pow2_gt_0|].
        rewrite (pow2_Z (a := 53)) by lia. rewrite <- Zlt_Qlt. lia. }
      assert (Xk : (0 <= inject_Z k)%Q).
      { change 0%Q with (inject_Z 0). rewrite <- Zle_Qle. exact K0. }
      assert (Nrm : (pow2 (-1022) <= q)%Q).
      { apply Qle_trans with ic.
        - apply Qle_trans with (pow2 (-53)); [apply pow2_le; lia|].
          unfold ic. apply Qle_shift_inv_l; [exact Pc|].
          assert (C : (pow2 (-53) * pow2 53 == 1)%Q) by reflexivity.
          rewrite <- C. rewrite !(Qmult_comm (pow2 (-53))).
          apply Qmult_le_compat_r; [|apply Qlt_le_weak, pow2_gt_0].
          rewrite (pow2_Z (a := 53)) by lia. rewrite <- Zle_Qle. lia.
        - revert A Xk. generalize (inject_Z k). intros x A Xk. lra. }
      destruct (round64_error Nrm) as [_ E2].
      revert A B E2. generalize (q * pow2 (-53))%Q, (inject_Z k), (round64 q).
      intros er x y A B E2. lra.
    + assert (E : (q == inject_Z k)%Q) by (apply Qle_antisym; assumption).
      assert (Hi' : (round64 q <= inject_Z k)%Q).
      { apply round64_le; [apply is_float64_Z; lia | exact S]. }
      assert (E' : (round64 q == inject_Z k)%Q) by (apply Qle_antisym; assumption).
      rewrite (Qceiling_comp _ _ E), (Qceiling_comp _ _ E'). reflexivity.
Qed.

(** ** The fast-forward loop *)

Section FfwdFacts.
Variable cap : Capability.
Variable video_src : path.
Variable probe_info : VideoProbeInfo.
Variable padding_buffer : Z.

Let body := ffwd_body cap video_src probe_info padding_buffer.
Let loop := ffwd_loop cap video_src probe_info padding_buffer.
Let next := ffwd_next cap padding_buffer.

Lemma ffwd_body_ok st w st' w' :
  body st w = (Ok st', w') -> st' = next st.
Proof.
  unfold body, ffwd_body. intro H. run_monad H.
  inversion H. reflexivity.
Qed.

Lemma ffwd_body_never_out_of_fuel st w w' :
  body st w <> (OutOfFuel, w').
Proof.
  unfold body, ffwd_body. intro H. run_monad H.
Qed.

Lemma fit_ge_ceiling (d : Q) : 0 <= padding_buffer -> Qceiling d <= fit d padding_buffer.
Proof.
  intro H. unfold fit. apply Qceiling_resp_le.
  rewrite <- (Qplus_0_r d) at 1.
  apply Qplus_le_r. change 0%Q with (inject_Z 0). rewrite <- Zle_Qle. exact H.
Qed.

Lemma ffwd_init_inv : ffwd_inv probe_info padding_buffer (ffwd_init probe_info padding_buffer).
Proof.
  constructor; simpl; try reflexivity.
  - exists 0%nat. split; reflexivity.
  - intro H. constructor; [apply fit_ge_ceiling; exact H | constructor].
  - intros i H. lia.
Qed.

Lemma ffwd_next_inv st :
  ffwd_inv probe_info padding_buffer st -> (1 < st_ffwd_duration st)%Q ->
  ffwd_inv probe_info padding_buffer (next st).
Proof.
  intros [[n [Hc Hr]] Hrate Hld Hlp Hpad Hfirst Hlast Hbefore] Hgt.
  constructor; unfold next, ffwd_next;
    cbn [st_rates st_durations st_padded st_doubling_count st_rate st_ffwd_duration].
  - exists (S n). split.
    + rewrite Hc. lia.
    + rewrite Hr, Hrate, Hc.
      rewrite (seq_S (S n) 0), map_app. reflexivity.
  - reflexivity.
  - rewrite !length_app, Hld. reflexivity.
  - rewrite !length_app, Hlp. reflexivity.
  - intro H. apply Forall2_app; [exact (Hpad H)|].
    constructor; [apply fit_ge_ceiling; exact H | constructor].
  - rewrite app_nth1; [exact Hfirst|].
    rewrite Hld, Hr, length_map, length_seq. lia.
  - apply last_last.
  - intros i Hi. rewrite length_app in Hi. simpl in Hi.
    assert (Hne : st_durations st <> []).
    { intro E. rewrite E in Hld. rewrite Hr in Hld. simpl in Hld. discriminate. }
    destruct (Nat.eq_dec (S i) (List.length (st_durations st))) as [E|NE].
    + rewrite app_nth1 by lia.
      rewrite <- Hlast in Hgt.
      rewrite (app_removelast_last 0%Q Hne) at 1.
      assert (Hl : List.length (removelast (st_durations st)) = i).
      { pose proof (f_equal (@List.length Q) (app_removelast_last 0%Q Hne)) as L.
        rewrite length_app in L. simpl in L. lia. }
      rewrite app_nth2 by lia. rewrite Hl, Nat.sub_diag. exact Hgt.
    + rewrite app_nth1 by lia. apply Hbefore. lia.
Qed.

Lemma ffwd_loop_inv fuel : forall st w st' w',
  ffwd_inv probe_info padding_buffer st -> loop fuel st w = (Ok st', w') ->
  ffwd_inv probe_info padding_buffer st' /\ (st_ffwd_duration st' <= 1)%Q.
Proof.
  induction fuel as [|fuel IH]; intros st w st' w' Hinv H; unfold loop in H; simpl in H.
  - destruct (Qgtb (st_ffwd_duration st) 1) eqn:E.
    + discriminate H.
    + inversion H; subst. split; [exact Hinv | apply Qgtb_false; exact E].
  - destruct (Qgtb (st_ffwd_duration st) 1) eqn:E.
    + unfold bind in H.
      destruct (ffwd_body cap video_src probe_info padding_buffer st w)
        as [[st1|e|] w1] eqn:B; try discriminate H.
      apply ffwd_body_ok in B. subst st1.
      apply (IH _ _ _ _ (ffwd_next_inv Hinv (proj1 (Qgtb_true _ _) E)) H).
    + inversion H; subst. split; [exact Hinv | apply Qgtb_false; exact E].
Qed.

(** More fuel never changes a result. *)
Lemma ffwd_loop_fuel_mono fuel : forall fuel' st w st' w',
  (fuel <= fuel')%nat -> loop fuel st w = (Ok st', w') ->
  loop fuel' st w = (Ok st', w').
Proof.
  induction fuel as [|fuel IH]; intros fuel' st w st' w' Hle H; unfold loop in *.
  - simpl in H. destruct fuel'; simpl;
      destruct (Qgtb (st_ffwd_duration st) 1); try discriminate H; exact H.
  - destruct fuel' as [|fuel']; [lia|].
    simpl in *. destruct (Qgtb (st_ffwd_duration st) 1); [|exact H].
    unfold bind in *.
    destruct (ffwd_body cap video_src probe_info padding_buffer st w)
      as [[st1|e|] w1]; try discriminate H.
    apply IH; [lia | exact H].
Qed.

Let run fuel out bad := make_ffwd_concat_video cap video_src probe_info padding_buffer fuel out bad.

(** The returned metadata are the loop variables at the exit of a
    loop started from [ffwd_init]. *)
Lemma make_ffwd_returns fuel out bad w res dest w' :
  run fuel out bad w = (Ok (res, dest), w') ->
  exists st w0 w1,
    loop fuel (ffwd_init probe_info padding_buffer) w0 = (Ok st, w1) /\
    res = {| rates := st_rates st; durations := st_durations st;
             padded_durations := st_padded st |}.
Proof.
  unfold run, make_ffwd_concat_video. intro H. run_monad H.
  all: match type of H with
       | context [ffwd_loop ?c ?v ?p ?b ?f ?s ?w0] =>
           destruct (ffwd_loop c v p b f s w0) as [[st|e|] w1] eqn:L;
           cbv beta iota in H; try discriminate H;
           exists st, w0, w1
       end.
  all: split; [exact L|].
  all: run_monad H; inversion H; reflexivity.
Qed.

Lemma make_ffwd_fuel_mono fuel fuel' out bad w r w' :
  (fuel <= fuel')%nat ->
  run fuel out bad w = (Ok r, w') -> run fuel' out bad w = (Ok r, w').
Proof.
  unfold run, make_ffwd_concat_video. intros Hle H.
  cbv beta iota zeta delta
    [bind ret raise log_call run_ffmpeg
     create_blank_audio extract_audio create_padded_audio
     create_time_padded_video concatenate_media mux_video_audio] in *.
  repeat (match type of H with
          | context [run_ok ?c ?o] => destruct (run_ok c o)
          end; cbv beta iota in *); try discriminate H.
  all: match type of H with
       | context [ffwd_loop ?c ?v ?p ?b ?f ?s ?w0] =>
           destruct (ffwd_loop c v p b f s w0) as [[st|e|] w1] eqn:L;
           cbv beta iota in H; try discriminate H;
           let L' := fresh "L" in
           pose proof (ffwd_loop_fuel_mono _ _ Hle L) as L';
           unfold loop in L'; rewrite L'
       end.
  all: exact H.
Qed.
End FfwdFacts.

Lemma Forall2_nth_rel (A B : Type) (R : A -> B -> Prop) (l1 : list A) (l2 : list B) :
  Forall2 R l1 l2 ->
  forall i d1 d2, (i < List.length l1)%nat -> R (nth i l1 d1) (nth i l2 d2).
Proof.
  induction 1 as [|x y l1 l2 Hxy _ IH]; intros i d1 d2 Hi; simpl in Hi.
  - lia.
  - destruct i as [|i]; simpl; [exact Hxy | apply IH; lia].
Qed.

Lemma nth_map_seq (A : Type) (f : nat -> A) (n i : nat) (d : A) :
  (i < n)%nat -> nth i (map f (seq 0 n)) d = f i.
Proof.
  intro Hi.
  rewrite (nth_indep _ d (f 0%nat)) by (rewrite length_map, length_seq; exact Hi).
  rewrite map_nth, seq_nth by exact Hi. reflexivity.
Qed.

Lemma nth_powers (n i : nat) :
  (i < n)%nat -> nth i (map (fun k => 2 ^ Z.of_nat k) (seq 0 n)) 0 = 2 ^ Z.of_nat i.
Proof. apply nth_map_seq. Qed.

(** C5.  Whatever the tools answer, a [VideoSegmentData] that
    [make_ffwd_concat_video] returns has [rates[0] == 1], every later
    rate twice its predecessor, three sequences of one length, and, for a
    non-negative [padding_buffer], every padded duration at least the
    ceiling of the actual duration of its segment. *)
Theorem ffwd_segment_data_invariants
        (cap : Capability) (video_src : path) (probe_info : VideoProbeInfo)
        (padding_buffer : Z) (fuel : nat) (output_filename : string)
        (blank_audio_duration : Q) (w w' : world)
        (res : VideoSegmentData) (dest : path) :
  make_ffwd_concat_video cap video_src probe_info padding_buffer fuel
    output_filename blank_audio_duration w = (Ok (res, dest), w') ->
  nth_error (rates res) 0 = Some 1 /\
  (forall i, (0 < i < List.length (rates res))%nat ->
             nth i (rates res) 0 = 2 * nth (i - 1) (rates res) 0) /\
  List.length (rates res) = List.length (durations res) /\
  List.length (durations res) = List.length (padded_durations res) /\
  (0 <= padding_buffer ->
   forall i, (i < List.length (rates res))%nat ->
             Qceiling (nth i (durations res) 0%Q) <= nth i (padded_durations res) 0).
Proof.
  intro H. apply make_ffwd_returns in H. destruct H as [st [w0 [w1 [L E]]]].
  apply ffwd_loop_inv in L; [|apply ffwd_init_inv].
  destruct L as [[[n [Hc Hr]] Hrate Hld Hlp Hpad Hfirst Hlast Hbefore] _].
  subst res. cbn [rates durations padded_durations].
  repeat split.
  - rewrite Hr. reflexivity.
  - intros i [Hi0 Hi]. rewrite Hr in *. rewrite length_map, length_seq in Hi.
    rewrite !nth_powers by lia.
    replace (Z.of_nat i) with (Z.succ (Z.of_nat (i - 1))) by lia.
    rewrite Z.pow_succ_r by lia. reflexivity.
  - symmetry. exact Hld.
  - rewrite Hld, Hlp. reflexivity.
  - intros Hpb i Hi.
    apply (Forall2_nth_rel (Hpad Hpb) (i := i) 0%Q 0).
    rewrite Hld. exact Hi.
Qed.

Lemma ffwd_segment_data_invariants_witness :
  let res := {| rates := [1; 2; 4; 8; 16];
                durations := [93 # 10; 93 # 20; 93 # 40; 93 # 80; 93 # 160]%Q;
                padded_durations := [11; 6; 4; 3; 2] |} in
  nth_error (rates res) 0 = Some 1 /\
  (forall i, (0 < i < List.length (rates res))%nat ->
             nth i (rates res) 0 = 2 * nth (i - 1) (rates res) 0) /\
  List.length (rates res) = List.length (durations res) /\
  List.length (durations res) = List.length (padded_durations res) /\
  (0 <= 1 ->
   forall i, (i < List.length (rates res))%nat ->
             Qceiling (nth i (durations res) 0%Q) <= nth i (padded_durations res) 0).
Proof.
  intro res.
  eapply (@ffwd_segment_data_invariants (ideal_cap (93 # 10)) (External "in.mp4")
            (blank_probe (93 # 10)) 1 4 "out.mp4" 5 empty_world _ res).
  vm_compute. reflexivity.
Defined.

(** ** Runs on the ideal capability *)

Lemma ffwd_result_fuel_mono (fuel fuel' : nat) (d : Q) (padding_buffer : Z) r :
  (fuel <= fuel')%nat ->
  ffwd_result fuel d padding_buffer = Ok r -> ffwd_result fuel' d padding_buffer = Ok r.
Proof.
  unfold ffwd_result. intros Hle H.
  destruct (make_ffwd_concat_video (ideal_cap d) (External "in.mp4") (blank_probe d)
              padding_buffer fuel "out.mp4" 5 empty_world) as [o w'] eqn:E.
  simpl in H. subst o.
  apply make_ffwd_fuel_mono with (fuel' := fuel') in E; [|exact Hle].
  rewrite E. reflexivity.
Qed.

Lemma ideal_body_ok (d : Q) src pi pb st w :
  exists w1, ffwd_body (ideal_cap d) src pi pb st w
             = (Ok (ffwd_next (ideal_cap d) pb st), w1).
Proof.
  unfold ffwd_body.
  cbv beta iota zeta delta
    [bind ret raise log_call run_ffmpeg probe_video create_fast_forward_video
     create_time_padded_video create_fast_forward_audio concatenate_media
     run_ok ideal_cap].
  eexists. reflexivity.
Qed.

Lemma pow2_pos (k : Z) : 0 <= k -> (0 < inject_Z (2 ^ k))%Q.
Proof.
  intro H. change 0%Q with (inject_Z 0). rewrite <- Zlt_Qlt.
  apply Z.pow_pos_nonneg; lia.
Qed.

Lemma ideal_loop_terminates (d : Q) src pi pb (fuel : nat) : forall st w,
  1 <= st_doubling_count st ->
  st_rate st = 2 ^ st_doubling_count st ->
  (st_ffwd_duration st * inject_Z (2 ^ (st_doubling_count st - 1)) == d)%Q ->
  (d <= inject_Z (2 ^ (st_doubling_count st - 1 + Z.of_nat fuel)))%Q ->
  exists st' w', ffwd_loop (ideal_cap d) src pi pb fuel st w = (Ok st', w').
Proof.
  induction fuel as [|fuel IH]; intros st w Hdc Hrate Hd Hbound.
  - simpl. destruct (Qgtb (st_ffwd_duration st) 1) eqn:E.
    + exfalso. apply Qgtb_true in E.
      rewrite Z.add_0_r in Hbound. rewrite <- Hd in Hbound.
      assert (P := pow2_pos (k := st_doubling_count st - 1) ltac:(lia)).
      rewrite <- (Qmult_1_l (inject_Z _)) in Hbound at 2.
      apply Qmult_le_r in Hbound; [|exact P].
      exact (Qlt_not_le _ _ E Hbound).
    + eexists. eexists. reflexivity.
  - simpl. destruct (Qgtb (st_ffwd_duration st) 1) eqn:E.
    + destruct (ideal_body_ok d src pi pb st w) as [w1 B].
      unfold bind. rewrite B.
      apply IH; unfold ffwd_next; cbn [st_doubling_count st_rate st_ffwd_duration].
      * lia.
      * reflexivity.
      * cbn [probe_of ideal_cap duration blank_probe].
        replace (st_doubling_count st + 1 - 1) with (st_doubling_count st) by lia.
        rewrite Hrate. rewrite Qmult_comm. apply Qmult_div_r.
        intro Z0. assert (P := pow2_pos (k := st_doubling_count st) ltac:(lia)).
        rewrite Z0 in P. exact (Qlt_irrefl _ P).
      * replace (st_doubling_count st + 1 - 1 + Z.of_nat fuel)
          with (st_doubling_count st - 1 + Z.of_nat (S fuel)) by lia.
        exact Hbound.
    + eexists. eexists. reflexivity.
Qed.

Lemma enough_fuel_bound (d : Q) : (d <= inject_Z (2 ^ Z.of_nat (enough_fuel d)))%Q.
Proof.
  unfold enough_fuel.
  apply Qle_trans with (inject_Z (Qceiling d)); [apply Qle_ceiling|].
  rewrite <- Zle_Qle.
  destruct (Z_lt_le_dec (Qceiling d) 0) as [N|N].
  - replace (Z.to_nat (Qceiling d)) with 0%nat by lia. simpl. lia.
  - rewrite Z2Nat.id by exact N.
    apply Z.lt_le_incl, Z.pow_gt_lin_r; lia.
Qed.

Lemma ideal_run_returns (d : Q) (padding_buffer : Z) :
  exists r, ffwd_result (enough_fuel d) d padding_buffer = Ok r.
Proof.
  unfold ffwd_result, make_ffwd_concat_video.
  cbv beta iota zeta delta
    [bind ret raise log_call run_ffmpeg create_blank_audio extract_audio
     create_padded_audio create_time_padded_video concatenate_media
     mux_video_audio].
  change (run_ok (ideal_cap d)) with (fun _ : op => true).
  cbv beta iota.
  match goal with
  | |- context [ffwd_loop ?c ?v ?p ?b ?f ?s ?w0] =>
      destruct (@ideal_loop_terminates d v p b f s w0) as [st' [w' L]];
      [ | | | | rewrite L; eexists; reflexivity ]
  end.
  - cbn. lia.
  - reflexivity.
  - cbn [st_ffwd_duration st_doubling_count duration blank_probe].
    change (2 ^ (1 - 1)) with 1. apply Qmult_1_r.
  - cbn [st_doubling_count]. rewrite Z.sub_diag, Z.add_0_l. apply enough_fuel_bound.
Qed.

(** What every returned [durations] list looks like, on any capability:
    it starts with the probed source duration, every entry before the
    last exceeds one second and the last does not. *)
Lemma ffwd_durations_shape
      (cap : Capability) (video_src : path) (probe_info : VideoProbeInfo)
      (padding_buffer : Z) (fuel : nat) (output_filename : string)
      (blank_audio_duration : Q) (w w' : world)
      (res : VideoSegmentData) (dest : path) :
  make_ffwd_concat_video cap video_src probe_info padding_buffer fuel
    output_filename blank_audio_duration w = (Ok (res, dest), w') ->
  nth 0 (durations res) 0%Q = duration probe_info /\
  (forall i, (S i < List.length (durations res))%nat ->
             (1 < nth i (durations res) 0)%Q) /\
  (last (durations res) 0 <= 1)%Q.
Proof.
  intro H. apply make_ffwd_returns in H. destruct H as [st [w0 [w1 [L E]]]].
  apply ffwd_loop_inv in L; [|apply ffwd_init_inv].
  destruct L as [[_ _ _ _ _ Hfirst Hlast Hbefore] Hexit].
  subst res. cbn [durations].
  repeat split; [exact Hfirst | exact Hbefore | rewrite Hlast; exact Hexit].
Qed.

(** C10.  For a source longer than one second whose sped-up copies
    re-probe at [source_duration / rate], the builder returns, and in
    what it returns every duration before the last exceeds one second
    while the last one is at most one second: the first segment that
    drops to one second or less is itself built and kept (so there are
    at least two segments). *)
Theorem ffwd_last_segment_is_the_short_one (d : Q) (padding_buffer : Z) :
  (1 < d)%Q ->
  (exists fuel r, ffwd_result fuel d padding_buffer = Ok r) /\
  (forall fuel res dest,
      ffwd_result fuel d padding_buffer = Ok (res, dest) ->
      (2 <= List.length (durations res))%nat /\
      (forall i, (S i < List.length (durations res))%nat ->
                 (1 < nth i (durations res) 0)%Q) /\
      (last (durations res) 0 <= 1)%Q).
Proof.
  intro Hd. split.
  - exists (enough_fuel d). apply ideal_run_returns.
  - intros fuel res dest H. unfold ffwd_result in H.
    destruct (make_ffwd_concat_video (ideal_cap d) (External "in.mp4") (blank_probe d)
                padding_buffer fuel "out.mp4" 5 empty_world) as [o w'] eqn:E.
    simpl in H. subst o.
    apply ffwd_durations_shape in E. destruct E as [Hfirst [Hbefore Hlast]].
    cbn [duration blank_probe] in Hfirst.
    repeat split; [| exact Hbefore | exact Hlast].
    destruct (durations res) as [|x [|y l]]; simpl in *.
    + exfalso. subst d. vm_compute in Hd. discriminate Hd.
    + exfalso. subst x. exact (Qlt_not_le _ _ Hd Hlast).
    + lia.
Qed.

Lemma ffwd_last_segment_is_the_short_one_witness :
  (exists fuel r, ffwd_result fuel (93 # 10) 1 = Ok r) /\
  (forall fuel res dest,
      ffwd_result fuel (93 # 10) 1 = Ok (res, dest) ->
      (2 <= List.length (durations res))%nat /\
      (forall i, (S i < List.length (durations res))%nat ->
                 (1 < nth i (durations res) 0)%Q) /\
      (last (durations res) 0 <= 1)%Q).
Proof.
  apply (@ffwd_last_segment_is_the_short_one (93 # 10) 1).
  reflexivity.
Defined.

Lemma scenario_run : ffwd_result 4 (93 # 10) 1 = Ok (scenario_data, InWork "out.mp4").
Proof. vm_compute. reflexivity. Qed.

Lemma scenario_unique (fuel : nat) r :
  ffwd_result fuel (93 # 10) 1 = Ok r -> r = (scenario_data, InWork "out.mp4").
Proof.
  intro H. destruct (Nat.le_ge_cases fuel 4) as [L|L].
  - apply ffwd_result_fuel_mono with (fuel' := 4%nat) in H; [|exact L].
    rewrite scenario_run in H. inversion H. reflexivity.
  - pose proof scenario_run as H'.
    apply ffwd_result_fuel_mono with (fuel' := fuel) in H'; [|exact L].
    rewrite H in H'. inversion H'. reflexivity.
Qed.

(** C1, as the code behaves.  A 9.3-second source with
    [padding_buffer = 1] and re-probes at [source_duration / rate] gives
    five segments: rates 1, 2, 4, 8, 16, padded to 11, 6, 4, 3 and 2
    seconds, 26 seconds in all.  The rate-16 segment (0.58125 s) is
    built and kept; the loop stops only after it. *)
Theorem ffwd_scenario_9_3 :
  ffwd_result 4 (93 # 10) 1 = Ok (scenario_data, InWork "out.mp4") /\
  (forall fuel res dest,
      ffwd_result fuel (93 # 10) 1 = Ok (res, dest) ->
      rates res = [1; 2; 4; 8; 16] /\
      padded_durations res = [11; 6; 4; 3; 2] /\
      sum_Z (padded_durations res) = 26 /\
      (last (durations res) 0 == 93 # 160)%Q).
Proof.
  split; [exact scenario_run|].
  intros fuel res dest H. apply scenario_unique in H.
  inversion H. repeat split; reflexivity.
Qed.

(** C1 as worded fails: no run of the scenario returns the four
    segments 1, 2, 4, 8 padded to 11, 6, 4, 3. *)
Lemma ffwd_scenario_not_four_segments :
  ~ (exists fuel res dest,
        ffwd_result fuel (93 # 10) 1 = Ok (res, dest) /\
        rates res = [1; 2; 4; 8] /\
        padded_durations res = [11; 6; 4; 3] /\
        sum_Z (padded_durations res) = 24).
Proof.
  intros [fuel [res [dest [H [Hr _]]]]].
  apply scenario_unique in H. inversion H. subst res.
  discriminate Hr.
Qed.

(** ** The joiner *)

(** C9.  [join_videos] on an empty list raises [ValueError] and leaves
    the world as it found it: no probe, no blank-audio clip, no padded
    segment, no file-system call comes before the error. *)
Theorem join_videos_empty_input
        (cap : Capability) (padding_buffer : Z) (export_file : path)
        (blank_audio_duration : Q) (w : world) :
  join_videos cap padding_buffer [] export_file blank_audio_duration w
  = (Raise ValueError, w).
Proof. reflexivity. Qed.

(** ** The montage layout *)

Lemma Qdiv_0_l (q : Q) : (inject_Z 0 / q == 0)%Q.
Proof. unfold Qdiv. apply Qmult_0_l. Qed.

Lemma ceil_sqrt_nonneg (q : Q) : 0 <= ceil_sqrt q.
Proof.
  unfold ceil_sqrt. rewrite <- (Qceiling_Z 0). apply Qceiling_resp_le, fsqrt_nonneg.
Qed.

Lemma ceil_sqrt_pos_inv (q : Q) : ceil_sqrt q <> 0 -> (0 < q)%Q.
Proof.
  intro H. apply fsqrt_pos_inv. intro E. apply H.
  unfold ceil_sqrt. rewrite (Qceiling_comp _ _ E). reflexivity.
Qed.

Lemma montage_layout_ok (probe_info : VideoProbeInfo) (tw max_dim : Z) (ly : layout) :
  montage_layout probe_info tw max_dim = Ok ly ->
  ly_total_seconds ly = Qfloor (duration probe_info) /\
  ly_thumb_height ly
  = Z.max 1 (py_round (fmul (float_of_int tw)
                         (round64 (inject_Z (height probe_info)
                                   / inject_Z (width probe_info))))) /\
  ly_thumb_count ly
  = Z.min (Qfloor (duration probe_info))
          ((max_dim / tw) * (max_dim / ly_thumb_height ly)) /\
  1 <= ly_thumb_count ly /\
  1 <= ly_cols ly /\
  ly_rows ly
  = Qceiling (round64 (inject_Z (ly_thumb_count ly) / inject_Z (ly_cols ly))) + 1.
Proof.
  unfold montage_layout, true_div, floor_div, obind.
  destruct (width probe_info =? 0); [discriminate|].
  destruct (tw =? 0); [discriminate|].
  set (th := Z.max 1 (py_round _)).
  destruct (th =? 0); [discriminate|].
  set (tc := Z.min _ _).
  set (spr := Z.max 1 (Qfloor _)).
  destruct (spr =? 0) eqn:Espr; [discriminate|].
  destruct (Qgtb 0 (round64 (inject_Z tc / inject_Z spr))) eqn:Eneg; [discriminate|].
  destruct (ceil_sqrt (round64 (inject_Z tc / inject_Z spr)) =? 0) eqn:Ecols;
    [discriminate|].
  intro H. inversion H; subst ly; clear H. cbn.
  apply Z.eqb_neq in Ecols.
  pose proof (ceil_sqrt_nonneg (round64 (inject_Z tc / inject_Z spr))) as Hnn.
  assert (Hspr : (0 < inject_Z spr)%Q).
  { change 0%Q with (inject_Z 0). rewrite <- Zlt_Qlt. unfold spr. lia. }
  assert (Htc : 1 <= tc).
  { apply ceil_sqrt_pos_inv, round64_pos_inv in Ecols.
    apply (Qmult_lt_compat_r _ _ (inject_Z spr)) in Ecols; [|exact Hspr].
    rewrite Qmult_0_l in Ecols.
    unfold Qdiv in Ecols.
    rewrite <- Qmult_assoc, (Qmult_comm (/ _)), Qmult_inv_r, Qmult_1_r in Ecols.
    - change 0%Q with (inject_Z 0) in Ecols. rewrite <- Zlt_Qlt in Ecols. lia.
    - intro Z0. rewrite Z0 in Hspr. exact (Qlt_irrefl _ Hspr). }
  repeat split; try reflexivity; lia.
Qed.

Lemma Qfloor_unit_interval (d : Q) : (0 <= d)%Q -> (d < 1)%Q -> Qfloor d = 0.
Proof.
  intros H0 H1.
  pose proof (Qfloor_le d) as Hle. pose proof (Qlt_floor d) as Hlt.
  assert (A : (inject_Z (Qfloor d) < inject_Z 1)%Q) by (eapply Qle_lt_trans; eassumption).
  assert (B : (inject_Z 0 < inject_Z (Qfloor d + 1))%Q) by (eapply Qle_lt_trans; eassumption).
  rewrite <- Zlt_Qlt in A, B. lia.
Qed.

Lemma ceil_sqrt_zero (q : Q) : (q == 0)%Q -> ceil_sqrt q = 0.
Proof.
  intro E. unfold ceil_sqrt. rewrite fsqrt_nonpos; [reflexivity|].
  rewrite E. apply Qle_refl.
Qed.

Lemma montage_layout_short (probe_info : VideoProbeInfo) (tw max_dim : Z) :
  (0 <= duration probe_info)%Q -> (duration probe_info < 1)%Q ->
  1 <= tw -> 0 <= max_dim ->
  montage_layout probe_info tw max_dim = Raise ZeroDivisionError.
Proof.
  intros H0 H1 Htw Hmax.
  unfold montage_layout, true_div, floor_div, obind.
  destruct (width probe_info =? 0); [reflexivity|].
  destruct (tw =? 0) eqn:E; [reflexivity|].
  set (th := Z.max 1 (py_round _)).
  assert (Hth : 1 <= th) by (unfold th; lia).
  destruct (th =? 0) eqn:E'; [reflexivity|].
  rewrite (Qfloor_unit_interval H0 H1).
  assert (Hfit : 0 <= max_dim / tw * (max_dim / th)).
  { apply Z.mul_nonneg_nonneg; apply Z.div_pos; lia. }
  rewrite Z.min_l by exact Hfit.
  set (spr := Z.max 1 (Qfloor _)).
  destruct (spr =? 0); [reflexivity|].
  rewrite (round64_zero (Qdiv_0_l (inject_Z spr))).
  reflexivity.
Qed.

(** C4.  A probed duration of less than one second (and not negative)
    makes [make_montage] raise [ZeroDivisionError] instead of returning:
    [floor(duration)] is 0, so [thumb_count] is 0, the column count is
    [ceil(sqrt(0)) = 0], and [thumb_count / cols] divides by zero.
    Nothing is extracted before the error. *)
Theorem make_montage_short_video_divides_by_zero
        (cap : Capability) (video_file : path) (probe_info : VideoProbeInfo)
        (tw max_dim : Z) (w : world) :
  (0 <= duration probe_info)%Q -> (duration probe_info < 1)%Q ->
  1 <= tw -> 0 <= max_dim ->
  Qfloor (duration probe_info) = 0 /\
  (forall stacks_per_row, ceil_sqrt (inject_Z 0 / inject_Z stacks_per_row) = 0) /\
  true_div 0 0 = Raise ZeroDivisionError /\
  make_montage cap video_file probe_info tw max_dim w = (Raise ZeroDivisionError, w).
Proof.
  intros H0 H1 Htw Hmax. split; [|split; [|split]].
  - apply Qfloor_unit_interval; assumption.
  - intro spr. apply ceil_sqrt_zero, Qdiv_0_l.
  - reflexivity.
  - unfold make_montage, bind, lift.
    rewrite (montage_layout_short _ H0 H1 Htw Hmax). reflexivity.
Qed.

Lemma make_montage_short_video_divides_by_zero_witness :
  Qfloor (duration (blank_probe (1 # 2))) = 0 /\
  (forall stacks_per_row, ceil_sqrt (inject_Z 0 / inject_Z stacks_per_row) = 0) /\
  true_div 0 0 = Raise ZeroDivisionError /\
  make_montage (ideal_cap (1 # 2)) (External "in.mp4") (blank_probe (1 # 2))
    30 MAX_JPEG_DIMENSION empty_world = (Raise ZeroDivisionError, empty_world).
Proof.
  apply (@make_montage_short_video_divides_by_zero (ideal_cap (1 # 2))
           (External "in.mp4") (blank_probe (1 # 2)) 30 MAX_JPEG_DIMENSION empty_world).
  - vm_compute. discriminate.
  - reflexivity.
  - vm_compute. discriminate.
  - vm_compute. discriminate.
Defined.

(** ** The sampling loop *)

Lemma filter_no_match (p : path) (l : list path) :
  existsb (path_eqb p) l = false ->
  filter (fun q => negb (path_eqb p q)) l = l.
Proof.
  induction l as [|q l IH]; simpl; intro H; [reflexivity|].
  apply orb_false_iff in H. destruct H as [Hq Hl].
  rewrite Hq. simpl. rewrite (IH Hl). reflexivity.
Qed.

Lemma path_eqb_frame_refl (s : Z) : path_eqb (Frame s) (Frame s) = true.
Proof. simpl. apply Z.eqb_refl. Qed.

Lemma sample_second_first (thumb_count total_seconds : Z) :
  sample_second thumb_count total_seconds 0 = 0.
Proof.
  unfold sample_second. destruct (thumb_count =? 0); [reflexivity|].
  unfold fmul. rewrite (round64_zero (Qdiv_0_l (inject_Z thumb_count))).
  rewrite round64_zero by apply Qmult_0_l. reflexivity.
Qed.

Lemma sampling_calls_cons (video_file : path) (n total : Z) (i : Z) (r : bool)
      (indices : list Z) (retries : list bool) :
  sampling_calls video_file n total (i :: indices) (r :: retries)
  = iteration_calls video_file (sample_second n total i) r
    ++ sampling_calls video_file n total indices retries.
Proof. reflexivity. Qed.

Section SamplingFacts.
Variable cap : Capability.
Variable video_file : path.
Variables thumb_count total_seconds : Z.

(** When an iteration retries: its second is positive, and its first
    extraction wrote no frame. *)
Let retried (i : Z) (retry : bool) : Prop :=
  retry = true ->
  0 < sample_second thumb_count total_seconds i /\
  frame_written cap (sample_second thumb_count total_seconds i) = false.

Lemma sample_frame_calls thumbnails i w out w' :
  sample_frame cap video_file thumb_count total_seconds thumbnails i w = (Ok out, w') ->
  exists retry : bool,
    calls w'
    = calls w ++ iteration_calls video_file
                   (sample_second thumb_count total_seconds i) retry /\
    retried i retry /\
    (List.length out <= S (List.length thumbnails))%nat.
Proof.
  unfold retried, sample_frame.
  set (sec := sample_second thumb_count total_seconds i).
  intro H.
  cbv beta iota zeta delta
    [bind ret raise log_call extract_frame path_exists unlink open_thumbnail] in H.
  cbn [calls files] in H.
  destruct (run_ok cap (Op_extract_frame video_file (Frame sec) sec));
    cbv beta iota in H; [|discriminate H].
  cbn [calls files] in H.
  destruct (negb (existsb (path_eqb (Frame sec))
                    (if frame_written cap sec then Frame sec :: files w else files w))
            && (0 <? sec)) eqn:B; cbv beta iota in H; cbn [calls files] in H.
  - destruct (run_ok cap (Op_extract_frame video_file (Frame sec) (sec - 1)));
      cbv beta iota in H; [|discriminate H].
    cbn [calls files] in H.
    exists true. unfold iteration_calls.
    apply andb_prop in B. destruct B as [B1 B2].
    split; [|split].
    + repeat (match type of H with
              | context [if ?b then _ else _] => destruct b
              end; cbv beta iota in H); try discriminate H;
        inversion H; cbn [calls]; rewrite <- app_assoc; reflexivity.
    + intros _. split; [apply Z.ltb_lt; exact B2|].
      destruct (frame_written cap sec); [|reflexivity].
      cbn [existsb] in B1. rewrite path_eqb_frame_refl in B1. discriminate B1.
    + repeat (match type of H with
              | context [if ?b then _ else _] => destruct b
              end; cbv beta iota in H); try discriminate H;
        inversion H; try rewrite length_app; simpl; lia.
  - exists false. unfold iteration_calls. split; [|split].
    + repeat (match type of H with
              | context [if ?b then _ else _] => destruct b
              end; cbv beta iota in H); try discriminate H;
        inversion H; cbn [calls]; reflexivity.
    + discriminate.
    + repeat (match type of H with
              | context [if ?b then _ else _] => destruct b
              end; cbv beta iota in H); try discriminate H;
        inversion H; try rewrite length_app; simpl; lia.
Qed.

Lemma sample_loop_calls indices : forall thumbnails w out w',
  sample_loop cap video_file thumb_count total_seconds indices thumbnails w
  = (Ok out, w') ->
  exists retries : list bool,
    List.length retries = List.length indices /\
    calls w'
    = calls w ++ sampling_calls video_file thumb_count total_seconds indices retries /\
    Forall2 retried indices retries /\
    (List.length out <= List.length thumbnails + List.length indices)%nat.
Proof.
  induction indices as [|i rest IH]; intros thumbnails w out w' H; simpl in H.
  - inversion H. exists []. split; [reflexivity|]. split; [symmetry; apply app_nil_r|].
    split; [constructor | lia].
  - unfold bind in H.
    destruct (sample_frame cap video_file thumb_count total_seconds thumbnails i w)
      as [[t1|e|] w1] eqn:F; try discriminate H.
    apply sample_frame_calls in F. destruct F as [r [C1 [R1 L1]]].
    apply IH in H. destruct H as [rs [Len [C2 [R2 L2]]]].
    exists (r :: rs). split; [cbn; rewrite Len; reflexivity|]. split; [|split].
    + rewrite sampling_calls_cons, C2, C1, app_assoc. reflexivity.
    + constructor; assumption.
    + cbn [List.length]. lia.
Qed.
End SamplingFacts.

Lemma range_length (n : Z) : 0 <= n -> Z.of_nat (List.length (range n)) = n.
Proof. intro H. unfold range. rewrite length_map, length_seq. lia. Qed.

Lemma range_In (n i : Z) : In i (range n) <-> 0 <= i < n.
Proof.
  unfold range. rewrite in_map_iff. split.
  - intros [k [E Hk]]. apply in_seq in Hk. lia.
  - intro H. exists (Z.to_nat i). split; [lia | apply in_seq; lia].
Qed.

(** What a returning [make_montage] did and recorded. *)
Lemma make_montage_returns
      (cap : Capability) (video_file : path) (probe_info : VideoProbeInfo)
      (tw max_dim : Z) (w w' : world) (data : MontageData) (dest : path) :
  make_montage cap video_file probe_info tw max_dim w = (Ok (data, dest), w') ->
  exists ly retries (kept : nat),
    montage_layout probe_info tw max_dim = Ok ly /\
    data = {| thumb_width := tw; thumb_height := ly_thumb_height ly;
              columns := ly_cols ly; thumb_count := ly_thumb_count ly |} /\
    List.length retries = List.length (range (ly_thumb_count ly + 1)) /\
    Forall2 (fun i (retry : bool) =>
               retry = true ->
               0 < sample_second (ly_thumb_count ly) (ly_total_seconds ly) i /\
               frame_written cap
                 (sample_second (ly_thumb_count ly) (ly_total_seconds ly) i) = false)
            (range (ly_thumb_count ly + 1)) retries /\
    (kept <= List.length (range (ly_thumb_count ly + 1)))%nat /\
    calls w'
    = calls w
      ++ Op_mkdir FrameDir
         :: sampling_calls video_file (ly_thumb_count ly) (ly_total_seconds ly)
              (range (ly_thumb_count ly + 1)) retries
      ++ [Op_save_jpeg (InWork "montage.jpg") (ly_cols ly * tw)
            (ly_rows ly * ly_thumb_height ly)
            (map (paste_position (ly_cols ly) tw (ly_thumb_height ly)) (seq 0 kept))] /\
    ly_cols ly * tw <= JPEG_ENCODER_LIMIT /\
    ly_rows ly * ly_thumb_height ly <= JPEG_ENCODER_LIMIT.
Proof.
  unfold make_montage. intro H. unfold bind at 1, lift in H.
  destruct (montage_layout probe_info tw max_dim) as [ly|e|] eqn:L; try discriminate H.
  exists ly. unfold bind at 1, log_call at 1 in H. unfold bind at 1 in H.
  match type of H with
  | context [sample_loop ?c ?v ?tc ?ts ?ix ?th ?w0] =>
      destruct (sample_loop c v tc ts ix th w0) as [[thumbs|e|] w1] eqn:S;
      try discriminate H;
      apply sample_loop_calls in S; destruct S as [retries [Len [C [R K]]]]
  end.
  exists retries, (List.length thumbs).
  cbv beta iota zeta delta [bind ret raise log_call save_jpeg new_canvas] in H.
  destruct (canvas_ok cap (ly_cols ly * tw) (ly_rows ly * ly_thumb_height ly));
    [|discriminate H].
  cbv beta iota in H. cbn [calls files] in H.
  destruct (ly_cols ly * tw <=? JPEG_ENCODER_LIMIT) eqn:Gw; [|discriminate H].
  destruct (ly_rows ly * ly_thumb_height ly <=? JPEG_ENCODER_LIMIT) eqn:Gh;
    [|discriminate H].
  cbn [andb] in H.
  match type of H with
  | context [run_ok ?c ?o] => destruct (run_ok c o)
  end; [|discriminate H].
  inversion H; subst.
  cbn [calls] in *.
  split; [reflexivity|]. split; [reflexivity|]. split; [exact Len|].
  split; [exact R|]. split; [cbn [List.length] in K; exact K|].
  split; [|split; apply Z.leb_le; assumption].
  rewrite C. cbn [calls]. rewrite <- !app_assoc. reflexivity.
Qed.






(** ** The grid against the JPEG limit *)

(** The grid of a returned [MontageData]: at least one column and one
    thumbnail, thumbnails of at least one pixel each way, a canvas the
    encoder took, and a row count that is the exact ceiling plus one. *)
Lemma make_montage_grid
      (cap : Capability) (video_file : path) (probe_info : VideoProbeInfo)
      (tw max_dim : Z) (w w' : world) (data : MontageData) (dest : path) :
  make_montage cap video_file probe_info tw max_dim w = (Ok (data, dest), w') ->
  exists ly (kept : nat),
    data = {| thumb_width := tw; thumb_height := ly_thumb_height ly;
              columns := ly_cols ly; thumb_count := ly_thumb_count ly |} /\
    1 <= tw /\ 1 <= ly_thumb_height ly /\ 1 <= ly_cols ly /\ 1 <= ly_thumb_count ly /\
    ly_rows ly
    = Qceiling (inject_Z (ly_thumb_count ly) / inject_Z (ly_cols ly)) + 1 /\
    ly_cols ly * tw <= JPEG_ENCODER_LIMIT /\
    ly_rows ly * ly_thumb_height ly <= JPEG_ENCODER_LIMIT /\
    (kept <= List.length (range (ly_thumb_count ly + 1)))%nat /\
    last_call (calls w')
    = Some (Op_save_jpeg (InWork "montage.jpg") (ly_cols ly * tw)
              (ly_rows ly * ly_thumb_height ly)
              (map (paste_position (ly_cols ly) tw (ly_thumb_height ly)) (seq 0 kept))).
Proof.
  intro H. apply make_montage_returns in H.
  destruct H as [ly [retries [kept [L [D [_ [_ [K [C [Gw Gh]]]]]]]]]].
  exists ly, kept.
  pose proof (montage_layout_ok _ _ _ L) as [_ [Hh [Hc [Hpos [Hcols Hrows]]]]].
  assert (Hth : 1 <= ly_thumb_height ly) by (rewrite Hh; lia).
  assert (Htw : 1 <= tw).
  { set (th := ly_thumb_height ly) in *.
    assert (Hfit : 1 <= max_dim / tw * (max_dim / th)) by lia.
    destruct (Z_lt_le_dec 0 tw) as [P|N]; [lia|exfalso].
    destruct (Z.eq_dec tw 0) as [Z0|NZ].
    - subst tw. rewrite Z.div_0_r in Hfit. lia.
    - assert (Hneg : 0 < - tw) by lia.
      rewrite <- (Z.div_opp_opp max_dim tw) in Hfit by exact NZ.
      destruct (Z_lt_le_dec max_dim 0) as [M|M].
      + assert (0 <= - max_dim / - tw) by (apply Z.div_pos; lia).
        assert (max_dim / th <= 0) by (apply Z.div_le_upper_bound; lia).
        nia.
      + assert (- max_dim / - tw <= 0) by (apply Z.div_le_upper_bound; lia).
        assert (0 <= max_dim / th) by (apply Z.div_pos; lia).
        nia. }
  unfold JPEG_ENCODER_LIMIT in *.
  set (c := ly_cols ly) in *. set (n := ly_thumb_count ly) in *.
  set (th := ly_thumb_height ly) in *.
  assert (Hc65 : c <= 65500) by nia.
  assert (Hr65 : ly_rows ly <= 65500) by nia.
  assert (Pc : (0 < inject_Z c)%Q).
  { change 0%Q with (inject_Z 0). rewrite <- Zlt_Qlt. lia. }
  assert (Hn : n < 65500 * c).
  { destruct (Z_lt_le_dec n (65500 * c)) as [A|A]; [exact A|exfalso].
    assert (Q1 : (inject_Z 65500 <= inject_Z n / inject_Z c)%Q).
    { apply Qle_shift_div_l; [exact Pc|].
      rewrite <- inject_Z_mult, <- Zle_Qle. exact A. }
    apply (round64_ge (@is_float64_Z 65500 ltac:(vm_compute; discriminate))) in Q1.
    apply Qceiling_resp_le in Q1. rewrite Qceiling_Z in Q1. lia. }
  assert (Hexact : Qceiling (round64 (inject_Z n / inject_Z c))
                   = Qceiling (inject_Z n / inject_Z c)).
  { apply Qceiling_round64_div.
    - split; [lia|]. apply Z.lt_trans with (65500 * 65500); [nia | reflexivity].
    - split; [lia|]. apply Z.le_trans with 65500; [exact Hc65 | vm_compute; discriminate]. }
  split; [exact D|]. repeat (split; [assumption|]).
  split; [rewrite <- Hexact; exact Hrows|].
  split; [exact Gw|]. split; [exact Gh|]. split; [exact K|].
  rewrite C. unfold last_call.
  rewrite app_comm_cons, app_assoc, rev_app_distr. reflexivity.
Qed.

(** C2.  Every [MontageData] that [make_montage] returns goes with a
    canvas that the JPEG encoder took, and Pillow's encoder refuses a
    canvas above 65500 pixels on either axis (the run then ends in
    [OSError] and returns nothing).  So for what is returned: at least
    one column; the row count of the canvas is
    [ceil(thumb_count / columns) + 1], which is at least
    [ceil(thumb_count / columns)] and covers the thumbnails; and
    [thumb_width * columns <= 65500], [thumb_height * rows <= 65500]. *)
Theorem montage_grid_within_jpeg_limit
        (cap : Capability) (video_file : path) (probe_info : VideoProbeInfo)
        (tw max_dim : Z) (w w' : world) (data : MontageData) (dest : path) :
  make_montage cap video_file probe_info tw max_dim w = (Ok (data, dest), w') ->
  let rows := Qceiling (inject_Z (thumb_count data) / inject_Z (columns data)) + 1 in
  (exists pastes,
      last_call (calls w')
      = Some (Op_save_jpeg (InWork "montage.jpg") (columns data * thumb_width data)
                (rows * thumb_height data) pastes)) /\
  1 <= columns data /\
  Qceiling (inject_Z (thumb_count data) / inject_Z (columns data)) <= rows /\
  thumb_count data <= columns data * rows /\
  thumb_width data * columns data <= 65500 /\
  thumb_height data * rows <= 65500.
Proof.
  intro H. apply make_montage_grid in H.
  destruct H as [ly [kept [D [Htw [Hth [Hcols [Hpos [Hrows [Gw [Gh [_ Hlast]]]]]]]]]]].
  subst data. cbn [thumb_count columns thumb_width thumb_height]. cbv zeta.
  rewrite <- Hrows. unfold JPEG_ENCODER_LIMIT in *.
  split; [eexists; exact Hlast|]. split; [exact Hcols|]. split; [lia|].
  split; [|split; lia].
  set (c := ly_cols ly) in *. set (n := ly_thumb_count ly) in *.
  pose proof (Qle_ceiling (inject_Z n / inject_Z c)) as Hq.
  assert (Hc : (0 < inject_Z c)%Q).
  { change 0%Q with (inject_Z 0). rewrite <- Zlt_Qlt. lia. }
  apply (Qmult_le_compat_r _ _ (inject_Z c)) in Hq; [|apply Qlt_le_weak; exact Hc].
  unfold Qdiv in Hq at 1.
  rewrite <- Qmult_assoc, (Qmult_comm (/ _)), Qmult_inv_r, Qmult_1_r in Hq.
  - rewrite <- inject_Z_mult, <- Zle_Qle in Hq. nia.
  - intro Z0. rewrite Z0 in Hc. exact (Qlt_irrefl _ Hc).
Qed.

Lemma montage_grid_within_jpeg_limit_witness :
  let data := {| thumb_width := 30; thumb_height := 17; columns := 3; thumb_count := 5 |} in
  let w' := snd (make_montage (ideal_cap 5) (External "in.mp4") (blank_probe 5)
                   30 MAX_JPEG_DIMENSION empty_world) in
  let rows := Qceiling (inject_Z (thumb_count data) / inject_Z (columns data)) + 1 in
  (exists pastes,
      last_call (calls w')
      = Some (Op_save_jpeg (InWork "montage.jpg") (columns data * thumb_width data)
                (rows * thumb_height data) pastes)) /\
  1 <= columns data /\
  Qceiling (inject_Z (thumb_count data) / inject_Z (columns data)) <= rows /\
  thumb_count data <= columns data * rows /\
  thumb_width data * columns data <= 65500 /\
  thumb_height data * rows <= 65500.
Proof.
  intros data w'.
  apply (@montage_grid_within_jpeg_limit (ideal_cap 5) (External "in.mp4") (blank_probe 5)
           30 MAX_JPEG_DIMENSION empty_world w' data (InWork "montage.jpg")).
  vm_compute. reflexivity.
Defined.

(** The layout alone does not keep the grid under the limit: one hour
    of 1920x1080 video with [thumb_width = 2000] asks for a canvas of
    88000 by 49500 pixels, and the run ends in [OSError] at
    [canvas.save] (or in [MemoryError] before it). *)
Lemma montage_oversize_grid_is_refused :
  (exists ly,
      montage_layout (blank_probe 3600) 2000 MAX_JPEG_DIMENSION = Ok ly /\
      ly_cols ly * 2000 = 88000 /\ ly_rows ly * ly_thumb_height ly = 49500) /\
  (exists w',
      make_montage (ideal_cap 3600) (External "in.mp4") (blank_probe 3600)
        2000 MAX_JPEG_DIMENSION empty_world = (Raise OSError, w')).
Proof.
  split.
  - eexists. split; [vm_compute; reflexivity|]. split; reflexivity.
  - eexists. vm_compute. reflexivity.
Qed.

(** ** Chapter files *)

Lemma digit_cases (d : Z) :
  is_digit_value d ->
  d = 0 \/ d = 1 \/ d = 2 \/ d = 3 \/ d = 4 \/ d = 5 \/ d = 6 \/ d = 7 \/ d = 8 \/ d = 9.
Proof. unfold is_digit_value. lia. Qed.

Ltac by_digit d H :=
  destruct (digit_cases H) as [?|[?|[?|[?|[?|[?|[?|[?|[?|?]]]]]]]]]; subst d; reflexivity.

Lemma digit_of_digit_char (d : Z) : is_digit_value d -> digit_of (digit_char d) = Some d.
Proof. intro H. by_digit d H. Qed.

Lemma is_space_digit_char (d : Z) : is_digit_value d -> is_space (digit_char d) = false.
Proof. intro H. by_digit d H. Qed.

Lemma newline_digit_char (d : Z) : is_digit_value d -> Ascii.eqb (digit_char d) newline = false.
Proof. intro H. by_digit d H. Qed.

Lemma digits_of_range (k : nat) : forall n, Forall is_digit_value (digits_of k n).
Proof.
  induction k as [|k IH]; intro n; simpl.
  - constructor.
  - apply Forall_app. split; [apply IH|].
    constructor; [|constructor]. unfold is_digit_value.
    pose proof (Z.mod_pos_bound n 10). lia.
Qed.

Lemma digits_of_length (k : nat) : forall n, List.length (digits_of k n) = k.
Proof.
  induction k as [|k IH]; intro n; simpl; [reflexivity|].
  rewrite length_app, IH. simpl. lia.
Qed.

Lemma number_of_snoc (ds : list Z) (d : Z) : number_of (ds ++ [d]) = 10 * number_of ds + d.
Proof. unfold number_of. rewrite fold_left_app. reflexivity. Qed.

Lemma number_of_digits_of (k : nat) : forall n,
  0 <= n < 10 ^ Z.of_nat k -> number_of (digits_of k n) = n.
Proof.
  induction k as [|k IH]; intros n Hn.
  - simpl in *. change (number_of []) with 0. lia.
  - simpl digits_of. rewrite number_of_snoc, IH.
    + symmetry. apply Z.div_mod. lia.
    + rewrite Nat2Z.inj_succ, Z.pow_succ_r in Hn by lia.
      split; [apply Z.div_pos; lia | apply Z.div_lt_upper_bound; lia].
Qed.

Lemma take_digits_exact (ds : list Z) (rest : string) :
  Forall is_digit_value ds ->
  take_digits (List.length ds) (show_digits ds ++ rest)%string = (ds, rest).
Proof.
  induction 1 as [|d ds Hd _ IH]; simpl.
  - destruct rest; reflexivity.
  - rewrite (digit_of_digit_char Hd), IH. reflexivity.
Qed.

Lemma take_zero_padded (k : nat) (n : Z) (rest : string) :
  take_digits k (zero_padded k n ++ rest)%string = (digits_of k n, rest).
Proof.
  unfold zero_padded.
  rewrite <- (digits_of_length k n) at 1.
  apply take_digits_exact, digits_of_range.
Qed.

Lemma field_zero_padded (bound n : Z) (rest : string) :
  0 <= n <= bound -> bound < 100 ->
  field bound (zero_padded 2 n ++ rest)%string = Ok (n, rest).
Proof.
  intros Hn Hb. unfold field. rewrite take_zero_padded.
  assert (E : number_of (digits_of 2 n) = n)
    by (apply number_of_digits_of; change (10 ^ Z.of_nat 2) with 100; lia).
  change (digits_of 2 n) with ([n / 10 mod 10; n mod 10]) in *.
  rewrite E.
  destruct (n <=? bound) eqn:L; [reflexivity|].
  apply Z.leb_gt in L. lia.
Qed.

Lemma fraction_zero_padded (us : Z) :
  0 <= us <= 999999 -> fraction (zero_padded 6 us) = Ok (us, EmptyString).
Proof.
  intro Hus. unfold fraction.
  assert (T : take_digits 6 (zero_padded 6 us) = (digits_of 6 us, EmptyString)).
  { pose proof (take_zero_padded 6 us EmptyString) as T.
    replace (zero_padded 6 us ++ EmptyString)%string with (zero_padded 6 us) in T;
      [exact T|].
    generalize (zero_padded 6 us). induction s; simpl; [reflexivity | f_equal; exact IHs]. }
  rewrite T.
  assert (E : number_of (digits_of 6 us) = us)
    by (apply number_of_digits_of; change (10 ^ Z.of_nat 6) with 1000000; lia).
  rewrite E, digits_of_length.
  change (digits_of 6 us)
    with ([us / 10 / 10 / 10 / 10 / 10 mod 10; us / 10 / 10 / 10 / 10 mod 10;
           us / 10 / 10 / 10 mod 10; us / 10 / 10 mod 10; us / 10 mod 10; us mod 10]).
  cbv beta iota. f_equal. f_equal. change (10 ^ (6 - Z.of_nat 6)) with 1. lia.
Qed.

Lemma strptime_format_time (h m s us : Z) :
  0 <= h <= 23 -> 0 <= m <= 59 -> 0 <= s <= 59 -> 0 <= us <= 999999 ->
  strptime (format_time h m s us)
  = Ok {| hour := h; minute := m; second := s; microsecond := us |}.
Proof.
  intros Hh Hm Hs Hus. unfold strptime, format_time.
  rewrite field_zero_padded by lia. cbn [obind snd fst expect append].
  rewrite Ascii.eqb_refl. cbn [obind].
  rewrite field_zero_padded by lia. cbn [obind snd fst expect append].
  rewrite Ascii.eqb_refl. cbn [obind].
  rewrite field_zero_padded by lia. cbn [obind snd fst expect append].
  rewrite Ascii.eqb_refl. cbn [obind].
  rewrite fraction_zero_padded by lia. reflexivity.
Qed.

Lemma append_assoc (a b c : string) : ((a ++ b) ++ c = a ++ (b ++ c))%string.
Proof. induction a as [|x a IH]; simpl; [reflexivity | rewrite IH; reflexivity]. Qed.

Lemma readlines_nil (s : string) : readlines s = [] -> s = EmptyString.
Proof.
  destruct s as [|c r]; [reflexivity|]. simpl.
  destruct (Ascii.eqb c newline); [discriminate|].
  destruct (readlines r); discriminate.
Qed.

Lemma readlines_line (l rest : string) :
  no_newline l = true ->
  readlines (l ++ String newline rest)%string = (l ++ nl)%string :: readlines rest.
Proof.
  induction l as [|c l IH]; intro H.
  - reflexivity.
  - simpl in H. apply andb_true_iff in H. destruct H as [Hc Hl].
    apply negb_true_iff in Hc.
    simpl. rewrite Hc, (IH Hl). reflexivity.
Qed.

Lemma readlines_app (a b : string) :
  complete_lines a = true ->
  readlines (a ++ b)%string = readlines a ++ readlines b.
Proof.
  induction a as [|c a IH]; intro H.
  - reflexivity.
  - assert (Ha : complete_lines a = true) by (destruct a; [reflexivity | exact H]).
    change (readlines (String c (a ++ b)%string)
            = readlines (String c a) ++ readlines b).
    simpl readlines. rewrite (IH Ha).
    destruct (Ascii.eqb c newline) eqn:E; [reflexivity|].
    destruct (readlines a) as [|l ls] eqn:R; [|reflexivity].
    apply readlines_nil in R. subst a. simpl in H. congruence.
Qed.

Lemma rstrip_cons (c : ascii) (s : string) :
  is_space c = false -> rstrip (String c s) = String c (rstrip s).
Proof. intro H. simpl. rewrite H. destruct (rstrip s); reflexivity. Qed.

Lemma rstrip_app_space (a b : string) :
  rstrip b = EmptyString -> rstrip (a ++ b)%string = rstrip a.
Proof.
  intro H. induction a as [|c a IH]; simpl; [exact H | rewrite IH; reflexivity].
Qed.

Lemma rstrip_id (s : string) : ends_nonspace s = true -> rstrip s = s.
Proof.
  induction s as [|c s IH]; intro H; [discriminate H|].
  destruct s as [|c' s'].
  - simpl in *. apply negb_true_iff in H. rewrite H. reflexivity.
  - change (ends_nonspace (String c (String c' s'))) with (ends_nonspace (String c' s')) in H.
    change (rstrip (String c (String c' s')))
      with (match rstrip (String c' s') with
            | EmptyString => if is_space c then EmptyString else String c EmptyString
            | r => String c r
            end).
    rewrite (IH H). reflexivity.
Qed.

Lemma ends_nonspace_app (a b : string) :
  ends_nonspace b = true -> ends_nonspace (a ++ b)%string = true.
Proof.
  intro H. induction a as [|c a IH]; [exact H|].
  simpl append. destruct (a ++ b)%string eqn:E.
  - rewrite <- E in IH. destruct a; [simpl in E; subst b|]; discriminate.
  - exact IH.
Qed.

Lemma ends_nonspace_show_digits (ds : list Z) :
  ds <> [] -> Forall is_digit_value ds -> ends_nonspace (show_digits ds) = true.
Proof.
  intros Hne H. induction H as [|d ds Hd Hds IH]; [contradiction|].
  destruct ds as [|d' ds'].
  - simpl. rewrite (is_space_digit_char Hd). reflexivity.
  - change (ends_nonspace (show_digits (d' :: ds')) = true). apply IH. discriminate.
Qed.

Lemma no_newline_app (a b : string) :
  no_newline (a ++ b)%string = no_newline a && no_newline b.
Proof.
  induction a as [|c a IH]; simpl; [reflexivity|].
  rewrite IH, andb_assoc. reflexivity.
Qed.

Lemma no_newline_zero_padded (k : nat) (n : Z) : no_newline (zero_padded k n) = true.
Proof.
  unfold zero_padded. induction (digits_of_range k n) as [|d ds Hd _ IH]; simpl.
  - reflexivity.
  - rewrite (newline_digit_char Hd), IH. reflexivity.
Qed.

Lemma no_newline_format_time (h m s us : Z) : no_newline (format_time h m s us) = true.
Proof.
  unfold format_time.
  rewrite !no_newline_app, !no_newline_zero_padded. reflexivity.
Qed.

Lemma ends_nonspace_format_time (h m s us : Z) : ends_nonspace (format_time h m s us) = true.
Proof.
  unfold format_time. repeat apply ends_nonspace_app.
  apply ends_nonspace_show_digits; [|apply digits_of_range].
  intro E. apply (f_equal (@List.length Z)) in E.
  rewrite digits_of_length in E. discriminate E.
Qed.

(** One well-formed pair of lines. *)
Lemma parse_entry_well_formed (h m s us : Z) (text : string) :
  0 <= h <= 23 -> 0 <= m <= 59 -> 0 <= s <= 59 -> 0 <= us <= 999999 ->
  parse_entry ("START=" ++ format_time h m s us ++ nl) ("TITLE=" ++ text ++ nl)
  = Ok {| title := rstrip text;
          start_seconds := fadd (float_of_int (h * 3600 + m * 60 + s))
                                (round64 (inject_Z us / 1000000)) |}.
Proof.
  intros Hh Hm Hs Hus. unfold parse_entry, strip.
  assert (T : rstrip ("START=" ++ format_time h m s us ++ nl)
              = ("START=" ++ format_time h m s us)%string).
  { rewrite <- append_assoc.
    rewrite rstrip_app_space by reflexivity.
    apply rstrip_id, ends_nonspace_app, ends_nonspace_format_time. }
  assert (U : rstrip ("TITLE=" ++ text ++ nl) = ("TITLE=" ++ rstrip text)%string).
  { cbn [append]. rewrite !rstrip_cons by reflexivity.
    rewrite rstrip_app_space by reflexivity. reflexivity. }
  rewrite T, U. cbn [append lstrip after_equals obind].
  change (is_space "S") with false. change (is_space "T") with false.
  cbv beta iota.
  change (after_equals (String "S" (String "T" (String "A" (String "R" (String "T"
            (String "=" (format_time h m s us)))))))) with (Ok (format_time h m s us)).
  change (after_equals (String "T" (String "I" (String "T" (String "L" (String "E"
            (String "=" (rstrip text)))))))) with (Ok (rstrip text)).
  cbn [obind]. rewrite strptime_format_time by assumption.
  reflexivity.
Qed.

(** The double the parser stores is within [2^-36] seconds of the sum
    of the four components. *)
Lemma chapter_offset_close (S us : Z) :
  0 <= S <= 86399 -> 0 <= us <= 999999 ->
  (Qabs (fadd (float_of_int S) (round64 (inject_Z us / 1000000))
         - (inject_Z S + inject_Z us / 1000000)) <= 1 # 68719476736)%Q.
Proof.
  intros HS Hus. unfold fadd.
  pose proof (@float_of_int_exact S ltac:(lia)) as ES.
  assert (E53 : (pow2 (-53) == 1 # 9007199254740992)%Q) by reflexivity.
  set (x := (inject_Z us / 1000000)%Q).
  assert (X0 : (0 <= x)%Q).
  { unfold x. apply Qle_shift_div_l; [reflexivity|]. rewrite Qmult_0_l.
    change 0%Q with (inject_Z 0). rewrite <- Zle_Qle. lia. }
  assert (X1 : (x <= 1)%Q).
  { unfold x. apply Qle_shift_div_r; [reflexivity|]. rewrite Qmult_1_l.
    change 1000000%Q with (inject_Z 1000000). rewrite <- Zle_Qle. lia. }
  set (f := round64 x).
  assert (F0 : (0 <= f)%Q) by (apply round64_nonneg; exact X0).
  assert (F1 : (f <= 1)%Q).
  { apply round64_le; [|exact X1]. exact (@is_float64_Z 1 ltac:(vm_compute; discriminate)). }
  assert (SQ0 : (0 <= inject_Z S)%Q).
  { change 0%Q with (inject_Z 0). rewrite <- Zle_Qle. lia. }
  assert (SQ1 : (inject_Z S <= 86399)%Q).
  { change 86399%Q with (inject_Z 86399). rewrite <- Zle_Qle. lia. }
  assert (Fx : (f - x <= pow2 (-53))%Q /\ (x - f <= pow2 (-53))%Q /\
               (0 < x -> pow2 (-20) <= f)%Q).
  { destruct (Z.eq_dec us 0) as [Z0|NZ].
    - assert (E : (x == 0)%Q) by (unfold x; rewrite Z0; apply Qdiv_0_l).
      unfold f. rewrite (round64_zero E). rewrite E53.
      split; [lra|]. split; [lra|]. intro P. lra.
    - assert (L : (1 # 1000000 <= x)%Q).
      { unfold x. apply Qle_shift_div_l; [reflexivity|].
        apply Qle_trans with (inject_Z 1); [vm_compute; discriminate|].
        rewrite <- Zle_Qle. lia. }
      assert (N : (pow2 (-1022) <= x)%Q).
      { eapply Qle_trans; [|exact L]. vm_compute. discriminate. }
      destruct (round64_error N) as [A B]. fold f in A, B.
      assert (U : (x * pow2 (-53) <= pow2 (-53))%Q).
      { rewrite <- (Qmult_1_l (pow2 (-53))) at 2.
        apply Qmult_le_compat_r; [exact X1 | apply Qlt_le_weak, pow2_gt_0]. }
      split; [lra|]. split; [lra|]. intros _.
      apply round64_ge.
      + exists 1, (-20). split; [reflexivity|]. split; [lia|].
        rewrite Qmult_1_l. reflexivity.
      + eapply Qle_trans; [|exact L]. vm_compute. discriminate. }
  destruct Fx as [Fa [Fb Fc]].
  set (y := (float_of_int S + f)%Q).
  assert (Y0 : (0 <= y)%Q) by (unfold y; lra).
  assert (Y1 : (y <= 86400)%Q) by (unfold y; lra).
  assert (R : (round64 y - y <= 86400 * pow2 (-53))%Q /\
              (y - round64 y <= 86400 * pow2 (-53))%Q).
  { destruct (Qlt_le_dec 0 y) as [P|Z0].
    - assert (N : (pow2 (-1022) <= y)%Q).
      { destruct (Z.eq_dec S 0) as [S0|S1].
        - assert (Px : (0 < x)%Q).
          { destruct (Qlt_le_dec 0 x) as [Q0|Q0]; [exact Q0|exfalso].
            assert (E : (x == 0)%Q) by (apply Qle_antisym; assumption).
            assert (Ef : f = 0%Q) by (unfold f; apply round64_zero; exact E).
            unfold y in P. rewrite Ef, S0 in P. rewrite S0 in ES.
            change (inject_Z 0) with 0%Q in ES. rewrite ES in P. lra. }
          specialize (Fc Px).
          apply Qle_trans with (pow2 (-20)); [apply pow2_le; lia|].
          unfold y. lra.
        - assert (S2 : (1 <= inject_Z S)%Q).
          { change 1%Q with (inject_Z 1). rewrite <- Zle_Qle. lia. }
          apply Qle_trans with 1%Q; [vm_compute; discriminate|]. unfold y. lra. }
      destruct (round64_error N) as [A B].
      assert (U : (y * pow2 (-53) <= 86400 * pow2 (-53))%Q).
      { apply Qmult_le_compat_r; [exact Y1 | apply Qlt_le_weak, pow2_gt_0]. }
      split; lra.
    - assert (E : (y == 0)%Q) by (apply Qle_antisym; assumption).
      rewrite (round64_zero E). rewrite E53. split; lra. }
  destruct R as [Ra Rb]. rewrite E53 in Ra, Rb, Fa, Fb.
  apply Qabs_Qle_condition. fold y.
  assert (Ey : (y == inject_Z S + f)%Q) by (unfold y; rewrite ES; reflexivity).
  split; lra.
Qed.

(** C7.  A file holding one well-formed pair
    [START=HH:MM:SS.ffffff] / [TITLE=<text>] parses to one entry: its
    title is the text without trailing white space, and its offset is
    the double [hours*3600 + minutes*60 + seconds + microseconds/1e6]
    as Python computes it (the quotient rounded, the sum rounded),
    which is within [2^-36] seconds of the exact sum, so all four
    components count.  The pair [START=00:13:00.150000] / [TITLE=X]
    gives the double [780.15] and not [780.0]. *)
Theorem parse_chapters_all_four_components (h m s us : Z) (text : string) :
  0 <= h <= 23 -> 0 <= m <= 59 -> 0 <= s <= 59 -> 0 <= us <= 999999 ->
  no_newline text = true ->
  (exists e,
      parse_chapters (Some ("START=" ++ format_time h m s us ++ nl
                            ++ "TITLE=" ++ text ++ nl)%string) = Ok [e] /\
      title e = rstrip text /\
      start_seconds e
      = fadd (float_of_int (h * 3600 + m * 60 + s)) (round64 (inject_Z us / 1000000)) /\
      (Qabs (start_seconds e
             - (inject_Z (h * 3600) + inject_Z (m * 60) + inject_Z s
                + inject_Z us / 1000000)) <= 1 # 68719476736)%Q)
  /\
  (exists e, parse_chapters (Some regression_file) = Ok [e] /\
             title e = "X"%string /\
             start_seconds e = round64 (78015 # 100) /\
             ~ (start_seconds e == 780)%Q).
Proof.
  intros Hh Hm Hs Hus Ht. split.
  - eexists. split; [|split; [|split]].
    + unfold parse_chapters.
      replace ("START=" ++ format_time h m s us ++ nl ++ "TITLE=" ++ text ++ nl)%string
        with (("START=" ++ format_time h m s us)
              ++ String newline (("TITLE=" ++ text) ++ String newline EmptyString))%string.
      * rewrite readlines_line.
        -- rewrite readlines_line.
           ++ cbn [readlines parse_lines].
              rewrite !append_assoc.
              rewrite (parse_entry_well_formed text Hh Hm Hs Hus).
              cbn [obind app parse_lines]. reflexivity.
           ++ rewrite no_newline_app, Ht. reflexivity.
        -- rewrite no_newline_app, no_newline_format_time. reflexivity.
      * rewrite !append_assoc. reflexivity.
    + reflexivity.
    + reflexivity.
    + cbn [start_seconds].
      pose proof (@chapter_offset_close (h * 3600 + m * 60 + s) us ltac:(lia) Hus) as C.
      rewrite !inject_Z_plus in C. exact C.
  - eexists. split; [vm_compute; reflexivity|].
    split; [reflexivity|]. split; [vm_compute; reflexivity|].
    intro E. vm_compute in E. discriminate E.
Qed.

Lemma parse_chapters_all_four_components_witness :
  (exists e,
      parse_chapters (Some ("START=" ++ format_time 1 2 3 456789 ++ nl
                            ++ "TITLE=" ++ "Sycamore Grove" ++ nl)%string) = Ok [e] /\
      title e = rstrip "Sycamore Grove" /\
      start_seconds e
      = fadd (float_of_int (1 * 3600 + 2 * 60 + 3))
             (round64 (inject_Z 456789 / 1000000)) /\
      (Qabs (start_seconds e
             - (inject_Z (1 * 3600) + inject_Z (2 * 60) + inject_Z 3
                + inject_Z 456789 / 1000000)) <= 1 # 68719476736)%Q)
  /\
  (exists e, parse_chapters (Some regression_file) = Ok [e] /\
             title e = "X"%string /\
             start_seconds e = round64 (78015 # 100) /\
             ~ (start_seconds e == 780)%Q).
Proof.
  apply (@parse_chapters_all_four_components 1 2 3 456789 "Sycamore Grove");
    try lia; reflexivity.
Defined.

(** C3 as worded fails: the file above ends with a START line that has
    no TITLE line, and [parse_chapters] returns the one complete chapter
    instead of raising. *)
Lemma parse_chapters_truncated_file_returns :
  parse_chapters (Some truncated_file)
  = Ok [{| title := "Sycamore Grove"; start_seconds := round64 (540368 # 1000) |}]
  /\ ~ (exists e, parse_chapters (Some truncated_file) = Raise e).
Proof.
  assert (H : parse_chapters (Some truncated_file)
              = Ok [{| title := "Sycamore Grove";
                       start_seconds := round64 (540368 # 1000) |}])
    by (vm_compute; reflexivity).
  split; [exact H|].
  intros [e E]. rewrite H in E. discriminate E.
Qed.

Lemma parse_lines_dangling (n : nat) : forall lines time_line acc,
  List.length lines = (2 * n)%nat ->
  parse_lines (lines ++ [time_line]) acc = parse_lines lines acc.
Proof.
  induction n as [|n IH]; intros lines time_line acc Hlen.
  - destruct lines; [reflexivity | discriminate Hlen].
  - destruct lines as [|t [|ti rest]]; simpl in Hlen; try lia.
    cbn [app parse_lines].
    destruct (parse_entry t ti) as [e|x|]; cbn [obind]; try reflexivity.
    apply IH. lia.
Qed.

(** C3, as the code behaves.  When a file consists of complete
    START/TITLE pairs followed by one more line (a START line whose
    TITLE line is missing), [parse_chapters] stops at that line without
    an error of its own: the result is the result for the file without
    the dangling line. *)
Theorem parse_chapters_drops_dangling_start (body dangling : string) :
  complete_lines body = true ->
  Nat.even (List.length (readlines body)) = true ->
  readlines dangling = [dangling] ->
  parse_chapters (Some (body ++ dangling)%string) = parse_chapters (Some body).
Proof.
  intros Hc He Hd. unfold parse_chapters.
  rewrite readlines_app by exact Hc. rewrite Hd.
  apply Nat.even_spec in He. destruct He as [n Hn].
  apply (parse_lines_dangling n). exact Hn.
Qed.

Lemma parse_chapters_drops_dangling_start_witness :
  parse_chapters
    (Some (("START=00:09:00.368000" ++ nl ++ "TITLE=Sycamore Grove" ++ nl)
           ++ ("START=00:13:00.150000" ++ nl))%string)
  = parse_chapters
      (Some ("START=00:09:00.368000" ++ nl ++ "TITLE=Sycamore Grove" ++ nl)%string).
Proof.
  apply (@parse_chapters_drops_dangling_start
           ("START=00:09:00.368000" ++ nl ++ "TITLE=Sycamore Grove" ++ nl)
           ("START=00:13:00.150000" ++ nl)); reflexivity.
Defined.

(** ** Serialised metadata *)

Ltac split_metadata md :=
  destruct md as [? [?|] [?|] [[|? ?]|]].

(** C6.  [to_dict] is a function of the metadata; for one pyramid
    segment, no montage and two chapters it yields [I], then [V] with
    [R == [1]], then [C] with the two [[title, startSeconds]] pairs in
    their order, and no [M]; in general each of [V], [M], [C] is present
    exactly when its component was produced (an empty chapter list
    counts as not produced) and no key is ever bound to null. *)
Theorem to_dict_omits_absent_components
        (md : VideoMetadata) (id : string) (d : Q) (x : Z) (c1 c2 : ChapterEntry) :
  (dict_get (to_dict md) "V" = None <-> video_data md = None) /\
  (dict_get (to_dict md) "M" = None <-> montage_data md = None) /\
  (dict_get (to_dict md) "C" = None <-> (chapters md = None \/ chapters md = Some [])) /\
  (forall k, dict_get (to_dict md) k <> Some JNone) /\
  (let run := {| video_id := id;
                 video_data := Some {| rates := [1]; durations := [d];
                                       padded_durations := [x] |};
                 montage_data := None;
                 chapters := Some [c1; c2] |} in
   to_dict run
   = [("I", JStr id);
      ("V", JDict [("R", JList [JInt 1]); ("D", JList [JFloat d]);
                   ("X", JList [JInt x])]);
      ("C", JList [JList [JStr (title c1); JFloat (start_seconds c1)];
                   JList [JStr (title c2); JFloat (start_seconds c2)]])]%string
   /\ dict_get (to_dict run) "M" = None).
Proof.
  split; [|split; [|split; [|split]]].
  - split_metadata md; cbn; split; intro H; try reflexivity; discriminate H.
  - split_metadata md; cbn; split; intro H; try reflexivity; discriminate H.
  - split_metadata md; cbn; split; intro H; try reflexivity;
      try discriminate H; try (destruct H as [H|H]; discriminate H);
      try (left; reflexivity); try (right; reflexivity).
  - intro k. split_metadata md; cbn;
      repeat match goal with
             | |- context [String.eqb k ?s] => destruct (String.eqb k s)
             end; discriminate.
  - split; reflexivity.
Qed.

(* ================================================================== *)
(** * Further properties                                               *)
(* ================================================================== *)

(** ** The joiner, on a list that is not empty *)

Section JoinFacts.
Variable cap : Capability.
Variable padding_buffer : Z.

Let padded_of (src : path) : Z := fit (duration (probe_of cap src)) padding_buffer.

Lemma join_loop_ok (video_files : list path) : forall idx acc w acc' w',
  join_loop cap padding_buffer idx video_files acc w = (Ok acc', w') ->
  acc' = (fst (fst acc) ++ map padded_of video_files,
          snd (fst acc) ++ map (InWorkIdx "join_video") (seq idx (List.length video_files)),
          snd acc ++ map (InWorkIdx "join_audio") (seq idx (List.length video_files)))
  /\ calls w' = calls w
                ++ flat_map (join_item_calls cap padding_buffer)
                     (enumerate_from idx video_files).
Proof.
  induction video_files as [|src rest IH]; intros idx [[p pv] pa] w acc' w' H.
  - simpl in H. inversion H. cbn. rewrite !app_nil_r. split; reflexivity.
  - cbn [join_loop] in H.
    cbv beta iota zeta delta
      [bind ret raise log_call run_ffmpeg probe_video create_time_padded_video
       create_padded_audio] in H.
    repeat (match type of H with
            | context [run_ok cap ?o] => destruct (run_ok cap o)
            end; cbv beta iota in H); try discriminate H.
    apply IH in H. destruct H as [E C]. cbn [fst snd] in E.
    split.
    + rewrite E. cbn [fst snd map seq List.length]. rewrite <- !app_assoc. reflexivity.
    + rewrite C. cbn [calls]. unfold enumerate_from. cbn [List.length seq combine flat_map].
      unfold join_item_calls at 2. rewrite <- !app_assoc. reflexivity.
Qed.


(** X2.  The calls of a returning [join_videos], in order: the first
    input is probed for the audio format (and probed again in its turn),
    the silent clip is made once, every input is probed, padded and
    given padded audio under its own index, the audio concatenation is
    trimmed to exactly the returned durations, the final pad stamps
    their sum with the audio kept, and the result is moved to
    [export_file] last. *)
Theorem join_videos_call_order
        (video_files : list path) (export_file : path) (blank_audio_duration : Q)
        (w w' : world) (res : list Z) :
  join_videos cap padding_buffer video_files export_file blank_audio_duration w
  = (Ok res, w') ->
  exists first rest,
    video_files = first :: rest /\
    calls w'
    = calls w
      ++ [Op_probe_video first;
          Op_create_blank_audio (InWork "blank_audio.mp4") blank_audio_duration
            (audio_channel_layout (probe_of cap first))
            (audio_sample_rate (probe_of cap first))]
      ++ flat_map (join_item_calls cap padding_buffer) (enumerate_from 0 video_files)
      ++ [Op_concatenate_media
            (map (InWorkIdx "join_video") (seq 0 (List.length video_files)))
            (InWork "join_concat_video.mp4") None;
          Op_concatenate_media
            (map (InWorkIdx "join_audio") (seq 0 (List.length video_files)))
            (InWork "join_concat_audio.mp4") (Some res);
          Op_mux_video_audio (InWork "join_concat_video.mp4")
            (InWork "join_concat_audio.mp4") (InWork "join_muxed.mp4");
          Op_create_time_padded_video (InWork "join_muxed.mp4")
            (InWork "join_final.mp4") (sum_Z res) true;
          Op_mkdir_parent export_file;
          Op_move (InWork "join_final.mp4") export_file].
Proof.
  intro H. unfold join_videos in H.
  destruct video_files as [|first rest]; [discriminate H|].
  exists first, rest. split; [reflexivity|].
  cbv beta iota zeta delta
    [bind ret raise log_call run_ffmpeg probe_video create_blank_audio] in H.
  repeat (match type of H with
          | context [run_ok cap ?o] => destruct (run_ok cap o)
          end; cbv beta iota in H); try discriminate H.
  all: match type of H with
       | context [join_loop ?c ?b ?i ?v ?a ?w0] =>
           destruct (join_loop c b i v a w0) as [[acc|e|] w1] eqn:L;
           cbv beta iota in H; try discriminate H;
           apply join_loop_ok in L; destruct L as [E C]; cbn [fst snd app] in E;
           subst acc
       end.
  all: cbv beta iota zeta delta
         [bind ret raise log_call run_ffmpeg concatenate_media mux_video_audio
          create_time_padded_video] in H.
  all: repeat (match type of H with
               | context [run_ok cap ?o] => destruct (run_ok cap o)
               end; cbv beta iota in H); try discriminate H.
  all: inversion H; subst; clear H.
  all: cbn [calls] in *; rewrite C; cbn [calls].
  all: rewrite <- !app_assoc; reflexivity.
Qed.
End JoinFacts.


Lemma join_videos_call_order_witness :
  exists first rest,
    [External "a.mp4"; External "b.mp4"] = first :: rest /\
    calls (snd (join_videos (ideal_cap (93 # 10)) 1 [External "a.mp4"; External "b.mp4"]
                  (External "out.mp4") 5 empty_world))
    = calls empty_world
      ++ [Op_probe_video first;
          Op_create_blank_audio (InWork "blank_audio.mp4") 5
            (audio_channel_layout (probe_of (ideal_cap (93 # 10)) first))
            (audio_sample_rate (probe_of (ideal_cap (93 # 10)) first))]
      ++ flat_map (join_item_calls (ideal_cap (93 # 10)) 1)
           (enumerate_from 0 [External "a.mp4"; External "b.mp4"])
      ++ [Op_concatenate_media
            (map (InWorkIdx "join_video") (seq 0 2))
            (InWork "join_concat_video.mp4") None;
          Op_concatenate_media
            (map (InWorkIdx "join_audio") (seq 0 2))
            (InWork "join_concat_audio.mp4") (Some [11; 11]);
          Op_mux_video_audio (InWork "join_concat_video.mp4")
            (InWork "join_concat_audio.mp4") (InWork "join_muxed.mp4");
          Op_create_time_padded_video (InWork "join_muxed.mp4")
            (InWork "join_final.mp4") (sum_Z [11; 11]) true;
          Op_mkdir_parent (External "out.mp4");
          Op_move (InWork "join_final.mp4") (External "out.mp4")].
Proof.
  eapply (@join_videos_call_order (ideal_cap (93 # 10)) 1
            [External "a.mp4"; External "b.mp4"] (External "out.mp4") 5
            empty_world _ [11; 11]).
  vm_compute. reflexivity.
Defined.

(** ** The builder's call log *)

Section FfwdLog.
Variable cap : Capability.
Variable video_src : path.
Variable probe_info : VideoProbeInfo.
Variable padding_buffer : Z.

Let seg := ffwd_segment_calls cap video_src probe_info padding_buffer.

Lemma ffwd_body_calls st w st' w' (k : nat) :
  st_doubling_count st = Z.of_nat k ->
  st_rate st = 2 ^ Z.of_nat k ->
  ffwd_body cap video_src probe_info padding_buffer st w = (Ok st', w') ->
  calls w' = calls w ++ seg k.
Proof.
  intros Hk Hr H. unfold ffwd_body in H. run_monad H.
  inversion H; subst. cbn [calls]. rewrite Hk, Hr.
  unfold seg, ffwd_segment_calls. rewrite <- !app_assoc. reflexivity.
Qed.

Lemma ffwd_loop_calls (fuel : nat) : forall st w st' w' (k : nat),
  st_doubling_count st = Z.of_nat (S k) ->
  st_rate st = 2 ^ Z.of_nat (S k) ->
  ffwd_loop cap video_src probe_info padding_buffer fuel st w = (Ok st', w') ->
  exists m : nat,
    st_doubling_count st' = Z.of_nat (S (k + m)) /\
    calls w' = calls w ++ flat_map seg (seq (S k) m) /\
    st_video_files st'
    = st_video_files st
      ++ map (fun j => InWorkRate "ffwd_video_fit" (2 ^ Z.of_nat j)) (seq (S k) m) /\
    st_audio_files st'
    = st_audio_files st
      ++ map (fun j => InWorkRate "ffwd_audio_pad" (2 ^ Z.of_nat j)) (seq (S k) m) /\
    st_rates st' = st_rates st ++ map (fun j => 2 ^ Z.of_nat j) (seq (S k) m) /\
    st_durations st'
    = st_durations st
      ++ map (fun j => duration (probe_of cap (InWorkRate "ffwd_video" (2 ^ Z.of_nat j))))
           (seq (S k) m).
Proof.
  induction fuel as [|fuel IH]; intros st w st' w' k Hk Hr H; simpl in H.
  - destruct (Qgtb (st_ffwd_duration st) 1); [discriminate H|].
    inversion H; subst. exists 0%nat. cbn. rewrite Nat.add_0_r, !app_nil_r.
    repeat split; try reflexivity. exact Hk.
  - destruct (Qgtb (st_ffwd_duration st) 1).
    + unfold bind in H.
      destruct (ffwd_body cap video_src probe_info padding_buffer st w)
        as [[st1|e|] w1] eqn:B; try discriminate H.
      pose proof (@ffwd_body_calls _ _ _ _ (S k) Hk Hr B) as C1.
      apply ffwd_body_ok in B. subst st1.
      assert (Hk1 : st_doubling_count (ffwd_next cap padding_buffer st)
                    = Z.of_nat (S (S k))).
      { unfold ffwd_next. cbn [st_doubling_count]. rewrite Hk. lia. }
      assert (Hr1 : st_rate (ffwd_next cap padding_buffer st) = 2 ^ Z.of_nat (S (S k))).
      { unfold ffwd_next. cbn [st_rate]. rewrite Hk. f_equal. lia. }
      destruct (IH _ _ _ _ _ Hk1 Hr1 H) as [m [Hd [C [V [A [R D]]]]]].
      exists (S m). cbn [seq flat_map map].
      unfold ffwd_next in V, A, R, D.
      cbn [st_video_files st_audio_files st_rates st_durations] in V, A, R, D.
      rewrite Hr in V, A, R, D.
      repeat split.
      * rewrite Hd. f_equal. lia.
      * rewrite C, C1, <- app_assoc. reflexivity.
      * rewrite V, <- app_assoc. reflexivity.
      * rewrite A, <- app_assoc. reflexivity.
      * rewrite R, <- app_assoc. reflexivity.
      * rewrite D, <- app_assoc. reflexivity.
    + inversion H; subst. exists 0%nat. cbn. rewrite Nat.add_0_r, !app_nil_r.
      repeat split; try reflexivity. exact Hk.
Qed.

(** X3.  The calls of a returning [make_ffwd_concat_video], in order,
    for the [n] sped-up segments it built: the setup, then for each
    doubling count [k = 1 .. n] a video speed-up at rate [2^k] together
    with an audio speed-up of exactly [k] doublings, then the two
    concatenations over the [n + 1] padded files (the audio one trimmed
    to the returned padded durations), the mux, and a final pad that
    stamps the sum of the padded durations with the audio kept. *)
Theorem ffwd_call_order
        (fuel : nat) (output_filename : string) (blank_audio_duration : Q)
        (w w' : world) (res : VideoSegmentData) (dest : path) :
  make_ffwd_concat_video cap video_src probe_info padding_buffer fuel
    output_filename blank_audio_duration w = (Ok (res, dest), w') ->
  exists n : nat,
    rates res = map (fun k => 2 ^ Z.of_nat k) (seq 0 (S n)) /\
    List.length (padded_durations res) = S n /\
    dest = InWork output_filename /\
    calls w'
    = calls w
      ++ ffwd_setup_calls video_src probe_info padding_buffer blank_audio_duration
      ++ flat_map seg (seq 1 n)
      ++ ffwd_finish_calls n (padded_durations res) output_filename.
Proof.
  intro H.
  unfold make_ffwd_concat_video in H.
  cbv beta iota zeta delta
    [bind ret raise log_call run_ffmpeg create_blank_audio extract_audio
     create_padded_audio create_time_padded_video] in H.
  repeat (match type of H with
          | context [run_ok cap (Op_create_blank_audio ?a ?b ?c ?d)] =>
              destruct (run_ok cap (Op_create_blank_audio a b c d))
          | context [run_ok cap (Op_create_time_padded_video ?a ?b ?c false)] =>
              destruct (run_ok cap (Op_create_time_padded_video a b c false))
          | context [run_ok cap (Op_create_padded_audio ?a ?b ?c)] =>
              destruct (run_ok cap (Op_create_padded_audio a b c))
          | context [run_ok cap (Op_extract_audio ?a ?b)] =>
              destruct (run_ok cap (Op_extract_audio a b))
          end; cbv beta iota in H); try discriminate H.
  match type of H with
  | context [ffwd_loop ?c ?v ?p ?b ?f ?s ?w0] =>
      destruct (ffwd_loop c v p b f s w0) as [[st|e|] w1] eqn:L;
      cbv beta iota in H; try discriminate H;
      pose proof L as L2;
      apply ffwd_loop_inv in L2; [|exact (ffwd_init_inv probe_info padding_buffer)];
      destruct L2 as [[_ _ _ Hlp _ _ _ _] _];
      apply ffwd_loop_calls with (k := 0%nat) in L; [|reflexivity|reflexivity]
  end.
  destruct L as [n [Hd [C [V [A [R _]]]]]].
  cbn [st_video_files st_audio_files st_rates calls] in C, V, A, R.
  exists n.
  cbv beta iota zeta delta
    [bind ret raise log_call run_ffmpeg concatenate_media mux_video_audio
     create_time_padded_video] in H.
  repeat (match type of H with
          | context [run_ok cap ?o] => destruct (run_ok cap o)
          end; cbv beta iota in H); try discriminate H.
  inversion H; subst res dest; clear H. subst w'.
  cbn [rates durations padded_durations calls] in *.
  split; [rewrite R; reflexivity|].
  split; [rewrite Hlp, R; cbn; rewrite length_map, length_seq; reflexivity|].
  split; [reflexivity|].
  rewrite C, V, A. unfold ffwd_setup_calls, ffwd_finish_calls.
  cbn [app]. rewrite <- !app_assoc. reflexivity.
Qed.
Lemma ffwd_loop_exit (fuel : nat) st w :
  (st_ffwd_duration st <= 1)%Q ->
  ffwd_loop cap video_src probe_info padding_buffer fuel st w = (Ok st, w).
Proof.
  intro H. apply Qgtb_false in H. destruct fuel; simpl; rewrite H; reflexivity.
Qed.

(** The durations a returning run records are the probed duration of
    the source followed by what ffprobe reported for each sped-up
    file. *)
Lemma ffwd_durations_are_probed
      (fuel : nat) (output_filename : string) (blank_audio_duration : Q)
      (w w' : world) (res : VideoSegmentData) (dest : path) :
  make_ffwd_concat_video cap video_src probe_info padding_buffer fuel
    output_filename blank_audio_duration w = (Ok (res, dest), w') ->
  exists n : nat,
    List.length (rates res) = S n /\
    durations res
    = duration probe_info
      :: map (fun j => duration (probe_of cap (InWorkRate "ffwd_video" (2 ^ Z.of_nat j))))
           (seq 1 n).
Proof.
  intro H. apply make_ffwd_returns in H. destruct H as [st [w0 [w1 [L E]]]].
  apply ffwd_loop_calls with (k := 0%nat) in L; [|reflexivity|reflexivity].
  destruct L as [n [_ [_ [_ [_ [R D]]]]]].
  exists n. subst res. cbn [rates durations]. split.
  - rewrite R. cbn. rewrite length_map, length_seq. reflexivity.
  - rewrite D. reflexivity.
Qed.

End FfwdLog.

Lemma ffwd_call_order_witness :
  exists n : nat,
    rates scenario_data = map (fun k => 2 ^ Z.of_nat k) (seq 0 (S n)) /\
    List.length (padded_durations scenario_data) = S n /\
    InWork "out.mp4" = InWork "out.mp4" /\
    calls (snd (make_ffwd_concat_video (ideal_cap (93 # 10)) (External "in.mp4")
                  (blank_probe (93 # 10)) 1 4 "out.mp4" 5 empty_world))
    = calls empty_world
      ++ ffwd_setup_calls (External "in.mp4") (blank_probe (93 # 10)) 1 5
      ++ flat_map (ffwd_segment_calls (ideal_cap (93 # 10)) (External "in.mp4")
                     (blank_probe (93 # 10)) 1) (seq 1 n)
      ++ ffwd_finish_calls n (padded_durations scenario_data) "out.mp4".
Proof.
  eapply (@ffwd_call_order (ideal_cap (93 # 10)) (External "in.mp4")
            (blank_probe (93 # 10)) 1 4 "out.mp4" 5 empty_world _ scenario_data
            (InWork "out.mp4")).
  vm_compute. reflexivity.
Defined.


(** X5.  How many segments a source longer than one second gets when
    the sped-up copies re-probe at [source_duration / rate]: with [n]
    sped-up segments after the rate-1 one, [2^(n-1) < duration <= 2^n];
    the last rate is the first power of two that reaches the
    duration. *)
Theorem ffwd_segment_count (d : Q) (padding_buffer : Z) (fuel : nat)
        (res : VideoSegmentData) (dest : path) :
  (1 < d)%Q ->
  ffwd_result fuel d padding_buffer = Ok (res, dest) ->
  exists n : nat,
    List.length (rates res) = S n /\
    (1 <= n)%nat /\
    last (rates res) 0 = 2 ^ Z.of_nat n /\
    (inject_Z (2 ^ (Z.of_nat n - 1)) < d)%Q /\
    (d <= inject_Z (2 ^ Z.of_nat n))%Q.
Proof.
  intros Hd H. unfold ffwd_result in H.
  destruct (make_ffwd_concat_video (ideal_cap d) (External "in.mp4") (blank_probe d)
              padding_buffer fuel "out.mp4" 5 empty_world) as [o w'] eqn:E.
  simpl in H. subst o.
  pose proof (ffwd_durations_shape _ _ _ _ _ _ _ _ E) as [_ [Hbefore Hlast]].
  pose proof E as E3. apply ffwd_durations_are_probed in E3. destruct E3 as [n [Hn D]].
  pose proof E as E2. apply make_ffwd_returns in E2.
  destruct E2 as [st [w0 [w1 [L R]]]].
  apply ffwd_loop_calls with (k := 0%nat) in L; [|reflexivity|reflexivity].
  destruct L as [n' [_ [_ [_ [_ [Rr _]]]]]].
  assert (Hrates : rates res = map (fun j => 2 ^ Z.of_nat j) (seq 0 (S n'))).
  { subst res. cbn [rates]. rewrite Rr. reflexivity. }
  assert (n' = n).
  { rewrite Hrates, length_map, length_seq in Hn. lia. }
  subst n'.
  cbn [probe_of ideal_cap duration blank_probe] in D.
  exists n. split; [exact Hn|].
  assert (Hpos : forall k, (0 < inject_Z (2 ^ Z.of_nat k))%Q)
    by (intro k; apply pow2_pos; lia).
  destruct n as [|n].
  - exfalso. rewrite D in Hlast. cbn in Hlast. exact (Qlt_not_le _ _ Hd Hlast).
  - split; [lia|]. split.
    { rewrite Hrates. rewrite seq_S, map_app. cbn [map]. apply last_last. }
    replace (Z.of_nat (S n) - 1) with (Z.of_nat n) by lia.
    split.
    + specialize (Hbefore n). rewrite D in Hbefore.
      cbn [List.length] in Hbefore. rewrite length_map, length_seq in Hbefore.
      specialize (Hbefore ltac:(lia)).
      destruct n as [|n].
      * cbn in Hbefore. exact Hbefore.
      * change (nth (S n) (d :: ?l) 0%Q) with (nth n l 0%Q) in Hbefore.
        cbn [nth] in Hbefore.
        rewrite (nth_indep _ 0%Q ((fun j => d / inject_Z (2 ^ Z.of_nat j)) 0%nat))%Q
          in Hbefore by (rewrite length_map, length_seq; lia).
        rewrite (map_nth (fun j => (d / inject_Z (2 ^ Z.of_nat j))%Q)) in Hbefore.
        rewrite seq_nth in Hbefore by lia.
        replace (1 + n)%nat with (S n) in Hbefore by lia.
        apply (Qmult_lt_r _ _ _ (Hpos (S n))) in Hbefore.
        rewrite Qmult_1_l in Hbefore.
        unfold Qdiv in Hbefore.
        rewrite <- Qmult_assoc, (Qmult_comm (/ _)), Qmult_inv_r, Qmult_1_r in Hbefore;
          [exact Hbefore|].
        intro Z0. specialize (Hpos (S n)). rewrite Z0 in Hpos. exact (Qlt_irrefl _ Hpos).
    + rewrite D in Hlast.
      replace (d :: map (fun j => (d / inject_Z (2 ^ Z.of_nat j))%Q) (seq 1 (S n)))
        with ((d :: map (fun j => (d / inject_Z (2 ^ Z.of_nat j))%Q) (seq 1 n))
              ++ [(d / inject_Z (2 ^ Z.of_nat (S n)))%Q]) in Hlast.
      * rewrite last_last in Hlast.
        apply (Qmult_le_compat_r _ _ (inject_Z (2 ^ Z.of_nat (S n)))) in Hlast;
          [|apply Qlt_le_weak, Hpos].
        rewrite Qmult_1_l in Hlast. unfold Qdiv in Hlast.
        rewrite <- Qmult_assoc, (Qmult_comm (/ _)), Qmult_inv_r, Qmult_1_r in Hlast;
          [exact Hlast|].
        intro Z0. specialize (Hpos (S n)). rewrite Z0 in Hpos. exact (Qlt_irrefl _ Hpos).
      * rewrite (seq_S n 1), map_app. reflexivity.
Qed.

Lemma ffwd_segment_count_witness :
  exists n : nat,
    List.length (rates scenario_data) = S n /\
    (1 <= n)%nat /\
    last (rates scenario_data) 0 = 2 ^ Z.of_nat n /\
    (inject_Z (2 ^ (Z.of_nat n - 1)) < 93 # 10)%Q /\
    (93 # 10 <= inject_Z (2 ^ Z.of_nat n))%Q.
Proof.
  apply (@ffwd_segment_count (93 # 10) 1 4 scenario_data (InWork "out.mp4")).
  - reflexivity.
  - vm_compute. reflexivity.
Defined.

(** ** The montage: temporary frames and the canvas *)

Section FrameFacts.
Variable cap : Capability.
Variable video_file : path.
Variables thumb_count total_seconds : Z.

(** One iteration that completes leaves the frames directory as it
    found it; one that raises leaves at most the frame it was working
    on. *)
Lemma sample_frame_files thumbnails i w :
  no_frame_files (files w) ->
  match sample_frame cap video_file thumb_count total_seconds thumbnails i w with
  | (Ok _, w') => files w' = files w
  | (_, w') =>
      files w' = files w \/
      files w' = Frame (sample_second thumb_count total_seconds i) :: files w
  end.
Proof.
  intro Hno. unfold sample_frame.
  set (sec := sample_second thumb_count total_seconds i).
  pose proof (Hno sec) as Hsec.
  cbv beta iota zeta delta
    [bind ret raise log_call extract_frame path_exists unlink open_thumbnail].
  cbn [calls files].
  destruct (frame_written cap sec) eqn:W1.
  - destruct (run_ok cap (Op_extract_frame video_file (Frame sec) sec));
      cbv beta iota; cbn [calls files existsb]; [|right; reflexivity].
    rewrite path_eqb_frame_refl. cbn [orb negb andb]. cbv beta iota.
    cbn [calls files existsb]. rewrite path_eqb_frame_refl. cbn [orb negb].
    destruct (image_ok cap (Frame sec)); cbv beta iota; cbn [calls files filter];
      [|right; reflexivity].
    rewrite path_eqb_frame_refl. cbn [negb]. apply filter_no_match. exact Hsec.
  - destruct (run_ok cap (Op_extract_frame video_file (Frame sec) sec));
      cbv beta iota; cbn [calls files]; [|left; reflexivity].
    rewrite Hsec. cbn [negb andb].
    destruct (0 <? sec); cbv beta iota; cbn [calls files].
    + destruct (frame_written cap (sec - 1)) eqn:W2.
      * destruct (run_ok cap (Op_extract_frame video_file (Frame sec) (sec - 1)));
          cbv beta iota; cbn [calls files existsb]; [|right; reflexivity].
        rewrite path_eqb_frame_refl. cbn [orb negb].
        destruct (image_ok cap (Frame sec)); cbv beta iota; cbn [calls files filter];
          [|right; reflexivity].
        rewrite path_eqb_frame_refl. cbn [negb]. apply filter_no_match. exact Hsec.
      * destruct (run_ok cap (Op_extract_frame video_file (Frame sec) (sec - 1)));
          cbv beta iota; cbn [calls files]; [|left; reflexivity].
        rewrite Hsec. cbn [negb]. reflexivity.
    + rewrite Hsec. cbn [negb]. reflexivity.
Qed.

Lemma sample_loop_files indices : forall thumbnails w,
  no_frame_files (files w) ->
  match sample_loop cap video_file thumb_count total_seconds indices thumbnails w with
  | (Ok _, w') => files w' = files w
  | (_, w') => files w' = files w \/ exists s, files w' = Frame s :: files w
  end.
Proof.
  induction indices as [|i rest IH]; intros thumbnails w Hno.
  - reflexivity.
  - cbn [sample_loop]. unfold bind.
    pose proof (sample_frame_files thumbnails i w Hno) as F1.
    destruct (sample_frame cap video_file thumb_count total_seconds thumbnails i w)
      as [[t1|e|] w1].
    + assert (Hno1 : no_frame_files (files w1)) by (rewrite F1; exact Hno).
      specialize (IH t1 w1 Hno1). rewrite F1 in IH. exact IH.
    + destruct F1 as [F1|F1]; [left; exact F1 | right; eexists; exact F1].
    + destruct F1 as [F1|F1]; [left; exact F1 | right; eexists; exact F1].
Qed.
End FrameFacts.

Lemma make_montage_files
      (cap : Capability) (video_file : path) (probe_info : VideoProbeInfo)
      (tw max_dim : Z) (w : world) :
  no_frame_files (files w) ->
  match make_montage cap video_file probe_info tw max_dim w with
  | (Ok _, w') => files w' = files w
  | (_, w') => files w' = files w \/ exists s, files w' = Frame s :: files w
  end.
Proof.
  intro Hno. unfold make_montage. unfold bind at 1, lift.
  destruct (montage_layout probe_info tw max_dim) as [ly|e|];
    try (left; reflexivity).
  unfold bind at 1, log_call at 1. unfold bind at 1.
  match goal with
  | |- context [sample_loop ?c ?v ?tc ?ts ?ix ?th ?w0] =>
      pose proof (@sample_loop_files c v tc ts ix th w0 Hno) as F;
      destruct (sample_loop c v tc ts ix th w0) as [[thumbs|e|] w1]
  end; cbn [files] in F; try exact F.
  cbv beta iota zeta delta [bind ret raise log_call save_jpeg new_canvas].
  destruct (canvas_ok cap (ly_cols ly * tw) (ly_rows ly * ly_thumb_height ly));
    cbv beta iota; cbn [files calls]; [|left; exact F].
  match goal with
  | |- context [if ?b then _ else _] => destruct b
  end; cbn [files]; [exact F | left; exact F].
Qed.

(** X6.  Starting from a frames directory without files: a
    [make_montage] that returns has removed every frame it extracted,
    so the frames directory is without files again; one that raises
    leaves at most one frame file behind, the one of the iteration in
    which ffmpeg or Pillow failed (the [unlink] is the last statement
    of the iteration and is not in a [finally]). *)
Theorem make_montage_cleans_up_frames
        (cap : Capability) (video_file : path) (probe_info : VideoProbeInfo)
        (tw max_dim : Z) (w : world) :
  no_frame_files (files w) ->
  let run := make_montage cap video_file probe_info tw max_dim w in
  (forall r, fst run = Ok r -> files (snd run) = files w) /\
  (files (snd run) = files w \/ exists s, files (snd run) = Frame s :: files w).
Proof.
  intro Hno. cbv zeta.
  pose proof (@make_montage_files cap video_file probe_info tw max_dim w Hno) as F.
  destruct (make_montage cap video_file probe_info tw max_dim w) as [[r|e|] w'];
    cbn [fst snd].
  - split; [intros; exact F | left; exact F].
  - split; [discriminate | exact F].
  - split; [discriminate | exact F].
Qed.

Lemma make_montage_cleans_up_frames_witness :
  let run := make_montage (ideal_cap 5) (External "in.mp4") (blank_probe 5)
               30 MAX_JPEG_DIMENSION empty_world in
  (forall r, fst run = Ok r -> files (snd run) = files empty_world) /\
  (files (snd run) = files empty_world \/
   exists s, files (snd run) = Frame s :: files empty_world).
Proof.
  apply (@make_montage_cleans_up_frames (ideal_cap 5) (External "in.mp4") (blank_probe 5)
           30 MAX_JPEG_DIMENSION empty_world).
  intro s. reflexivity.
Defined.

(** A frame is left when Pillow cannot read it: five seconds of video,
    every extraction succeeding, the first frame unreadable. *)
Lemma make_montage_can_leave_a_frame :
  let cap := {| run_ok := fun _ => true;
                probe_of := fun _ => blank_probe 5;
                frame_written := fun _ => true;
                image_ok := fun _ => false;
                canvas_ok := fun _ _ => true |} in
  exists w',
    make_montage cap (External "in.mp4") (blank_probe 5) 30 MAX_JPEG_DIMENSION empty_world
    = (Raise OSError, w') /\
    files w' = [Frame 0].
Proof. intro cap. eexists. split; [vm_compute; reflexivity | reflexivity]. Qed.

Lemma NoDup_map_injective (A B : Type) (f : A -> B) (l : list A) :
  (forall a b, f a = f b -> a = b) -> NoDup l -> NoDup (map f l).
Proof.
  intros Hinj Hl. induction Hl as [|x l Hx Hl IH]; simpl; constructor.
  - intro Hin. apply in_map_iff in Hin. destruct Hin as [y [E Hy]].
    apply Hinj in E. subst y. contradiction.
  - exact IH.
Qed.

Lemma paste_position_injective (cols tw th : Z) :
  1 <= cols -> 1 <= tw -> 1 <= th ->
  forall a b : nat, paste_position cols tw th a = paste_position cols tw th b -> a = b.
Proof.
  intros Hc Hw Hh a b E. unfold paste_position in E. inversion E as [[Ex Ey]].
  apply Z.mul_cancel_r in Ex; [|lia]. apply Z.mul_cancel_r in Ey; [|lia].
  pose proof (Z.div_mod (Z.of_nat a) cols ltac:(lia)) as Da.
  pose proof (Z.div_mod (Z.of_nat b) cols ltac:(lia)) as Db.
  rewrite Ex, Ey in Da. lia.
Qed.

(** X7.  In a returning [make_montage] the canvas handed to the JPEG
    writer is [columns * thumb_width] by [rows * thumb_height] with
    [rows = ceil(thumb_count / columns) + 1]; at most [thumb_count + 1]
    thumbnails are pasted, every one of them lies wholly inside the
    canvas (the slack row takes the extra one), and no two are pasted
    at the same place. *)
Theorem montage_pastes_fit_the_canvas
        (cap : Capability) (video_file : path) (probe_info : VideoProbeInfo)
        (tw max_dim : Z) (w w' : world) (data : MontageData) (dest : path) :
  make_montage cap video_file probe_info tw max_dim w = (Ok (data, dest), w') ->
  let rows := Qceiling (inject_Z (thumb_count data) / inject_Z (columns data)) + 1 in
  let grid_width := columns data * tw in
  let grid_height := rows * thumb_height data in
  exists pastes,
    last_call (calls w')
    = Some (Op_save_jpeg (InWork "montage.jpg") grid_width grid_height pastes) /\
    Z.of_nat (List.length pastes) <= thumb_count data + 1 /\
    Forall (inside_canvas tw (thumb_height data) grid_width grid_height) pastes /\
    NoDup pastes.
Proof.
  intro H. apply make_montage_grid in H.
  destruct H as [ly [kept [D [Htw [Hth [Hcols [Hpos [Hrows [_ [_ [Hk Hlast]]]]]]]]]]].
  subst data. cbn [thumb_count columns thumb_height]. cbv zeta.
  rewrite <- Hrows.
  assert (Hlen : Z.of_nat (List.length (range (ly_thumb_count ly + 1)))
                 = ly_thumb_count ly + 1) by (apply range_length; lia).
  eexists. split; [exact Hlast|]. split; [|split].
  - rewrite length_map, length_seq. lia.
  - apply Forall_forall. intros xy Hin. apply in_map_iff in Hin.
    destruct Hin as [idx [E Hidx]]. apply in_seq in Hidx. subst xy.
    unfold inside_canvas, paste_position. cbn [fst snd].
    rewrite Hrows.
    set (c := ly_cols ly) in *. set (n := ly_thumb_count ly) in *.
    set (th := ly_thumb_height ly) in *.
    assert (Hi : 0 <= Z.of_nat idx <= n) by lia.
    pose proof (Z.mod_pos_bound (Z.of_nat idx) c ltac:(lia)) as Hm.
    assert (Hq0 : 0 <= Z.of_nat idx / c) by (apply Z.div_pos; lia).
    assert (Hq1 : Z.of_nat idx / c <= n / c) by (apply Z.div_le_mono; lia).
    assert (Hq2 : n / c <= Qceiling (inject_Z n / inject_Z c)).
    { rewrite Zdiv_Qdiv, Zle_Qle. apply Qle_floor_ceiling. }
    repeat split; nia.
  - apply NoDup_map_injective; [|apply seq_NoDup].
    intros a b E. apply (paste_position_injective (cols := ly_cols ly) (tw := tw)
                           (th := ly_thumb_height ly)); assumption.
Qed.

Lemma montage_pastes_fit_the_canvas_witness :
  let data := {| thumb_width := 30; thumb_height := 17; columns := 3; thumb_count := 5 |} in
  let rows := Qceiling (inject_Z (thumb_count data) / inject_Z (columns data)) + 1 in
  let grid_width := columns data * 30 in
  let grid_height := rows * thumb_height data in
  exists pastes,
    last_call (calls (snd (make_montage (ideal_cap 5) (External "in.mp4") (blank_probe 5)
                             30 MAX_JPEG_DIMENSION empty_world)))
    = Some (Op_save_jpeg (InWork "montage.jpg") grid_width grid_height pastes) /\
    Z.of_nat (List.length pastes) <= thumb_count data + 1 /\
    Forall (inside_canvas 30 (thumb_height data) grid_width grid_height) pastes /\
    NoDup pastes.
Proof.
  intro data.
  apply (@montage_pastes_fit_the_canvas (ideal_cap 5) (External "in.mp4") (blank_probe 5)
           30 MAX_JPEG_DIMENSION empty_world _ data (InWork "montage.jpg")).
  vm_compute. reflexivity.
Defined.

(** ** Which seconds are sampled *)

Lemma sample_second_bounds (thumb_count total_seconds i : Z) :
  1 <= thumb_count -> 0 <= total_seconds -> is_float64 (inject_Z total_seconds) ->
  0 <= i <= thumb_count ->
  0 <= sample_second thumb_count total_seconds i <= total_seconds.
Proof.
  intros Hn Ht Hrep [Hi0 Hi1]. unfold sample_second.
  assert (Hnz : (thumb_count =? 0) = false) by (apply Z.eqb_neq; lia).
  rewrite Hnz.
  assert (Hqpos : (0 < inject_Z thumb_count)%Q).
  { change 0%Q with (inject_Z 0). rewrite <- Zlt_Qlt. lia. }
  assert (Htq : (0 <= inject_Z total_seconds)%Q).
  { change 0%Q with (inject_Z 0). rewrite <- Zle_Qle. exact Ht. }
  set (x := round64 (inject_Z i / inject_Z thumb_count)).
  assert (X0 : (0 <= x)%Q).
  { apply round64_nonneg. apply Qle_shift_div_l; [exact Hqpos|].
    rewrite Qmult_0_l. change 0%Q with (inject_Z 0). rewrite <- Zle_Qle. exact Hi0. }
  assert (X1 : (x <= 1)%Q).
  { apply round64_le; [exact (@is_float64_Z 1 ltac:(vm_compute; discriminate))|].
    apply Qle_shift_div_r; [exact Hqpos|].
    rewrite Qmult_1_l, <- Zle_Qle. exact Hi1. }
  pose proof (round64_exact Hrep) as ET. fold (float_of_int total_seconds) in ET.
  set (t := float_of_int total_seconds) in *.
  assert (P0 : (0 <= x * t)%Q) by (rewrite ET in *; apply Qmult_le_0_compat; assumption).
  assert (P1 : (x * t <= inject_Z total_seconds)%Q).
  { rewrite <- (Qmult_1_l (inject_Z total_seconds)), ET.
    apply Qmult_le_compat_r; assumption. }
  unfold fmul. split.
  - apply py_round_ge. apply round64_nonneg. exact P0.
  - apply py_round_le. apply round64_le; assumption.
Qed.

(** The double arithmetic of the sampled second: [y] is the rounded
    product, [e] the exact value [i * total_seconds / thumb_count]. *)
Lemma sample_product_close (n T i : Z) :
  1 <= n <= T -> T <= 2 ^ 53 -> 0 <= i <= n ->
  let y := fmul (round64 (inject_Z i / inject_Z n)) (float_of_int T) in
  let e := (inject_Z i / inject_Z n * inject_Z T)%Q in
  (y - e <= inject_Z T * (1 # 2251799813685248))%Q /\
  (e - y <= inject_Z T * (1 # 2251799813685248))%Q.
Proof.
  intros Hn HT Hi. cbv zeta. unfold fmul.
  assert (E53 : (pow2 (-53) == 1 # 9007199254740992)%Q) by reflexivity.
  assert (Pn : (0 < inject_Z n)%Q).
  { change 0%Q with (inject_Z 0). rewrite <- Zlt_Qlt. lia. }
  assert (PT : (1 <= inject_Z T)%Q).
  { change 1%Q with (inject_Z 1). rewrite <- Zle_Qle. lia. }
  pose proof (@float_of_int_exact T ltac:(lia)) as ET.
  set (t := float_of_int T) in *.
  set (q := (inject_Z i / inject_Z n)%Q).
  destruct (Z.eq_dec i 0) as [I0|I1].
  - assert (Eq0 : (q == 0)%Q) by (unfold q; rewrite I0; apply Qdiv_0_l).
    rewrite (round64_zero Eq0).
    rewrite round64_zero by apply Qmult_0_l.
    rewrite Eq0. split; lra.
  - assert (Q1 : (q <= 1)%Q).
    { unfold q. apply Qle_shift_div_r; [exact Pn|].
      rewrite Qmult_1_l, <- Zle_Qle. lia. }
    assert (Qlo : (pow2 (-53) <= q)%Q).
    { unfold q. apply Qle_shift_div_l; [exact Pn|].
      apply Qle_trans with (pow2 (-53) * pow2 53)%Q.
      - rewrite !(Qmult_comm (pow2 (-53))).
        apply Qmult_le_compat_r; [|apply Qlt_le_weak, pow2_gt_0].
        rewrite (pow2_Z (a := 53)) by lia. rewrite <- Zle_Qle. lia.
      - apply Qle_trans with (inject_Z 1); [vm_compute; discriminate|].
        rewrite <- Zle_Qle. lia. }
    assert (Q0 : (0 < q)%Q) by (eapply Qlt_le_trans; [apply pow2_gt_0 | exact Qlo]).
    assert (Nq : (pow2 (-1022) <= q)%Q)
      by (eapply Qle_trans; [|exact Qlo]; apply pow2_le; lia).
    destruct (round64_error Nq) as [A1 A2].
    set (x := round64 q) in *.
    assert (Xlo : (pow2 (-53) <= x)%Q).
    { apply round64_ge; [|exact Qlo].
      exists 1, (-53). split; [reflexivity|]. split; [lia|].
      rewrite Qmult_1_l. reflexivity. }
    set (z := (x * t)%Q).
    assert (Zlo : (pow2 (-53) <= z)%Q).
    { unfold z. rewrite <- (Qmult_1_r (pow2 (-53))).
      apply Qle_trans with (x * 1)%Q.
      - apply Qmult_le_compat_r; [exact Xlo | discriminate].
      - rewrite !(Qmult_comm x). apply Qmult_le_compat_r; [rewrite ET; exact PT|].
        eapply Qle_trans; [apply Qlt_le_weak, pow2_gt_0 | exact Xlo]. }
    assert (Nz : (pow2 (-1022) <= z)%Q)
      by (eapply Qle_trans; [|exact Zlo]; apply pow2_le; lia).
    destruct (round64_error Nz) as [B1 B2].
    set (y := round64 z) in *.
    set (e := (q * inject_Z T)%Q).
    assert (T0 : (0 <= inject_Z T)%Q) by lra.
    assert (C1 : (z - e <= e * pow2 (-53))%Q).
    { setoid_replace (z - e)%Q with ((x - q) * inject_Z T)%Q
        by (unfold z, e; rewrite ET; ring).
      setoid_replace (e * pow2 (-53))%Q with (q * pow2 (-53) * inject_Z T)%Q
        by (unfold e; ring).
      apply Qmult_le_compat_r; assumption. }
    assert (C2 : (e - z <= e * pow2 (-53))%Q).
    { setoid_replace (e - z)%Q with ((q - x) * inject_Z T)%Q
        by (unfold z, e; rewrite ET; ring).
      setoid_replace (e * pow2 (-53))%Q with (q * pow2 (-53) * inject_Z T)%Q
        by (unfold e; ring).
      apply Qmult_le_compat_r; assumption. }
    assert (E0 : (0 <= e)%Q).
    { unfold e. apply Qmult_le_0_compat; [apply Qlt_le_weak; exact Q0 | exact T0]. }
    assert (E1 : (e <= inject_Z T)%Q).
    { unfold e. rewrite <- (Qmult_1_l (inject_Z T)) at 2.
      apply Qmult_le_compat_r; assumption. }
    rewrite E53 in *.
    revert B1 B2 C1 C2 E0 E1. generalize (inject_Z T). intros tt B1 B2 C1 C2 E0 E1.
    split; lra.
Qed.

(** X8.  With [1 <= thumb_count <= total_seconds <= 2^53], as
    [make_montage] has them: index 0 samples second 0, index
    [thumb_count] samples the very last second [total_seconds], the
    sampled second never decreases with the index and stays in
    [0, total_seconds], and it is within
    [1/2 + total_seconds / 2^51] seconds of
    [i * total_seconds / thumb_count]: the half second of [round] plus
    what the two roundings of the double arithmetic can add.  When
    nothing is subsampled ([thumb_count = total_seconds], below [2^50])
    index [i] samples second [i]. *)
Theorem sampled_seconds_spread (thumb_count total_seconds : Z) :
  1 <= thumb_count <= total_seconds -> total_seconds <= 2 ^ 53 ->
  sample_second thumb_count total_seconds 0 = 0 /\
  sample_second thumb_count total_seconds thumb_count = total_seconds /\
  (forall i j, i <= j ->
     sample_second thumb_count total_seconds i
     <= sample_second thumb_count total_seconds j) /\
  (forall i, 0 <= i <= thumb_count ->
     0 <= sample_second thumb_count total_seconds i <= total_seconds) /\
  (forall i, 0 <= i <= thumb_count ->
     (Qabs (inject_Z (sample_second thumb_count total_seconds i)
            - inject_Z (i * total_seconds) / inject_Z thumb_count)
      <= (1 # 2) + inject_Z total_seconds * (1 # 2251799813685248))%Q) /\
  (thumb_count = total_seconds -> total_seconds < 2 ^ 50 ->
   forall i, 0 <= i <= thumb_count -> sample_second thumb_count total_seconds i = i).
Proof.
  intros Hn HT.
  assert (Hnz : (thumb_count =? 0) = false) by (apply Z.eqb_neq; lia).
  assert (Hq : ~ (inject_Z thumb_count == 0)%Q).
  { intro E. unfold Qeq in E. simpl in E. lia. }
  assert (Hqpos : (0 < inject_Z thumb_count)%Q).
  { change 0%Q with (inject_Z 0). rewrite <- Zlt_Qlt. lia. }
  assert (Hrep : is_float64 (inject_Z total_seconds)) by (apply is_float64_Z; lia).
  pose proof (round64_exact Hrep) as ET. fold (float_of_int total_seconds) in ET.
  assert (Hbounds : forall i, 0 <= i <= thumb_count ->
            0 <= sample_second thumb_count total_seconds i <= total_seconds).
  { intros i Hi. apply sample_second_bounds; [lia | lia | exact Hrep | exact Hi]. }
  assert (Hclose : forall i, 0 <= i <= thumb_count ->
            let y := fmul (round64 (inject_Z i / inject_Z thumb_count))
                          (float_of_int total_seconds) in
            let e := (inject_Z (i * total_seconds) / inject_Z thumb_count)%Q in
            (y - e <= inject_Z total_seconds * (1 # 2251799813685248))%Q /\
            (e - y <= inject_Z total_seconds * (1 # 2251799813685248))%Q).
  { intros i Hi. cbv zeta.
    pose proof (@sample_product_close thumb_count total_seconds i Hn HT Hi) as C.
    cbv zeta in C.
    setoid_replace (inject_Z (i * total_seconds) / inject_Z thumb_count)%Q
      with (inject_Z i / inject_Z thumb_count * inject_Z total_seconds)%Q
      by (rewrite inject_Z_mult; field; exact Hq).
    exact C. }
  split; [apply sample_second_first|]. split; [|split; [|split; [exact Hbounds|split]]].
  - unfold sample_second. rewrite Hnz. unfold fmul.
    assert (E1 : (inject_Z thumb_count / inject_Z thumb_count == 1)%Q)
      by (field; exact Hq).
    assert (R1 : is_float64 (inject_Z thumb_count / inject_Z thumb_count)).
    { exists 1, 0. split; [reflexivity|]. split; [lia|]. rewrite E1. reflexivity. }
    pose proof (Qeq_trans _ _ _ (round64_exact R1) E1) as X1.
    set (x := round64 (inject_Z thumb_count / inject_Z thumb_count)) in *.
    assert (E2 : (x * float_of_int total_seconds == inject_Z total_seconds)%Q)
      by (rewrite X1, ET; ring).
    assert (R2 : is_float64 (x * float_of_int total_seconds)).
    { destruct Hrep as [m [e [Hm [He Er]]]]. exists m, e.
      split; [exact Hm|]. split; [exact He|]. rewrite E2. exact Er. }
    pose proof (Qeq_trans _ _ _ (round64_exact R2) E2) as X2.
    rewrite (py_round_comp X2). apply py_round_Z.
  - intros i j Hij. unfold sample_second. rewrite Hnz. unfold fmul.
    apply py_round_mono, round64_mono.
    apply Qmult_le_compat_r.
    + apply round64_mono. unfold Qdiv. apply Qmult_le_compat_r.
      * rewrite <- Zle_Qle. exact Hij.
      * apply Qlt_le_weak, Qinv_lt_0_compat. exact Hqpos.
    + rewrite ET. change 0%Q with (inject_Z 0). rewrite <- Zle_Qle. lia.
  - intros i Hi. destruct (Hclose i Hi) as [A B]. cbv zeta in A, B.
    unfold sample_second. rewrite Hnz.
    set (y := fmul (round64 (inject_Z i / inject_Z thumb_count))
                   (float_of_int total_seconds)) in *.
    pose proof (py_round_nearest y) as [C D].
    apply Qabs_Qle_condition.
    revert A B C D.
    generalize (inject_Z (py_round y)), (inject_Z (i * total_seconds) / inject_Z thumb_count)%Q,
               (inject_Z total_seconds).
    intros s e t A B C D. split; lra.
  - intros En Hsmall i Hi. destruct (Hclose i Hi) as [A B]. cbv zeta in A, B.
    unfold sample_second. rewrite Hnz.
    set (y := fmul (round64 (inject_Z i / inject_Z thumb_count))
                   (float_of_int total_seconds)) in *.
    assert (Ee : (inject_Z (i * total_seconds) / inject_Z thumb_count == inject_Z i)%Q).
    { rewrite <- En, inject_Z_mult. field. exact Hq. }
    rewrite Ee in A, B.
    assert (U : (inject_Z total_seconds * (1 # 2251799813685248) < 1 # 2)%Q).
    { apply Qlt_le_trans with (inject_Z (2 ^ 50) * (1 # 2251799813685248))%Q.
      - apply Qmult_lt_compat_r; [reflexivity|]. rewrite <- Zlt_Qlt. exact Hsmall.
      - vm_compute. discriminate. }
    apply py_round_near.
    + revert A U. generalize (inject_Z total_seconds), (inject_Z i). intros t a A U. lra.
    + revert B U. generalize (inject_Z total_seconds), (inject_Z i). intros t a B U. lra.
Qed.

Lemma sampled_seconds_spread_witness :
  sample_second 4 10 0 = 0 /\
  sample_second 4 10 4 = 10 /\
  (forall i j, i <= j -> sample_second 4 10 i <= sample_second 4 10 j) /\
  (forall i, 0 <= i <= 4 -> 0 <= sample_second 4 10 i <= 10) /\
  (forall i, 0 <= i <= 4 ->
     (Qabs (inject_Z (sample_second 4 10 i) - inject_Z (i * 10) / inject_Z 4)
      <= (1 # 2) + inject_Z 10 * (1 # 2251799813685248))%Q) /\
  (4 = 10 -> 10 < 2 ^ 50 -> forall i, 0 <= i <= 4 -> sample_second 4 10 i = i).
Proof.
  apply (@sampled_seconds_spread 4 10); lia.
Defined.

(** ** Chapter files of any length *)

Lemma readlines_write_pair (c : written_chapter) (rest : string) :
  no_newline (wc_text c) = true ->
  readlines (write_pair c ++ rest)%string
  = (time_line_of c ++ nl)%string :: (title_line_of c ++ nl)%string :: readlines rest.
Proof.
  intro Ht. unfold write_pair.
  rewrite append_assoc. cbn [append].
  rewrite readlines_line.
  - rewrite append_assoc. cbn [append]. rewrite readlines_line; [reflexivity|].
    unfold title_line_of. rewrite no_newline_app, Ht. reflexivity.
  - unfold time_line_of. rewrite no_newline_app, no_newline_format_time. reflexivity.
Qed.

Lemma parse_entry_written (c : written_chapter) :
  well_written c ->
  parse_entry (time_line_of c ++ nl) (title_line_of c ++ nl) = Ok (entry_of c).
Proof.
  intros [Hh [Hm [Hs [Hus _]]]].
  unfold time_line_of, title_line_of. rewrite !append_assoc.
  apply parse_entry_well_formed; assumption.
Qed.

Lemma parse_lines_written (cs : list written_chapter) : forall rest acc,
  Forall well_written cs ->
  parse_lines (readlines (write_file cs ++ rest)%string) acc
  = parse_lines (readlines rest) (acc ++ map entry_of cs).
Proof.
  induction cs as [|c cs IH]; intros rest acc H.
  - cbn. rewrite app_nil_r. reflexivity.
  - inversion H as [|c' cs' Hc Hcs]; subst.
    cbn [write_file]. rewrite append_assoc.
    rewrite readlines_write_pair by apply Hc.
    cbn [parse_lines]. rewrite (parse_entry_written Hc). cbn [obind].
    rewrite IH by exact Hcs. cbn [map]. rewrite <- app_assoc. reflexivity.
Qed.

Lemma append_empty_r (s : string) : (s ++ EmptyString)%string = s.
Proof. induction s as [|c s IH]; simpl; [reflexivity | rewrite IH; reflexivity]. Qed.

(** X9.  A file of any number of well-formed START/TITLE pairs parses
    to one entry per pair, in file order, each with its own offset
    [h*3600 + m*60 + s + us/1e6] and its title (trailing white space
    removed). *)
Theorem parse_chapters_keeps_file_order (cs : list written_chapter) :
  Forall well_written cs ->
  parse_chapters (Some (write_file cs)) = Ok (map entry_of cs).
Proof.
  intro H. unfold parse_chapters.
  rewrite <- (append_empty_r (write_file cs)).
  rewrite (parse_lines_written EmptyString [] H). reflexivity.
Qed.

Lemma parse_chapters_keeps_file_order_witness :
  let cs := [ {| wc_hour := 0; wc_minute := 9; wc_second := 0; wc_microsecond := 368000;
                 wc_text := "Sycamore Grove" |};
              {| wc_hour := 0; wc_minute := 13; wc_second := 0; wc_microsecond := 150000;
                 wc_text := "Bachelor of the Year" |} ] in
  parse_chapters (Some (write_file cs)) = Ok (map entry_of cs).
Proof.
  intro cs. apply (@parse_chapters_keeps_file_order cs).
  repeat constructor; cbn; lia.
Defined.

(** X10.  One bad pair fails the whole file: when the pairs before it
    are well formed and the pair itself makes [parse_entry] raise,
    [parse_chapters] raises that exception, whatever follows, and
    returns none of the chapters already parsed. *)
Theorem parse_chapters_fails_as_a_whole
        (cs : list written_chapter) (time_line title_line rest : string) (e : exn) :
  Forall well_written cs ->
  no_newline time_line = true -> no_newline title_line = true ->
  parse_entry (time_line ++ nl) (title_line ++ nl) = Raise e ->
  parse_chapters
    (Some (write_file cs
           ++ time_line ++ String newline (title_line ++ String newline rest))%string)
  = Raise e.
Proof.
  intros H Ht Hi He. unfold parse_chapters.
  rewrite (parse_lines_written _ [] H).
  rewrite readlines_line by exact Ht. rewrite readlines_line by exact Hi.
  cbn [parse_lines]. rewrite He. reflexivity.
Qed.

Lemma parse_chapters_fails_as_a_whole_witness :
  parse_chapters
    (Some (write_file [ {| wc_hour := 0; wc_minute := 9; wc_second := 0;
                           wc_microsecond := 368000; wc_text := "Sycamore Grove" |} ]
           ++ "START=00:13" ++ String newline ("TITLE=X" ++ String newline
                ("START=00:14:00.000000" ++ String newline "TITLE=Y")))%string)
  = Raise ValueError.
Proof.
  apply (@parse_chapters_fails_as_a_whole
           [ {| wc_hour := 0; wc_minute := 9; wc_second := 0;
                wc_microsecond := 368000; wc_text := "Sycamore Grove" |} ]
           "START=00:13" "TITLE=X"
           ("START=00:14:00.000000" ++ String newline "TITLE=Y") ValueError).
  - repeat constructor; cbn; lia.
  - reflexivity.
  - reflexivity.
  - reflexivity.
Defined.

(** *** Which exception *)

Lemma after_equals_without (s : string) :
  has_equals s = false -> after_equals s = Raise IndexError.
Proof.
  induction s as [|c s IH]; simpl; intro H; [reflexivity|].
  apply orb_false_iff in H. destruct H as [Hc Hs]. rewrite Hc. exact (IH Hs).
Qed.

Lemma after_equals_with (s : string) :
  has_equals s = true -> exists t, after_equals s = Ok t.
Proof.
  induction s as [|c s IH]; simpl; intro H; [discriminate H|].
  destruct (Ascii.eqb c "="%char); [eexists; reflexivity | exact (IH H)].
Qed.

Lemma has_equals_lstrip (s : string) : has_equals (lstrip s) = has_equals s.
Proof.
  induction s as [|c s IH]; simpl; [reflexivity|].
  destruct (is_space c) eqn:E; [|reflexivity].
  rewrite IH. destruct (Ascii.eqb c "="%char) eqn:Q; [|reflexivity].
  apply Ascii.eqb_eq in Q. subst c. discriminate E.
Qed.

Lemma has_equals_rstrip (s : string) : has_equals (rstrip s) = has_equals s.
Proof.
  induction s as [|c s IH]; [reflexivity|].
  cbn [rstrip]. destruct (rstrip s) as [|c' r] eqn:R.
  - cbn [has_equals] in *. rewrite <- IH.
    destruct (is_space c) eqn:E; cbn [has_equals].
    + destruct (Ascii.eqb c "="%char) eqn:Q; [|reflexivity].
      apply Ascii.eqb_eq in Q. subst c. discriminate E.
    + rewrite orb_false_r. reflexivity.
  - cbn [has_equals] in *. rewrite <- IH. reflexivity.
Qed.

Lemma has_equals_strip (s : string) : has_equals (strip s) = has_equals s.
Proof. unfold strip. rewrite has_equals_lstrip. apply has_equals_rstrip. Qed.

(** X11.  A line without ["="] is an [IndexError]: from the START line
    whatever the TITLE line is, and from the TITLE line as soon as the
    START line has its ["="], even when the time after it is malformed
    (both lines are split before the time is parsed).  So a blank line
    inside a file raises [IndexError]. *)
Theorem parse_entry_line_without_equals (time_line title_line : string) :
  (has_equals time_line = false ->
   parse_entry time_line title_line = Raise IndexError) /\
  (has_equals time_line = true -> has_equals title_line = false ->
   parse_entry time_line title_line = Raise IndexError) /\
  (forall rest, parse_chapters (Some (String newline (String newline rest)))
                = Raise IndexError).
Proof.
  split; [|split].
  - intro H. unfold parse_entry.
    rewrite after_equals_without by (rewrite has_equals_strip; exact H). reflexivity.
  - intros H1 H2. unfold parse_entry.
    destruct (after_equals_with (strip time_line)) as [t Et];
      [rewrite has_equals_strip; exact H1|].
    rewrite Et. cbn [obind].
    rewrite after_equals_without by (rewrite has_equals_strip; exact H2). reflexivity.
  - intro rest. reflexivity.
Qed.

Lemma parse_entry_line_without_equals_witness :
  parse_entry "00:13:00.150000" "TITLE=X" = Raise IndexError /\
  parse_entry "START=not a time" "X" = Raise IndexError.
Proof.
  split.
  - apply (proj1 (parse_entry_line_without_equals "00:13:00.150000" "TITLE=X")).
    reflexivity.
  - apply (proj1 (proj2 (parse_entry_line_without_equals "START=not a time" "X")));
      reflexivity.
Defined.

Lemma field_out_of_range (bound n : Z) (rest : string) :
  bound < n <= 99 -> 0 <= bound ->
  field bound (zero_padded 2 n ++ rest)%string = Raise ValueError.
Proof.
  intros Hn Hb. unfold field. rewrite take_zero_padded.
  assert (E : number_of (digits_of 2 n) = n)
    by (apply number_of_digits_of; change (10 ^ Z.of_nat 2) with 100; lia).
  change (digits_of 2 n) with ([n / 10 mod 10; n mod 10]) in *.
  rewrite E.
  destruct (n <=? bound)%Z eqn:L; [|reflexivity].
  apply Z.leb_le in L. lia.
Qed.

(** X12.  A two-digit hour above 23 or a two-digit minute above 59 is a
    [ValueError], for the time alone and for the pair of lines that
    carries it. *)
Theorem parse_entry_time_out_of_range (h m s us : Z) (text : string) :
  (23 < h <= 99 \/ (0 <= h <= 23 /\ 59 < m <= 99)) ->
  strptime (format_time h m s us) = Raise ValueError /\
  parse_entry ("START=" ++ format_time h m s us ++ nl) ("TITLE=" ++ text ++ nl)
  = Raise ValueError.
Proof.
  intro H.
  assert (S : strptime (format_time h m s us) = Raise ValueError).
  { unfold strptime, format_time. destruct H as [Hh|[Hh Hm]].
    - rewrite field_out_of_range by lia. reflexivity.
    - rewrite field_zero_padded by lia. cbn [obind snd fst expect append].
      rewrite Ascii.eqb_refl. cbn [obind].
      rewrite field_out_of_range by lia. reflexivity. }
  split; [exact S|].
  unfold parse_entry, strip.
  assert (T : rstrip ("START=" ++ format_time h m s us ++ nl)
              = ("START=" ++ format_time h m s us)%string).
  { rewrite <- append_assoc.
    rewrite rstrip_app_space by reflexivity.
    apply rstrip_id, ends_nonspace_app, ends_nonspace_format_time. }
  assert (U : rstrip ("TITLE=" ++ text ++ nl) = ("TITLE=" ++ rstrip text)%string).
  { cbn [append]. rewrite !rstrip_cons by reflexivity.
    rewrite rstrip_app_space by reflexivity. reflexivity. }
  rewrite T, U. cbn [append lstrip after_equals obind].
  change (is_space "S") with false. change (is_space "T") with false.
  cbv beta iota.
  change (after_equals (String "S" (String "T" (String "A" (String "R" (String "T"
            (String "=" (format_time h m s us)))))))) with (Ok (format_time h m s us)).
  change (after_equals (String "T" (String "I" (String "T" (String "L" (String "E"
            (String "=" (rstrip text)))))))) with (Ok (rstrip text)).
  cbn [obind]. rewrite S. reflexivity.
Qed.

Lemma parse_entry_time_out_of_range_witness :
  strptime (format_time 24 0 0 0) = Raise ValueError /\
  parse_entry ("START=" ++ format_time 24 0 0 0 ++ nl) ("TITLE=" ++ "X" ++ nl)
  = Raise ValueError.
Proof.
  apply (@parse_entry_time_out_of_range 24 0 0 0 "X"). left. lia.
Defined.

(** ** Time codes and seeks *)

Lemma format_02d_two_digits (n : Z) :
  0 <= n <= 99 -> format_02d n = zero_padded 2 n.
Proof.
  intro H.
  assert (E : exists k : nat, n = Z.of_nat k /\ (k < 100)%nat)
    by (exists (Z.to_nat n); lia).
  destruct E as [k [E Hk]]. subst n. clear H.
  do 100 (destruct k as [|k]; [vm_compute; reflexivity|]).
  lia.
Qed.

Lemma zero_padded_length (k : nat) (n : Z) : String.length (zero_padded k n) = k.
Proof.
  unfold zero_padded. rewrite <- (digits_of_length k n) at 2.
  induction (digits_of k n) as [|d ds IH]; simpl; [reflexivity | rewrite IH; reflexivity].
Qed.

Lemma string_length_app (a b : string) :
  String.length (a ++ b)%string = (String.length a + String.length b)%nat.
Proof. induction a as [|c a IH]; simpl; [reflexivity | rewrite IH; reflexivity]. Qed.

Lemma string_tail_eq (c : ascii) (a b : string) : String c a = String c b -> a = b.
Proof. intro H. injection H as H. exact H. Qed.

(** X13.  For [0 <= s < 360000] (under a hundred hours)
    [_secs_to_timecode(s)] is the eight characters [HH:MM:SS] with
    two-digit fields [s // 3600], [(s % 3600) // 60] and [s % 60]; the
    minute and second fields are below 60 and the three fields add up
    to [s] again, so different seconds get different time codes. *)
Theorem secs_to_timecode_fields (s : Z) :
  0 <= s < 360000 ->
  secs_to_timecode s
  = (zero_padded 2 (s / 3600) ++ ":" ++ zero_padded 2 (s mod 3600 / 60) ++ ":"
     ++ zero_padded 2 (s mod 60))%string /\
  String.length (secs_to_timecode s) = 8%nat /\
  0 <= s mod 3600 / 60 <= 59 /\
  0 <= s mod 60 <= 59 /\
  (s / 3600) * 3600 + (s mod 3600 / 60) * 60 + s mod 60 = s /\
  (forall s', 0 <= s' < 360000 -> secs_to_timecode s' = secs_to_timecode s -> s' = s).
Proof.
  intro H.
  assert (Fields : forall t, 0 <= t < 360000 ->
            0 <= t / 3600 <= 99 /\ 0 <= t mod 3600 / 60 <= 59 /\ 0 <= t mod 60 <= 59 /\
            (t / 3600) * 3600 + (t mod 3600 / 60) * 60 + t mod 60 = t).
  { intros t Ht.
    pose proof (Z.div_mod t 3600 ltac:(lia)) as D1.
    pose proof (Z.mod_pos_bound t 3600 ltac:(lia)) as B1.
    pose proof (Z.div_mod (t mod 3600) 60 ltac:(lia)) as D2.
    pose proof (Z.mod_pos_bound (t mod 3600) 60 ltac:(lia)) as B2.
    pose proof (Z.mod_pos_bound t 60 ltac:(lia)) as B3.
    assert (M : (t mod 3600) mod 60 = t mod 60).
    { apply Z.mod_mod_divide. exists 60. reflexivity. }
    assert (t / 3600 < 100) by (apply Z.div_lt_upper_bound; lia).
    assert (t mod 3600 / 60 < 60) by (apply Z.div_lt_upper_bound; lia).
    assert (0 <= t / 3600) by (apply Z.div_pos; lia).
    assert (0 <= t mod 3600 / 60) by (apply Z.div_pos; lia).
    repeat split; try lia. }
  assert (Text : forall t, 0 <= t < 360000 ->
            secs_to_timecode t
            = (zero_padded 2 (t / 3600) ++ ":" ++ zero_padded 2 (t mod 3600 / 60) ++ ":"
               ++ zero_padded 2 (t mod 60))%string).
  { intros t Ht. destruct (Fields t Ht) as [Fh [Fm [Fs _]]].
    unfold secs_to_timecode. cbv zeta.
    rewrite !format_02d_two_digits by lia. reflexivity. }
  destruct (Fields s H) as [Fh [Fm [Fs Fsum]]].
  split; [exact (Text s H)|]. split.
  { rewrite (Text s H). rewrite !string_length_app, !zero_padded_length. reflexivity. }
  split; [exact Fm|]. split; [exact Fs|]. split; [exact Fsum|].
  intros s' H' E. rewrite (Text s H), (Text s' H') in E.
  destruct (Fields s' H') as [Fh' [Fm' [Fs' Fsum']]].
  assert (Hf : forall a b ra rb, 0 <= a <= 99 -> 0 <= b <= 99 ->
             (zero_padded 2 a ++ ra)%string = (zero_padded 2 b ++ rb)%string ->
             a = b /\ ra = rb).
  { intros a b ra rb Ha Hb Eab.
    pose proof (field_zero_padded (bound := 99) ra Ha ltac:(lia)) as Pa.
    pose proof (field_zero_padded (bound := 99) rb Hb ltac:(lia)) as Pb.
    rewrite Eab in Pa. rewrite Pa in Pb. inversion Pb. split; reflexivity. }
  apply Hf in E; [|lia|lia]. destruct E as [Eh E].
  cbn [append] in E. apply string_tail_eq in E. rename E into E1.
  apply Hf in E1; [|lia|lia]. destruct E1 as [Em E1].
  cbn [append] in E1. apply string_tail_eq in E1. rename E1 into E2.
  rewrite <- (append_empty_r (zero_padded 2 (s' mod 60))) in E2.
  rewrite <- (append_empty_r (zero_padded 2 (s mod 60))) in E2.
  apply Hf in E2; [|lia|lia]. destruct E2 as [Es _].
  lia.
Qed.

Lemma secs_to_timecode_fields_witness :
  secs_to_timecode 3725
  = (zero_padded 2 (3725 / 3600) ++ ":" ++ zero_padded 2 (3725 mod 3600 / 60) ++ ":"
     ++ zero_padded 2 (3725 mod 60))%string /\
  String.length (secs_to_timecode 3725) = 8%nat /\
  0 <= 3725 mod 3600 / 60 <= 59 /\
  0 <= 3725 mod 60 <= 59 /\
  (3725 / 3600) * 3600 + (3725 mod 3600 / 60) * 60 + 3725 mod 60 = 3725 /\
  (forall s', 0 <= s' < 360000 -> secs_to_timecode s' = secs_to_timecode 3725 -> s' = 3725).
Proof.
  apply (@secs_to_timecode_fields 3725). lia.
Defined.

Section SeekFacts.
Variable cap : Capability.
Variable video_file : path.
Variables thumb_count total_seconds : Z.

Let allowed := montage_call_ok video_file total_seconds.

Lemma sample_frame_allowed thumbnails i w :
  0 <= sample_second thumb_count total_seconds i <= total_seconds ->
  exists tr,
    calls (snd (sample_frame cap video_file thumb_count total_seconds thumbnails i w))
    = calls w ++ tr /\ Forall allowed tr.
Proof.
  intro Hsec. unfold sample_frame.
  set (sec := sample_second thumb_count total_seconds i) in *.
  assert (A1 : allowed (Op_extract_frame video_file (Frame sec) sec)).
  { cbn. split; [reflexivity|]. split; [exact Hsec | left; reflexivity]. }
  cbv beta iota zeta delta
    [bind ret raise log_call extract_frame path_exists unlink open_thumbnail].
  cbn [calls files].
  destruct (run_ok cap (Op_extract_frame video_file (Frame sec) sec));
    cbv beta iota; cbn [calls files snd];
    [|exists [Op_extract_frame video_file (Frame sec) sec];
      split; [reflexivity | constructor; [exact A1 | constructor]]].
  destruct (negb (existsb (path_eqb (Frame sec))
                    (if frame_written cap sec then Frame sec :: files w else files w))
            && (0 <? sec)) eqn:B; cbv beta iota; cbn [calls files snd].
  - apply andb_prop in B. destruct B as [_ Z0]. apply Z.ltb_lt in Z0.
    assert (A2 : allowed (Op_extract_frame video_file (Frame sec) (sec - 1))).
    { cbn. split; [reflexivity|]. split; [lia|].
      right. f_equal. lia. }
    exists [Op_extract_frame video_file (Frame sec) sec;
            Op_extract_frame video_file (Frame sec) (sec - 1)].
    split; [|constructor; [exact A1 | constructor; [exact A2 | constructor]]].
    repeat (match goal with
            | |- context [if ?b then _ else _] => destruct b
            end; cbv beta iota; cbn [calls files snd]);
      rewrite <- app_assoc; reflexivity.
  - exists [Op_extract_frame video_file (Frame sec) sec].
    split; [|constructor; [exact A1 | constructor]].
    repeat (match goal with
            | |- context [if ?b then _ else _] => destruct b
            end; cbv beta iota; cbn [calls files snd]);
      reflexivity.
Qed.

Lemma sample_loop_allowed indices : forall thumbnails w,
  (forall i, In i indices ->
             0 <= sample_second thumb_count total_seconds i <= total_seconds) ->
  exists tr,
    calls (snd (sample_loop cap video_file thumb_count total_seconds indices thumbnails w))
    = calls w ++ tr /\ Forall allowed tr.
Proof.
  induction indices as [|i rest IH]; intros thumbnails w Hin.
  - exists []. cbn. rewrite app_nil_r. split; [reflexivity | constructor].
  - cbn [sample_loop]. unfold bind.
    destruct (sample_frame_allowed thumbnails i w (Hin i (or_introl eq_refl)))
      as [tr1 [C1 A1]].
    destruct (sample_frame cap video_file thumb_count total_seconds thumbnails i w)
      as [[t1|e|] w1]; cbn [snd] in *.
    + destruct (IH t1 w1 (fun j Hj => Hin j (or_intror Hj))) as [tr2 [C2 A2]].
      exists (tr1 ++ tr2). split.
      * rewrite C2, C1, app_assoc. reflexivity.
      * apply Forall_app. split; assumption.
    + exists tr1. split; assumption.
    + exists tr1. split; assumption.
Qed.
End SeekFacts.

(** X14.  [make_montage] asks nothing of the outside world but the
    frames directory, frames of its own video and the final save, and
    it never seeks outside the video: every [extract_frame] it issues,
    retries included, is at a second in [0, floor(duration)], written to
    the frame file of that second or of the next.  This holds for every
    run, returning or not, and for every duration that is a double, as
    every Python float is (the whole seconds of a double convert to a
    double without rounding). *)
Theorem make_montage_seeks_inside_the_video
        (cap : Capability) (video_file : path) (probe_info : VideoProbeInfo)
        (tw max_dim : Z) (w : world) :
  is_float64 (duration probe_info) ->
  exists tr,
    calls (snd (make_montage cap video_file probe_info tw max_dim w)) = calls w ++ tr /\
    Forall (montage_call_ok video_file (Qfloor (duration probe_info))) tr.
Proof.
  intro Hrep. unfold make_montage. unfold bind at 1, lift.
  destruct (montage_layout probe_info tw max_dim) as [ly|e|] eqn:L;
    try (exists []; cbn; rewrite app_nil_r; split; [reflexivity | constructor]).
  apply montage_layout_ok in L. destruct L as [Ht [_ [Hc [Hpos _]]]].
  assert (HT : 1 <= Qfloor (duration probe_info)) by lia.
  assert (Hd : (0 <= duration probe_info)%Q).
  { apply Qle_trans with (inject_Z (Qfloor (duration probe_info))); [|apply Qfloor_le].
    change 0%Q with (inject_Z 0). rewrite <- Zle_Qle. lia. }
  pose proof (is_float64_floor Hrep Hd) as HrepT.
  unfold bind at 1, log_call at 1. unfold bind at 1.
  match goal with
  | |- context [sample_loop ?c ?v ?tc ?ts ?ix ?th ?w0] =>
      destruct (@sample_loop_allowed c v tc ts ix th w0) as [tr [C A]]
  end.
  { intros i Hi. apply range_In in Hi. rewrite Ht.
    apply sample_second_bounds; [lia | lia | exact HrepT | lia]. }
  rewrite Ht in A.
  match goal with
  | |- context [sample_loop ?c ?v ?tc ?ts ?ix ?th ?w0] =>
      destruct (sample_loop c v tc ts ix th w0) as [[thumbs|e|] w1]
  end; cbn [snd calls] in *.
  - cbv beta iota zeta delta [bind ret raise log_call save_jpeg new_canvas].
    destruct (canvas_ok cap (ly_cols ly * tw) (ly_rows ly * ly_thumb_height ly));
      cbv beta iota; cbn [snd calls].
    + match goal with
      | |- context [Op_save_jpeg ?d ?gw ?gh ?ps] =>
          exists (Op_mkdir FrameDir :: tr ++ [Op_save_jpeg d gw gh ps])
      end.
      match goal with
      | |- context [if ?b then _ else _] => destruct b
      end; cbn [snd calls]; (split;
        [rewrite C; rewrite <- !app_assoc; reflexivity
        |constructor; [exact I|]; apply Forall_app; split;
         [exact A | constructor; [reflexivity | constructor]]]).
    + exists (Op_mkdir FrameDir :: tr). split.
      * rewrite C, <- app_assoc. reflexivity.
      * constructor; [exact I | exact A].
  - exists (Op_mkdir FrameDir :: tr). split.
    + rewrite C, <- app_assoc. reflexivity.
    + constructor; [exact I | exact A].
  - exists (Op_mkdir FrameDir :: tr). split.
    + rewrite C, <- app_assoc. reflexivity.
    + constructor; [exact I | exact A].
Qed.

Lemma make_montage_seeks_inside_the_video_witness :
  exists tr,
    calls (snd (make_montage (ideal_cap 5) (External "in.mp4") (blank_probe 5)
                  30 MAX_JPEG_DIMENSION empty_world)) = calls empty_world ++ tr /\
    Forall (montage_call_ok (External "in.mp4") (Qfloor (duration (blank_probe 5)))) tr.
Proof.
  apply (@make_montage_seeks_inside_the_video (ideal_cap 5) (External "in.mp4")
           (blank_probe 5) 30 MAX_JPEG_DIMENSION empty_world).
  exists 5, 0. split; [reflexivity|]. split; [lia | reflexivity].
Defined.

(** ** The orchestrator *)

Lemma hbind_done (A B : Type) (m : H A) (k : A -> H B) hw b hw' :
  hbind m k hw = (Done b, hw') ->
  exists a hw1, m hw = (Done a, hw1) /\ k a hw1 = (Done b, hw').
Proof.
  unfold hbind. destruct (m hw) as [[a|e|] hw1]; intro E; try discriminate E.
  exists a, hw1. split; [reflexivity | exact E].
Qed.

Lemma with_temporary_directory_done (A : Type) (body : H A) hw a hw' :
  with_temporary_directory body hw = (Done a, hw') ->
  exists hw1, body hw = (Done a, hw1) /\
              hw' = {| hw_log := hw_log hw1 ++ [Ev_tmp_removed]; hw_frames := [] |}.
Proof.
  unfold with_temporary_directory. destruct (body hw) as [r hw1]. intro E.
  inversion E; subst. exists hw1. split; reflexivity.
Qed.

Lemma chapter_step_done (host : Host) (config : VideoProcessingConfig) hw cs hw' :
  match chapter_file config with
  | Some cf =>
      if on_disk host cf
      then hbind (run_pipeline (lift (parse_chapters (Some (text_of host cf)))))
                 (fun cs => hret (Some cs))
      else hret None
  | None => hret None
  end hw = (Done cs, hw') ->
  chapters_of host config = Ok cs /\ hw_log hw' = hw_log hw.
Proof.
  unfold chapters_of. destruct (chapter_file config) as [cf|].
  - destruct (on_disk host cf).
    + unfold hbind, run_pipeline, lift, hret.
      destruct (parse_chapters (Some (text_of host cf))) as [l|e|];
        intro E; inversion E; subst; cbn.
      split; [reflexivity | apply app_nil_r].
    + unfold hret. intro E. inversion E; subst. split; reflexivity.
  - unfold hret. intro E. inversion E; subst. split; reflexivity.
Qed.

(** X15.  What a returning [process_video] hands back and writes: the
    metadata carry the configured id, always a pyramid and always a
    montage; the chapters are the parsed chapter file when one is
    configured and exists, and are absent when none is configured or the
    configured file does not exist (no error is raised for it); and the
    last two things done are the removal of the temporary directory and
    the write of [<export_dir>/<video_id>.avd] with [to_dict] of exactly
    these metadata, which therefore has both [V] and [M]. *)
Theorem process_video_returns_full_metadata
        (host : Host) (fuel : nat) (config : VideoProcessingConfig)
        (hw hw' : hworld) (md : VideoMetadata) :
  process_video host fuel config hw = (Done md, hw') ->
  video_id md = cfg_video_id config /\
  (exists v m, video_data md = Some v /\ montage_data md = Some m) /\
  chapters_of host config = Ok (chapters md) /\
  (exists pre,
      hw_log hw'
      = pre ++ [Ev_tmp_removed;
                Ev_write_text (avd_path (export_dir config) (cfg_video_id config))
                  (to_dict md)]) /\
  (exists v m, dict_get (to_dict md) "V" = Some v /\ dict_get (to_dict md) "M" = Some m).
Proof.
  intro E. unfold process_video in E.
  apply hbind_done in E. destruct E as [u1 [hw1 [_ E]]].
  apply hbind_done in E. destruct E as [u2 [hw2 [_ E]]].
  apply hbind_done in E. destruct E as [u3 [hw3 [_ E]]].
  apply hbind_done in E. destruct E as [pi [hw4 [_ E]]].
  apply hbind_done in E. destruct E as [[vd mo] [hw5 [B E]]].
  apply with_temporary_directory_done in B. destruct B as [hw6 [_ B]].
  apply hbind_done in E. destruct E as [cs [hw7 [Ch E]]].
  apply chapter_step_done in Ch. destruct Ch as [Ch Lg].
  apply hbind_done in E. destruct E as [u4 [hw8 [W E]]].
  unfold hret in E. inversion E; subst md hw'; clear E.
  unfold hlog in W. inversion W; subst hw8; clear W.
  cbn [video_id video_data montage_data chapters hw_log].
  split; [reflexivity|]. split; [exists vd, mo; split; reflexivity|].
  split; [exact Ch|]. split.
  - rewrite Lg, B. cbn [hw_log]. exists (hw_log hw6).
    rewrite <- app_assoc. reflexivity.
  - unfold to_dict. cbn [video_data montage_data chapters video_id].
    destruct cs as [[|c l]|]; cbn; eexists; eexists; split; reflexivity.
Qed.

Lemma process_video_returns_full_metadata_witness :
  let host := willing_host (ideal_cap (3 # 2)) EmptyString in
  let config := default_config (External "in.mp4") "vid" (External "out") in
  let md := {| video_id := "vid";
               video_data := Some {| rates := [1; 2]; durations := [3 # 2; 3 # 4]%Q;
                                     padded_durations := [3; 2] |};
               montage_data := Some {| thumb_width := 30; thumb_height := 17;
                                       columns := 1; thumb_count := 1 |};
               chapters := None |} in
  video_id md = cfg_video_id config /\
  (exists v m, video_data md = Some v /\ montage_data md = Some m) /\
  chapters_of host config = Ok (chapters md) /\
  (exists pre,
      hw_log (snd (process_video host 1 config fresh_host_world))
      = pre ++ [Ev_tmp_removed;
                Ev_write_text (avd_path (export_dir config) (cfg_video_id config))
                  (to_dict md)]) /\
  (exists v m, dict_get (to_dict md) "V" = Some v /\ dict_get (to_dict md) "M" = Some m).
Proof.
  intros host config md.
  apply (@process_video_returns_full_metadata host 1 config fresh_host_world _ md).
  vm_compute. reflexivity.
Defined.

Lemma ffwd_short_source_run
      (cap : Capability) (video_src : path) (probe_info : VideoProbeInfo)
      (padding_buffer : Z) (fuel : nat) (output_filename : string)
      (blank_audio_duration : Q) (w : world) :
  (duration probe_info <= 1)%Q ->
  (forall o, run_ok cap o = true) ->
  make_ffwd_concat_video cap video_src probe_info padding_buffer fuel
    output_filename blank_audio_duration w
  = (Ok ({| rates := [1];
            durations := [duration probe_info];
            padded_durations := [fit (duration probe_info) padding_buffer] |},
         InWork output_filename),
     {| calls := calls w
                 ++ ffwd_setup_calls video_src probe_info padding_buffer
                      blank_audio_duration
                 ++ ffwd_finish_calls 0 [fit (duration probe_info) padding_buffer]
                      output_filename;
        files := files w |}).
Proof.
  intros Hd Hok. unfold make_ffwd_concat_video.
  cbv beta iota zeta delta
    [bind ret raise log_call run_ffmpeg create_blank_audio extract_audio
     create_padded_audio create_time_padded_video concatenate_media
     mux_video_audio].
  rewrite !Hok. cbv beta iota.
  rewrite ffwd_loop_exit by exact Hd.
  cbv beta iota. cbn [st_video_files st_audio_files st_padded st_rates st_durations].
  rewrite !Hok. cbv beta iota. cbn [calls files].
  unfold ffwd_setup_calls, ffwd_finish_calls. cbn [seq map].
  rewrite <- !app_assoc. reflexivity.
Qed.

Lemma make_montage_short_run
      (cap : Capability) (video : path) (probe_info : VideoProbeInfo)
      (tw max_dim : Z) (w : world) :
  (0 <= duration probe_info)%Q -> (duration probe_info < 1)%Q ->
  1 <= tw -> 0 <= max_dim ->
  make_montage cap video probe_info tw max_dim w = (Raise ZeroDivisionError, w).
Proof.
  intros H0 H1 Htw Hmax. unfold make_montage, bind, lift.
  rewrite (montage_layout_short _ H0 H1 Htw Hmax). reflexivity.
Qed.

(** X16.  A source whose normalised copy probes at less than one second
    cannot be processed, and fails late: with every tool succeeding,
    [process_video] raises [ZeroDivisionError] from the montage after
    the one-segment fast-forward video has been built and moved to
    [<export_dir>/video/video.mp4]; the temporary directory is removed,
    no montage frame is extracted and no [.avd] file is written. *)
Theorem process_video_subsecond_source
        (host : Host) (fuel : nat) (config : VideoProcessingConfig) (hw : hworld) :
  let normalized := InWork "normalized.mp4" in
  let info := probe_of (host_cap host) normalized in
  deps_present host = true ->
  on_disk host (video_file config) = true ->
  normalize_ok host = true ->
  (forall o, run_ok (host_cap host) o = true) ->
  (0 <= duration info)%Q -> (duration info < 1)%Q ->
  1 <= thumbnail_width config ->
  process_video host fuel config hw
  = (Failed (Pipeline ZeroDivisionError),
     {| hw_log :=
          hw_log hw
          ++ [Ev_check_dependencies;
              Ev_mkdir (Plain (export_dir config));
              Ev_tool (Op_probe_video (video_file config));
              Ev_normalize (video_file config) normalized
                (normalize_mode_of (probe_of (host_cap host) (video_file config))
                   (web_crf config));
              Ev_tool (Op_probe_video normalized)]
          ++ map Ev_tool
               (ffwd_setup_calls normalized info (padding_buffer_seconds config)
                  (blank_audio_duration config)
                ++ ffwd_finish_calls 0
                     [fit (duration info) (padding_buffer_seconds config)] "video.mp4")
          ++ [Ev_mkdir (Under (export_dir config) "video");
              Ev_move (InWork "video.mp4") (Under (export_dir config) "video/video.mp4");
              Ev_tmp_removed];
        hw_frames := [] |}).
Proof.
  intros normalized info Hdeps Hvid Hnorm Hok H0 H1 Htw.
  assert (Hle : (duration info <= 1)%Q) by (apply Qlt_le_weak; exact H1).
  unfold process_video.
  cbv beta iota zeta delta
    [check_dependencies normalize_source normalize_for_web hbind hlog hret hraise
     with_temporary_directory run_pipeline probe_video bind run_ffmpeg log_call ret raise].
  rewrite Hdeps, Hvid. cbv beta iota. rewrite !Hok. cbv beta iota.
  rewrite Hnorm. cbv beta iota. rewrite !Hok. cbv beta iota.
  fold normalized. cbn [hw_frames hw_log calls files].
  fold info.
  rewrite ffwd_short_source_run; [|exact Hle|exact Hok].
  cbv beta iota. cbn [hw_frames hw_log calls files].
  rewrite make_montage_short_run; [|exact H0|exact H1|exact Htw|discriminate].
  cbv beta iota. cbn [hw_frames hw_log calls files map app].
  rewrite !map_app. cbn [map app]. rewrite <- !app_assoc. cbn [app]. reflexivity.
Qed.

Lemma process_video_subsecond_source_witness :
  let host := willing_host (ideal_cap (1 # 2)) EmptyString in
  let config := default_config (External "in.mp4") "vid" (External "out") in
  let normalized := InWork "normalized.mp4" in
  let info := probe_of (host_cap host) normalized in
  process_video host 0 config fresh_host_world
  = (Failed (Pipeline ZeroDivisionError),
     {| hw_log :=
          hw_log fresh_host_world
          ++ [Ev_check_dependencies;
              Ev_mkdir (Plain (export_dir config));
              Ev_tool (Op_probe_video (video_file config));
              Ev_normalize (video_file config) normalized
                (normalize_mode_of (probe_of (host_cap host) (video_file config))
                   (web_crf config));
              Ev_tool (Op_probe_video normalized)]
          ++ map Ev_tool
               (ffwd_setup_calls normalized info (padding_buffer_seconds config)
                  (blank_audio_duration config)
                ++ ffwd_finish_calls 0
                     [fit (duration info) (padding_buffer_seconds config)] "video.mp4")
          ++ [Ev_mkdir (Under (export_dir config) "video");
              Ev_move (InWork "video.mp4") (Under (export_dir config) "video/video.mp4");
              Ev_tmp_removed];
        hw_frames := [] |}).
Proof.
  intros host config normalized info.
  apply (@process_video_subsecond_source host 0 config fresh_host_world);
    try reflexivity.
  - vm_compute. discriminate.
  - vm_compute. discriminate.
Defined.


(** ** Every run of the orchestrator *)

Lemma hbind_eq (A B : Type) (m : H A) (k : A -> H B) (hw : hworld) :
  hbind m k hw
  = match m hw with
    | (Done a, hw') => k a hw'
    | (Failed e, hw') => (Failed e, hw')
    | (Unfinished, hw') => (Unfinished, hw')
    end.
Proof. reflexivity. Qed.

Lemma hlog_eq (e : hevent) (hw : hworld) :
  hlog e hw = (Done tt, {| hw_log := hw_log hw ++ [e]; hw_frames := hw_frames hw |}).
Proof. reflexivity. Qed.

Lemma hret_eq (A : Type) (a : A) (hw : hworld) : hret a hw = (Done a, hw).
Proof. reflexivity. Qed.

Lemma hraise_eq (A : Type) (e : hexn) (hw : hworld) : @hraise A e hw = (Failed e, hw).
Proof. reflexivity. Qed.

Lemma check_dependencies_eq (host : Host) (hw : hworld) :
  check_dependencies host hw
  = (if deps_present host then Done tt else Failed RuntimeError,
     {| hw_log := hw_log hw ++ [Ev_check_dependencies]; hw_frames := hw_frames hw |}).
Proof.
  unfold check_dependencies. rewrite hbind_eq, hlog_eq.
  destruct (deps_present host); reflexivity.
Qed.

Lemma run_pipeline_probe (cap : Capability) (p : path) (hw : hworld) :
  run_pipeline (probe_video cap p) hw
  = (if run_ok cap (Op_probe_video p) then Done (probe_of cap p)
     else Failed (Pipeline CalledProcessError),
     {| hw_log := hw_log hw ++ [Ev_tool (Op_probe_video p)];
        hw_frames := hw_frames hw |}).
Proof.
  cbv beta iota zeta delta [run_pipeline probe_video bind run_ffmpeg log_call ret raise].
  cbn [calls files app]. destruct (run_ok cap (Op_probe_video p)); reflexivity.
Qed.

Lemma logs_only_hret (A : Type) (P : hevent -> Prop) (a : A) : logs_only P (hret a).
Proof. intro hw. exists []. cbn. rewrite app_nil_r. split; [reflexivity | constructor]. Qed.

Lemma logs_only_hraise (A : Type) (P : hevent -> Prop) (e : hexn) :
  logs_only P (@hraise A e).
Proof. intro hw. exists []. cbn. rewrite app_nil_r. split; [reflexivity | constructor]. Qed.

Lemma logs_only_hlog (P : hevent -> Prop) (e : hevent) : P e -> logs_only P (hlog e).
Proof.
  intros He hw. exists [e]. cbn. split; [reflexivity | constructor; [exact He | constructor]].
Qed.

Lemma logs_only_hbind (A B : Type) (P : hevent -> Prop) (m : H A) (k : A -> H B) :
  logs_only P m -> (forall a, logs_only P (k a)) -> logs_only P (hbind m k).
Proof.
  intros Hm Hk hw. destruct (Hm hw) as [tr1 [E1 F1]]. unfold hbind.
  destruct (m hw) as [[a|e|] hw1]; cbn [snd] in *.
  - destruct (Hk a hw1) as [tr2 [E2 F2]]. exists (tr1 ++ tr2). split.
    + rewrite E2, E1, app_assoc. reflexivity.
    + apply Forall_app. split; assumption.
  - exists tr1. split; assumption.
  - exists tr1. split; assumption.
Qed.

Lemma logs_only_run_pipeline (A : Type) (P : hevent -> Prop) (m : M A) :
  (forall o, P (Ev_tool o)) -> logs_only P (run_pipeline m).
Proof.
  intros HP hw. unfold run_pipeline.
  destruct (m {| calls := []; files := hw_frames hw |}) as [r w'].
  exists (map Ev_tool (calls w')). split.
  - destruct r; reflexivity.
  - apply Forall_forall. intros e He. apply in_map_iff in He.
    destruct He as [o [Eo _]]. subst e. apply HP.
Qed.

Lemma with_temporary_directory_logs (A : Type) (P : hevent -> Prop) (body : H A) hw :
  logs_only P body ->
  exists tr,
    with_temporary_directory body hw
    = (fst (body hw),
       {| hw_log := hw_log hw ++ tr ++ [Ev_tmp_removed]; hw_frames := [] |}) /\
    Forall P tr.
Proof.
  intro Hb. destruct (Hb hw) as [tr [E F]]. exists tr. split; [|exact F].
  unfold with_temporary_directory. destruct (body hw) as [r hw1]. cbn [fst snd] in *.
  rewrite E, <- app_assoc. reflexivity.
Qed.

Lemma chapter_step_log (host : Host) (config : VideoProcessingConfig) hw :
  hw_log (snd (match chapter_file config with
               | Some cf =>
                   if on_disk host cf
                   then hbind (run_pipeline (lift (parse_chapters (Some (text_of host cf)))))
                          (fun cs => hret (Some cs))
                   else hret None
               | None => hret None
               end hw))
  = hw_log hw.
Proof.
  destruct (chapter_file config) as [cf|]; [|reflexivity].
  destruct (on_disk host cf); [|reflexivity].
  unfold hbind, run_pipeline, lift, hret.
  destruct (parse_chapters (Some (text_of host cf))) as [l|e|]; cbn; apply app_nil_r.
Qed.

Lemma work_block_logs (host : Host) (fuel : nat) (config : VideoProcessingConfig)
      (probe_info : VideoProbeInfo) :
  logs_only inside_work_dir
    (hbind (normalize_source host (video_file config) probe_info (web_crf config))
       (fun normalized_video =>
        hbind (run_pipeline (probe_video (host_cap host) normalized_video))
          (fun probe_info =>
           hbind (run_pipeline
                    (make_ffwd_concat_video (host_cap host) normalized_video probe_info
                       (padding_buffer_seconds config) fuel "video.mp4"
                       (blank_audio_duration config)))
             (fun ffwd =>
              let '(video_data, video_path) := ffwd in
              hbind (hlog (Ev_mkdir (Under (export_dir config) "video")))
                (fun _ =>
                 hbind (hlog (Ev_move video_path
                                (Under (export_dir config) "video/video.mp4")))
                   (fun _ =>
                    hbind (run_pipeline
                             (make_montage (host_cap host) normalized_video probe_info
                                (thumbnail_width config) MAX_JPEG_DIMENSION))
                      (fun montage =>
                       let '(montage_data, montage_path) := montage in
                       hbind (hlog (Ev_move montage_path
                                      (Under (export_dir config) "montage.jpg")))
                         (fun _ => hret (video_data, montage_data))))))))).
Proof.
  apply logs_only_hbind.
  { unfold normalize_source, normalize_for_web.
    apply logs_only_hbind; [|intro; apply logs_only_hret].
    apply logs_only_hbind; [apply logs_only_hlog; exact I|].
    intro. destruct (normalize_ok host); [apply logs_only_hret | apply logs_only_hraise]. }
  intro nv. apply logs_only_hbind; [apply logs_only_run_pipeline; intro; exact I|].
  intro pi. apply logs_only_hbind; [apply logs_only_run_pipeline; intro; exact I|].
  intros [vd vp]. apply logs_only_hbind; [apply logs_only_hlog; exact I|].
  intro. apply logs_only_hbind; [apply logs_only_hlog; exact I|].
  intro. apply logs_only_hbind; [apply logs_only_run_pipeline; intro; exact I|].
  intros [mo mp]. apply logs_only_hbind; [apply logs_only_hlog; exact I|].
  intro. apply logs_only_hret.
Qed.

(** X17.  Every run of [process_video], returning or not: what it does
    is the checks, the export directory and the source probe; then,
    if it gets that far, the work inside the temporary directory
    followed by the removal of that directory, whatever the outcome of
    the work; then the [.avd] write, which happens exactly when the
    run returns, is the last thing done and carries [to_dict] of the
    returned metadata.  Nothing touches the working directory after
    its removal, and a run that fails writes no [.avd] file. *)
Theorem process_video_every_run
        (host : Host) (fuel : nat) (config : VideoProcessingConfig) (hw : hworld) :
  let run := process_video host fuel config hw in
  exists before inside,
    hw_log (snd run) = hw_log hw ++ before ++ inside ++ avd_write config (fst run) /\
    Forall before_work_dir before /\
    ((inside = [] /\ avd_write config (fst run) = []) \/
     exists body, inside = body ++ [Ev_tmp_removed] /\ Forall inside_work_dir body).
Proof.
  cbv zeta. unfold process_video.
  rewrite hbind_eq, check_dependencies_eq.
  destruct (deps_present host).
  2:{ exists [Ev_check_dependencies], []. cbn.
      split; [reflexivity|]. split; [repeat constructor|]. left. split; reflexivity. }
  rewrite hbind_eq.
  destruct (on_disk host (video_file config)); [rewrite hret_eq | rewrite hraise_eq].
  2:{ exists [Ev_check_dependencies], []. cbn.
      split; [reflexivity|]. split; [repeat constructor|]. left. split; reflexivity. }
  rewrite hbind_eq, hlog_eq. rewrite hbind_eq, run_pipeline_probe. cbn [hw_log hw_frames].
  destruct (run_ok (host_cap host) (Op_probe_video (video_file config))).
  2:{ exists [Ev_check_dependencies; Ev_mkdir (Plain (export_dir config));
              Ev_tool (Op_probe_video (video_file config))], []. cbn.
      split; [rewrite <- !app_assoc; reflexivity|].
      split; [repeat constructor|]. left. split; reflexivity. }
  rewrite hbind_eq.
  match goal with
  | |- context [with_temporary_directory ?b ?h] =>
      destruct (@with_temporary_directory_logs _ inside_work_dir b h
                  (work_block_logs host fuel config _)) as [tr [EB FB]];
      rewrite EB; clear EB;
      destruct (fst (b h)) as [[vd mo]|e|]
  end.
  2,3: exists [Ev_check_dependencies; Ev_mkdir (Plain (export_dir config));
               Ev_tool (Op_probe_video (video_file config))], (tr ++ [Ev_tmp_removed]);
       cbn [fst snd hw_log avd_write];
       (split; [rewrite ?app_nil_r, <- ?app_assoc; cbn [app]; reflexivity|]);
       (split; [repeat constructor|]); right; exists tr; split; [reflexivity | exact FB].
  rewrite hbind_eq.
  match goal with
  | |- context [match chapter_file config with Some _ => _ | None => _ end ?h] =>
      pose proof (chapter_step_log host config h) as CL
  end.
  match type of CL with
  | hw_log (snd ?t) = _ => destruct t as [[cs|e|] hw6]
  end; cbn [snd hw_log] in CL.
  2,3: exists [Ev_check_dependencies; Ev_mkdir (Plain (export_dir config));
               Ev_tool (Op_probe_video (video_file config))], (tr ++ [Ev_tmp_removed]);
       cbn [fst snd hw_log avd_write]; rewrite CL;
       (split; [rewrite ?app_nil_r, <- ?app_assoc; cbn [app]; reflexivity|]);
       (split; [repeat constructor|]); right; exists tr; split; [reflexivity | exact FB].
  rewrite hbind_eq, hlog_eq, hret_eq.
  exists [Ev_check_dependencies; Ev_mkdir (Plain (export_dir config));
          Ev_tool (Op_probe_video (video_file config))], (tr ++ [Ev_tmp_removed]).
  cbn [fst snd hw_log avd_write]. rewrite CL.
  split; [rewrite <- !app_assoc; cbn [app]; reflexivity|].
  split; [repeat constructor|]. right. exists tr. split; [reflexivity | exact FB].
Qed.


(** X18.  [process_video] checks before it touches anything: without
    ffmpeg and ffprobe it raises [RuntimeError], and with them but
    without the source file it raises [FileNotFoundError]; in both
    cases nothing but the dependency check has happened -- the export
    directory has not been created, no tool has run, no temporary
    directory has existed.  A missing tool is reported in preference to
    a missing source. *)
Theorem process_video_checks_first
        (host : Host) (fuel : nat) (config : VideoProcessingConfig) (hw : hworld) :
  deps_present host = false \/ on_disk host (video_file config) = false ->
  process_video host fuel config hw
  = (Failed (if deps_present host then Pipeline FileNotFoundError else RuntimeError),
     {| hw_log := hw_log hw ++ [Ev_check_dependencies]; hw_frames := hw_frames hw |}).
Proof.
  intro Hmiss. unfold process_video.
  rewrite hbind_eq, check_dependencies_eq.
  destruct (deps_present host); [|reflexivity].
  destruct Hmiss as [Hd|Hs]; [discriminate Hd|].
  rewrite hbind_eq, Hs, hraise_eq. reflexivity.
Qed.

Lemma process_video_checks_first_witness :
  let host := {| host_cap := ideal_cap (3 # 2); deps_present := true;
                 on_disk := fun _ => false; text_of := fun _ => EmptyString;
                 normalize_ok := true |} in
  let config := default_config (External "in.mp4") "vid" (External "out") in
  process_video host 1 config fresh_host_world
  = (Failed (if deps_present host then Pipeline FileNotFoundError else RuntimeError),
     {| hw_log := hw_log fresh_host_world ++ [Ev_check_dependencies];
        hw_frames := hw_frames fresh_host_world |}).
Proof.
  intros host config.
  apply (@process_video_checks_first host 1 config fresh_host_world).
  right. reflexivity.
Defined.

Lemma process_video_done
      (host : Host) (fuel : nat) (config : VideoProcessingConfig)
      (hw hw' : hworld) (md : VideoMetadata) :
  process_video host fuel config hw = (Done md, hw') ->
  video_id md = cfg_video_id config /\
  (exists v, video_data md = Some v) /\ (exists m, montage_data md = Some m) /\
  exists pre,
    hw_log hw'
    = pre ++ [Ev_write_text (avd_path (export_dir config) (cfg_video_id config))
                (to_dict md)].
Proof.
  intro E. unfold process_video in E.
  apply hbind_done in E. destruct E as [u1 [hw1 [_ E]]].
  apply hbind_done in E. destruct E as [u2 [hw2 [_ E]]].
  apply hbind_done in E. destruct E as [u3 [hw3 [_ E]]].
  apply hbind_done in E. destruct E as [pi [hw4 [_ E]]].
  apply hbind_done in E. destruct E as [[vd mo] [hw5 [_ E]]].
  apply hbind_done in E. destruct E as [cs [hw7 [_ E]]].
  apply hbind_done in E. destruct E as [u4 [hw8 [W E]]].
  rewrite hret_eq in E. inversion E; subst md hw'; clear E.
  rewrite hlog_eq in W. inversion W; subst hw8; clear W.
  cbn [video_id video_data montage_data hw_log].
  split; [reflexivity|]. split; [exists vd; reflexivity|].
  split; [exists mo; reflexivity|]. exists (hw_log hw7). reflexivity.
Qed.

Lemma process_chapters_only_done
      (host : Host) (chapter_path dir : path) (vid : string)
      (hw hw' : hworld) (md : VideoMetadata) :
  process_chapters_only host chapter_path dir vid hw = (Done md, hw') ->
  video_id md = vid /\ video_data md = None /\ montage_data md = None /\
  exists pre, hw_log hw' = pre ++ [Ev_write_text (avd_path dir vid) (to_dict md)].
Proof.
  intro E. unfold process_chapters_only in E.
  apply hbind_done in E. destruct E as [u1 [hw1 [_ E]]].
  apply hbind_done in E. destruct E as [cs [hw2 [_ E]]].
  apply hbind_done in E. destruct E as [u2 [hw3 [W E]]].
  rewrite hret_eq in E. inversion E; subst md hw'; clear E.
  rewrite hlog_eq in W. inversion W; subst hw3; clear W.
  cbn [video_id video_data montage_data hw_log].
  split; [reflexivity|]. split; [reflexivity|]. split; [reflexivity|].
  exists (hw_log hw2). reflexivity.
Qed.

(** X19.  [process_chapters_only] does not update the chapters of an
    [.avd] file, it replaces the file: called with the export
    directory and id of a full run, it writes the very path
    [<export_dir>/<video_id>.avd] that [process_video] wrote, and what
    it writes has the same [I] but neither [V] nor [M], which the
    file of the full run always has. *)
Theorem process_chapters_only_replaces_avd
        (host host' : Host) (fuel : nat) (config : VideoProcessingConfig)
        (chapter_path : path) (hw hw1 hw2 hw3 : hworld) (md md' : VideoMetadata) :
  process_video host fuel config hw = (Done md, hw1) ->
  process_chapters_only host' chapter_path (export_dir config) (cfg_video_id config) hw2
  = (Done md', hw3) ->
  exists pre pre' p,
    hw_log hw1 = pre ++ [Ev_write_text p (to_dict md)] /\
    hw_log hw3 = pre' ++ [Ev_write_text p (to_dict md')] /\
    dict_get (to_dict md) "V" <> None /\ dict_get (to_dict md) "M" <> None /\
    dict_get (to_dict md') "I" = dict_get (to_dict md) "I" /\
    dict_get (to_dict md') "V" = None /\ dict_get (to_dict md') "M" = None.
Proof.
  intros Efull Echap.
  apply process_video_done in Efull.
  destruct Efull as [Id [[v Hv] [[m Hm] [pre Hpre]]]].
  apply process_chapters_only_done in Echap.
  destruct Echap as [Id' [Hv' [Hm' [pre' Hpre']]]].
  exists pre, pre', (avd_path (export_dir config) (cfg_video_id config)).
  split; [exact Hpre|]. split; [exact Hpre'|].
  unfold to_dict. rewrite Hv, Hm, Hv', Hm', Id, Id'.
  destruct (chapters md) as [[|c l]|]; destruct (chapters md') as [[|c' l']|]; cbn;
    repeat split; try reflexivity; discriminate.
Qed.

Lemma process_chapters_only_replaces_avd_witness :
  let host := willing_host (ideal_cap (3 # 2)) EmptyString in
  let config := default_config (External "in.mp4") "vid" (External "out") in
  let md := {| video_id := "vid";
               video_data := Some {| rates := [1; 2]; durations := [3 # 2; 3 # 4]%Q;
                                     padded_durations := [3; 2] |};
               montage_data := Some {| thumb_width := 30; thumb_height := 17;
                                       columns := 1; thumb_count := 1 |};
               chapters := None |} in
  let md' := {| video_id := "vid"; video_data := None; montage_data := None;
                chapters := Some [] |} in
  exists pre pre' p,
    hw_log (snd (process_video host 1 config fresh_host_world))
    = pre ++ [Ev_write_text p (to_dict md)] /\
    hw_log (snd (process_chapters_only host (External "chapters.txt")
                   (export_dir config) (cfg_video_id config) fresh_host_world))
    = pre' ++ [Ev_write_text p (to_dict md')] /\
    dict_get (to_dict md) "V" <> None /\ dict_get (to_dict md) "M" <> None /\
    dict_get (to_dict md') "I" = dict_get (to_dict md) "I" /\
    dict_get (to_dict md') "V" = None /\ dict_get (to_dict md') "M" = None.
Proof.
  intros host config md md'.
  apply (@process_chapters_only_replaces_avd host host 1 config (External "chapters.txt")
           fresh_host_world _ fresh_host_world _ md md').
  - vm_compute. reflexivity.
  - vm_compute. reflexivity.
Defined.

(** X20.  From chapter text to the [.avd] file: for a chapter file
    that exists and holds well-formed START/TITLE pairs,
    [process_chapters_only] creates the export directory, returns
    metadata whose chapters are the file's entries in file order, and
    writes [<export_dir>/<video_id>.avd] with [I] and, unless the file
    is empty, [C] as the list of [[title, seconds]] pairs in file
    order; an empty chapter file gives an [.avd] with [I] alone. *)
Theorem process_chapters_only_end_to_end
        (host : Host) (chapter_path dir : path) (vid : string)
        (cs : list written_chapter) (hw : hworld) :
  on_disk host chapter_path = true ->
  text_of host chapter_path = write_file cs ->
  Forall well_written cs ->
  process_chapters_only host chapter_path dir vid hw
  = (Done {| video_id := vid; video_data := None; montage_data := None;
             chapters := Some (map entry_of cs) |},
     {| hw_log := hw_log hw ++ [Ev_mkdir (Plain dir);
                                Ev_write_text (avd_path dir vid) (chapters_avd vid cs)];
        hw_frames := hw_frames hw |}).
Proof.
  intros Hex Htext Hcs. unfold process_chapters_only.
  rewrite hbind_eq, hlog_eq. rewrite hbind_eq, Hex, hbind_eq.
  unfold run_pipeline, lift. rewrite Htext.
  assert (P : parse_chapters (Some (write_file cs)) = Ok (map entry_of cs)).
  { unfold parse_chapters. rewrite <- (append_empty_r (write_file cs)).
    rewrite (parse_lines_written EmptyString [] Hcs). reflexivity. }
  rewrite P. cbn [calls files map hw_log hw_frames].
  rewrite hret_eq, hbind_eq, hlog_eq, hret_eq. cbn [hw_log hw_frames].
  rewrite app_nil_r, <- app_assoc. cbn [app].
  replace (to_dict {| video_id := vid; video_data := None; montage_data := None;
                      chapters := Some (map entry_of cs) |})
    with (chapters_avd vid cs); [reflexivity|].
  unfold to_dict, chapters_avd. cbn [video_id video_data montage_data chapters].
  destruct cs as [|c rest]; [reflexivity|].
  cbn [map dict_set]. cbn. rewrite map_map. reflexivity.
Qed.

Lemma process_chapters_only_end_to_end_witness :
  let cs := [ {| wc_hour := 0; wc_minute := 9; wc_second := 0; wc_microsecond := 368000;
                 wc_text := "Sycamore Grove" |};
              {| wc_hour := 0; wc_minute := 13; wc_second := 0; wc_microsecond := 150000;
                 wc_text := "Bachelor of the Year" |} ] in
  let host := willing_host (ideal_cap (3 # 2)) (write_file cs) in
  process_chapters_only host (External "chapters.txt") (External "out") "vid"
    fresh_host_world
  = (Done {| video_id := "vid"; video_data := None; montage_data := None;
             chapters := Some (map entry_of cs) |},
     {| hw_log := hw_log fresh_host_world
                  ++ [Ev_mkdir (Plain (External "out"));
                      Ev_write_text (avd_path (External "out") "vid")
                        (chapters_avd "vid" cs)];
        hw_frames := hw_frames fresh_host_world |}).
Proof.
  intros cs host.
  apply (@process_chapters_only_end_to_end host (External "chapters.txt") (External "out")
           "vid" cs fresh_host_world).
  - reflexivity.
  - reflexivity.
  - repeat constructor; cbn; lia.
Defined.
